(** * Agent-readiness scorer: crawl-and-score engine (scorer.ts)

    A shallow embedding of [scoreUrl] and of the helpers it uses, followed by
    the properties of the engine that the specification states.

    Conventions of the embedding.
    - JavaScript strings are [string]s (byte strings; non-ASCII keywords such
      as the euro sign are their UTF-8 bytes). [toLowerCase] folds the letters
      A to Z only: it is [String.prototype.toLowerCase] on ASCII text, and
      the properties of [textContains] on arbitrary text are stated for ASCII
      text.
    - JavaScript numbers that hold scores and statuses are [Z]; sizes and
      indices are [nat].
    - A [Map<string,string>] is an association list in insertion order, since
      the engine iterates over it; a [Set<string>] is a duplicate-free list.
    - The platform (the URL class, cheerio, [fetch], the clock and the UUID
      source) is not part of the repository: it is an interface, [Platform],
      and every general theorem holds for each implementation of it. *)

From Stdlib Require Import String Ascii List ZArith NArith Bool Arith Lia.
Import ListNotations.
Open Scope list_scope.
Open Scope string_scope.

(** ** Strings *)

Module Str.

Definition lower_ascii (c : ascii) : ascii :=
  let n := N_of_ascii c in
  if (65 <=? n)%N && (n <=? 90)%N then ascii_of_N (n + 32) else c.

(** [s.toLowerCase()] *)
Fixpoint toLowerCase (s : string) : string :=
  match s with
  | EmptyString => EmptyString
  | String c r => String (lower_ascii c) (toLowerCase r)
  end.

(** [s.startsWith(p)] *)
Fixpoint startsWith (s p : string) {struct p} : bool :=
  match p with
  | EmptyString => true
  | String a p' =>
      match s with
      | EmptyString => false
      | String b s' => Ascii.eqb a b && startsWith s' p'
      end
  end.

(** [s.includes(k)] *)
Fixpoint includes (s k : string) : bool :=
  startsWith s k ||
  match s with
  | EmptyString => false
  | String _ s' => includes s' k
  end.

Fixpoint rev_acc (s acc : string) : string :=
  match s with
  | EmptyString => acc
  | String c r => rev_acc r (String c acc)
  end.

Definition rev (s : string) : string := rev_acc s EmptyString.

(** [s.endsWith(p)] *)
Definition endsWith (s p : string) : bool := startsWith (rev s) (rev p).

(** [l.join(sep)] *)
Fixpoint join (sep : string) (l : list string) : string :=
  match l with
  | [] => EmptyString
  | [x] => x
  | x :: r => x ++ sep ++ join sep r
  end.

Fixpoint drop (n : nat) (s : string) : string :=
  match n, s with
  | O, _ => s
  | S n', String _ r => drop n' r
  | S _, EmptyString => EmptyString
  end.

(** [s.replace(pat, rep)] with a string pattern: the first occurrence only. *)
Fixpoint replace (s pat rep : string) : string :=
  if startsWith s pat then rep ++ drop (String.length pat) s
  else match s with
       | EmptyString => EmptyString
       | String c r => String c (replace r pat rep)
       end.

(** [s.replace(/^www\./, "")] *)
Definition strip_www (s : string) : string :=
  if startsWith s "www." then drop 4 s else s.

(** [s.replace(/\/$/, "")] *)
Fixpoint strip_trailing_slash (s : string) : string :=
  match s with
  | EmptyString => EmptyString
  | String c EmptyString => if Ascii.eqb c "/" then EmptyString else s
  | String c r => String c (strip_trailing_slash r)
  end.

(** [s.split(sep)[0]] for a one-character separator. *)
Fixpoint before (sep : ascii) (s : string) : string :=
  match s with
  | EmptyString => EmptyString
  | String c r => if Ascii.eqb c sep then EmptyString else String c (before sep r)
  end.

End Str.

(** The double-quote character, as a one-character string. *)
Definition dquote : string := String (ascii_of_nat 34) EmptyString.

(** [l.length > 0] *)
Definition nonempty {A} (l : list A) : bool :=
  match l with [] => false | _ :: _ => true end.

(** [function textContains(text, keywords)] *)
Definition textContains (text : string) (keywords : list string) : list string :=
  let lower := Str.toLowerCase text in
  filter (fun k => Str.includes lower (Str.toLowerCase k)) keywords.

(** ** The page map *)

Module PageMap.

Definition t := list (string * string).

Fixpoint has (m : t) (k : string) : bool :=
  match m with
  | [] => false
  | (k', _) :: r => String.eqb k' k || has r k
  end.

(** [m.set(k, v)]: an existing key keeps its position. *)
Fixpoint set (m : t) (k v : string) : t :=
  match m with
  | [] => [(k, v)]
  | (k', v') :: r => if String.eqb k' k then (k, v) :: r else (k', v') :: set r k v
  end.

Definition size (m : t) : nat := length m.
Definition values (m : t) : list string := map snd m.

End PageMap.

(** ** Data model *)

Inductive FrictionType := voluntary | regulatory | none.

Definition FrictionType_eqb (a b : FrictionType) : bool :=
  match a, b with
  | voluntary, voluntary | regulatory, regulatory | none, none => true
  | _, _ => false
  end.

Module SubScore.
Record t := mk {
  name : string;
  maxPoints : Z;
  score : Z;
  findings : list string;
  frictionType : option FrictionType;
  frictionNote : option string
}.

Definition set_score (s : t) (v : Z) : t :=
  mk (name s) (maxPoints s) v (findings s) (frictionType s) (frictionNote s).
Definition push (s : t) (f : string) : t :=
  mk (name s) (maxPoints s) (score s) (findings s ++ [f])%list (frictionType s) (frictionNote s).
Definition set_friction (s : t) (ty : FrictionType) (note : string) : t :=
  mk (name s) (maxPoints s) (score s) (findings s) (Some ty) (Some note).
End SubScore.

Module CategoryScore.
Record t := mk {
  name : string;
  description : string;
  maxPoints : Z;
  score : Z;
  subScores : list SubScore.t
}.
End CategoryScore.

Record FrictionSummary := {
  voluntaryFriction : list string;
  regulatoryFriction : list string;
  agentReadyPending : bool
}.

Record ScoringResult := {
  id : string;
  url : string;
  timestamp : string;
  totalScore : Z;
  maxScore : Z;
  grade : string;
  categories : list CategoryScore.t;
  frictionSummary : FrictionSummary;
  crawledPages : list string;
  errors : list string
}.

Definition MAX_CRAWL_PAGES : Z := 30.

Definition SEED_PATHS : list string :=
  [ ""; "/docs"; "/api"; "/pricing"; "/developers"; "/developer";
    "/api-docs"; "/documentation"; "/swagger"; "/openapi";
    "/terms"; "/tos"; "/terms-of-service"; "/legal";
    "/sla"; "/status"; "/security";
    "/sandbox"; "/playground"; "/test";
    "/integrations"; "/plugins"; "/marketplace" ].

(** ** The corpus and the rubric *)

Record Corpus := {
  pages : PageMap.t;
  allText : string;
  allLinksText : string
}.

Section Rubric.

Variable c : Corpus.

Definition hasAny (keywords : list string) : list string :=
  textContains (allText c) keywords.
Definition linkHasAny (keywords : list string) : list string :=
  textContains (allLinksText c) keywords.
Definition has (k : string) : bool := PageMap.has (pages c) k.

Import SubScore.

Definition when (b : bool) (f : SubScore.t -> SubScore.t) (s : SubScore.t) : SubScore.t :=
  if b then f s else s.

Definition sub (n : string) (m sc : Z) : SubScore.t := mk n m sc [] None None.
Definition sub_friction (n : string) (m sc : Z) : SubScore.t :=
  mk n m sc [] (Some none) None.

(** *** DISCOVERY *)

Definition disc_api : SubScore.t :=
  let s := sub "Public API with docs" 3 0 in
  let apiIndicators := hasAny ["api documentation"; "api reference"; "api docs"; "developer docs"; "rest api"; "graphql api"] in
  let apiLinks := linkHasAny ["/api"; "/docs"; "/developer"; "/reference"; "/api-docs"] in
  let s := when (nonempty apiIndicators) (fun s =>
             push (set_score s (score s + 2))
                  ("Found API doc references: " ++ Str.join ", " apiIndicators)) s in
  let s := when (nonempty apiLinks) (fun s =>
             push (set_score s (Z.min 3 (score s + 1))) "Found API-related links") s in
  let s := when (has "/docs" || has "/api" || has "/api-docs" || has "/documentation") (fun s =>
             push (set_score s (Z.min 3 (score s + 1))) "Dedicated docs/API page accessible") s in
  when (score s =? 0)%Z (fun s => push s "No public API documentation detected") s.

Definition disc_pricing : SubScore.t :=
  let s := sub "Machine-readable pricing" 3 0 in
  let pricingPage := has "/pricing" in
  let pricingKeywords := hasAny ["pricing"; "price"; "per month"; "/mo"; "free tier"; "free plan"; "pay as you go"; "usage-based"] in
  let structuredPricing := hasAny ["application/ld+json"; "schema.org/offer"; "schema.org/product"; ("itemtype=" ++ dquote ++ "http")] in
  let s := when pricingPage (fun s =>
             push (set_score s (score s + 1)) "Pricing page found") s in
  let s := when (nonempty pricingKeywords) (fun s =>
             push (set_score s (Z.min 2 (score s + 1)))
                  ("Pricing keywords: " ++ Str.join ", " (firstn 3 pricingKeywords))) s in
  let s := when (nonempty structuredPricing) (fun s =>
             push (set_score s 3) "Structured pricing data (schema.org) detected") s in
  when (score s =? 0)%Z (fun s => push s "No machine-readable pricing detected") s.

Definition disc_directories : SubScore.t :=
  let s := sub "Listed in agent directories" 2 0 in
  let dirKeywords := hasAny ["rapidapi"; "programmableweb"; "api marketplace"; "api directory"; "agent directory"; "mcp server"; "agent protocol"] in
  if nonempty dirKeywords then
    push (set_score s (Z.min 2 (Z.of_nat (length dirKeywords))))
         ("Directory mentions: " ++ Str.join ", " dirKeywords)
  else push s "No agent/API directory listings detected (hard to verify automatically)".

(** The four paths probed by [disc_metadata]. *)
Definition OPENAPI_PATHS : list string :=
  ["/openapi.json"; "/swagger.json"; "/api-docs/swagger.json"; "/.well-known/openapi.json"].

(** [disc_metadata], given the outcome of its probe loop: [Some p] when the
    loop found a spec at path [p] (and stopped there), [None] otherwise. *)
Definition disc_metadata (probe : option string) : SubScore.t :=
  let s := sub "Structured metadata / OpenAPI spec" 2 0 in
  let openapiIndicators := hasAny ["openapi"; "swagger"; "api-spec"; "openapi.json"; "openapi.yaml"; "swagger.json"; "swagger.yaml"; "redoc"] in
  let s := when (nonempty openapiIndicators) (fun s =>
             push (set_score s 2)
                  ("OpenAPI/Swagger indicators: " ++ Str.join ", " openapiIndicators)) s in
  let s := match probe with
           | Some p => push (set_score s 2) ("OpenAPI spec found at " ++ p)
           | None => s
           end in
  when (score s =? 0)%Z (fun s => push s "No OpenAPI/Swagger spec detected") s.

(** *** PURCHASE *)

Definition SIGNUP_KEYWORDS : list string :=
  ["api key"; "get started"; "sign up"; "create account"; "register"; "get api key"; "instant access"].
Definition SELF_SERVE_KEYWORDS : list string :=
  ["no credit card"; "instant"; "self-serve"; "self-service"; "automatic"].
Definition KYC_KEYWORDS : list string :=
  ["kyc"; "know your customer"; "identity verification"; "id verification"; "aml"; "anti-money laundering"; "verify your identity"; "government id"; "ssn"; "passport"; "drivers license"; "proof of address"; "accredited investor"].
Definition CONTACT_SALES_SIGNUP_KEYWORDS : list string :=
  ["contact sales"; "request demo"; "book a demo"; "talk to sales"; "schedule a call"; "request access"].

Definition purch_signup : SubScore.t :=
  let s := sub_friction "Programmatic signup" 2 0 in
  let signupIndicators := hasAny SIGNUP_KEYWORDS in
  let noHumanSteps := hasAny SELF_SERVE_KEYWORDS in
  let kycIndicators := hasAny KYC_KEYWORDS in
  let contactSalesSignup := hasAny CONTACT_SALES_SIGNUP_KEYWORDS in
  if nonempty kycIndicators then
    push (set_friction (set_score s 1) regulatory
            "KYC/identity verification required by regulation — not a design choice")
         ("Regulatory friction (half penalty): " ++ Str.join ", " (firstn 3 kycIndicators))
  else if nonempty contactSalesSignup && negb (nonempty signupIndicators) then
    push (set_friction (set_score s 0) voluntary
            "Manual onboarding by design choice — blocks agents")
         ("Voluntary friction: " ++ Str.join ", " (firstn 2 contactSalesSignup))
  else if nonempty noHumanSteps then
    push (set_score s 2) ("Self-serve indicators: " ++ Str.join ", " (firstn 2 noHumanSteps))
  else if nonempty signupIndicators then
    push (set_score s 1) ("Signup indicators: " ++ Str.join ", " (firstn 3 signupIndicators))
  else push s "No programmatic signup flow detected".

Definition purch_captcha : SubScore.t :=
  let s := sub_friction "No CAPTCHA" 2 2 in
  let captchaIndicators := hasAny ["recaptcha"; "hcaptcha"; "captcha"; "g-recaptcha"; "cf-turnstile"; "turnstile"] in
  if nonempty captchaIndicators then
    push (set_friction (set_score s 0) voluntary
            "CAPTCHA is a design choice — blocks agents entirely")
         ("CAPTCHA detected (voluntary friction): " ++ Str.join ", " captchaIndicators)
  else push s "No CAPTCHA detected on crawled pages".

Definition purch_billing : SubScore.t :=
  let s := sub "API-based / usage-based billing" 2 0 in
  let billingIndicators := hasAny ["usage-based"; "pay per use"; "pay as you go"; "per request"; "per call"; "metered"; "per api call"; "per token"] in
  if nonempty billingIndicators then
    push (set_score s 2) ("Usage-based billing: " ++ Str.join ", " (firstn 2 billingIndicators))
  else
    let subIndicators := hasAny ["subscription"; "monthly"; "annual"; "enterprise"] in
    if nonempty subIndicators then
      push (set_score s 1) "Traditional subscription billing detected"
    else push s "No billing model detected".

Definition purch_crypto : SubScore.t :=
  let s := sub "Accepts crypto/stablecoin" 2 0 in
  let cryptoIndicators := hasAny ["crypto"; "cryptocurrency"; "bitcoin"; "ethereum"; "usdc"; "usdt"; "stablecoin"; "web3"; "wallet"] in
  if nonempty cryptoIndicators then
    push (set_score s 2) ("Crypto mentions: " ++ Str.join ", " (firstn 3 cryptoIndicators))
  else push s "No cryptocurrency payment options detected".

Definition purch_protocols : SubScore.t :=
  let s := sub "Supports x402, UCP, or AP2" 2 0 in
  let protocolIndicators := hasAny ["x402"; "ucp"; "agent protocol"; "ap2"; "402 payment"; "http 402"; "machine-payable"] in
  if nonempty protocolIndicators then
    push (set_score s 2) ("Agent payment protocols: " ++ Str.join ", " protocolIndicators)
  else push s "No agent payment protocols (x402/UCP/AP2) detected".

(** *** INTEGRATION *)

Definition int_mcp : SubScore.t :=
  let s := sub "MCP or A2A support" 3 0 in
  let mcpIndicators := hasAny ["model context protocol"; "mcp"; "agent-to-agent"; "a2a"; "mcp server"; "mcp tool"; "function calling"] in
  if nonempty mcpIndicators then
    push (set_score s 3) ("MCP/A2A indicators: " ++ Str.join ", " (firstn 3 mcpIndicators))
  else push s "No MCP or A2A support detected".

Definition int_structured : SubScore.t :=
  let s := sub "Structured output (JSON)" 3 0 in
  let jsonIndicators := hasAny ["json response"; "json api"; "application/json"; "rest api"; "graphql"; "json output"; "json format"; "returns json"] in
  let sdkIndicators := hasAny ["sdk"; "client library"; "npm install"; "pip install"; "gem install"; "nuget"] in
  let s := when (nonempty jsonIndicators) (fun s =>
             push (set_score s (score s + 2))
                  ("JSON/structured output: " ++ Str.join ", " (firstn 3 jsonIndicators))) s in
  let s := when (nonempty sdkIndicators) (fun s =>
             push (set_score s (Z.min 3 (score s + 1)))
                  ("SDK/client libraries: " ++ Str.join ", " (firstn 2 sdkIndicators))) s in
  when (score s =? 0)%Z (fun s => push s "No structured JSON output detected") s.

Definition int_sandbox : SubScore.t :=
  let s := sub "Sandbox/test environment" 2 0 in
  let sandboxIndicators := hasAny ["sandbox"; "test mode"; "test environment"; "playground"; "try it"; "interactive"; "api console"; "api explorer"] in
  if nonempty sandboxIndicators then
    push (set_score s 2) ("Sandbox/test: " ++ Str.join ", " (firstn 3 sandboxIndicators))
  else push s "No sandbox or test environment detected".

Definition int_ratelimits : SubScore.t :=
  let s := sub "Clear rate limits & error handling" 2 0 in
  let rlIndicators := hasAny ["rate limit"; "rate-limit"; "throttl"; "429"; "quota"; "requests per"; "rpm"; "rps"; "error code"; "error handling"; "status code"] in
  if nonempty rlIndicators then
    push (set_score s 2) ("Rate limit/error docs: " ++ Str.join ", " (firstn 3 rlIndicators))
  else push s "No rate limit documentation detected".

(** *** TRUST *)

Definition trust_pricing : SubScore.t :=
  let s := sub "Transparent pricing" 3 0 in
  let contactSales := hasAny ["contact sales"; "contact us for pricing"; "request a quote"; "custom pricing"; "talk to sales"] in
  let transparentPricing := hasAny ["$"; "€"; "£"; "free"; "per month"; "/mo"; "/year"; "starting at"] in
  if nonempty contactSales && negb (nonempty transparentPricing) then
    push (set_score s 0) ("Opaque pricing: " ++ Str.join ", " contactSales)
  else if nonempty transparentPricing then
    let s := push (set_score s (if nonempty contactSales then 2 else 3)) "Public pricing found" in
    when (nonempty contactSales)
         (fun s => push s "Also has 'contact sales' (likely enterprise tier)") s
  else push s "No pricing information detected".

Definition trust_spend : SubScore.t :=
  let s := sub "Spend controls and usage caps" 3 0 in
  let spendIndicators := hasAny ["spend limit"; "usage cap"; "budget"; "spending limit"; "cost control"; "billing alert"; "usage alert"; "hard limit"; "soft limit"] in
  if nonempty spendIndicators then
    push (set_score s 3) ("Spend controls: " ++ Str.join ", " (firstn 3 spendIndicators))
  else push s "No spend controls or usage caps detected".

Definition trust_sla : SubScore.t :=
  let s := sub "SLA / uptime guarantees" 2 0 in
  let slaIndicators := hasAny ["sla"; "uptime"; "99.9"; "99.99"; "availability"; "service level"; "status page"] in
  let statusPage := has "/status" || has "/sla" in
  if nonempty slaIndicators || statusPage then
    let s := set_score s 2 in
    let s := when statusPage (fun s => push s "Status/SLA page accessible") s in
    when (nonempty slaIndicators)
         (fun s => push s ("SLA mentions: " ++ Str.join ", " (firstn 3 slaIndicators))) s
  else push s "No SLA or uptime guarantees detected".

Definition trust_tos : SubScore.t :=
  let s := sub "ToS allows automated/agent usage" 2 0 in
  let tosPage := has "/terms" || has "/tos" || has "/terms-of-service" || has "/legal" in
  let automatedUse := hasAny ["automated"; "programmatic access"; "bot"; "machine"; "agent"; "non-human"] in
  let antiBot := hasAny ["no automated"; "prohibit automated"; "no bots"; "no scraping"; "human only"] in
  let s := when tosPage (fun s =>
             push (set_score s (score s + 1)) "Terms of Service page found") s in
  let s := if nonempty automatedUse && negb (nonempty antiBot) then
             push (set_score s 2) "Appears to allow automated usage"
           else if nonempty antiBot then
             push (set_score s 0) ("May restrict automated use: " ++ Str.join ", " antiBot)
           else s in
  when ((score s =? 0)%Z && negb tosPage)
       (fun s => push s "No Terms of Service found to evaluate") s.

(** *** Categories *)

Definition build_categories (probe : option string) : list CategoryScore.t :=
  [ CategoryScore.mk "DISCOVERY" "Can an agent find this?" 10 0
      [disc_api; disc_pricing; disc_directories; disc_metadata probe];
    CategoryScore.mk "PURCHASE" "Can an agent buy it?" 10 0
      [purch_signup; purch_captcha; purch_billing; purch_crypto; purch_protocols];
    CategoryScore.mk "INTEGRATION" "Can an agent use it?" 10 0
      [int_mcp; int_structured; int_sandbox; int_ratelimits];
    CategoryScore.mk "TRUST" "Would an owner allow it?" 10 0
      [trust_pricing; trust_spend; trust_sla; trust_tos] ].

End Rubric.

(** ** Aggregation *)

(** [subScores.reduce((sum, s) => sum + s.score, 0)] *)
Definition sum_subScores (l : list SubScore.t) : Z :=
  fold_left (fun sum s => (sum + SubScore.score s)%Z) l 0%Z.

(** The body of [for (const cat of categories) cat.score = ...]. *)
Definition score_category (cat : CategoryScore.t) : CategoryScore.t :=
  CategoryScore.mk (CategoryScore.name cat) (CategoryScore.description cat)
    (CategoryScore.maxPoints cat)
    (Z.min (CategoryScore.maxPoints cat) (sum_subScores (CategoryScore.subScores cat)))
    (CategoryScore.subScores cat).

(** [categories.reduce((sum, c) => sum + c.score, 0)] *)
Definition sum_categories (l : list CategoryScore.t) : Z :=
  fold_left (fun sum cat => (sum + CategoryScore.score cat)%Z) l 0%Z.

Definition gradeOf (totalScore : Z) : string :=
  if (totalScore >=? 35)%Z then "A"
  else if (totalScore >=? 28)%Z then "B"
  else if (totalScore >=? 20)%Z then "C"
  else if (totalScore >=? 10)%Z then "D"
  else "F".

(** [s.frictionNote || s.name] *)
Definition note_or_name (s : SubScore.t) : string :=
  match SubScore.frictionNote s with
  | Some n => if String.eqb n EmptyString then SubScore.name s else n
  | None => SubScore.name s
  end.

Definition has_friction (ty : FrictionType) (s : SubScore.t) : bool :=
  match SubScore.frictionType s with
  | Some ty' => FrictionType_eqb ty' ty
  | None => false
  end.

Definition build_frictionSummary (cats : list CategoryScore.t) : FrictionSummary :=
  let allSubScores := flat_map CategoryScore.subScores cats in
  let voluntaryFriction := map note_or_name (filter (has_friction voluntary) allSubScores) in
  let regulatoryFriction := map note_or_name (filter (has_friction regulatory) allSubScores) in
  {| voluntaryFriction := voluntaryFriction;
     regulatoryFriction := regulatoryFriction;
     agentReadyPending := nonempty regulatoryFriction |}.

(** Everything [scoreUrl] computes after the probe loop of [disc_metadata]:
    the categories, the total, the grade and the friction summary. *)
Definition assemble (c : Corpus) (probe : option string)
    (id url timestamp : string) (crawledPages errors : list string) : ScoringResult :=
  let categories := map score_category (build_categories c probe) in
  let totalScore := sum_categories categories in
  {| id := id; url := url; timestamp := timestamp;
     totalScore := totalScore; maxScore := 40; grade := gradeOf totalScore;
     categories := categories;
     frictionSummary := build_frictionSummary categories;
     crawledPages := crawledPages; errors := errors |}.

(** ** The platform

    What the engine takes from its runtime. [newURL s] is [new URL(s)], [None]
    when the constructor throws; [newURL_base h b] is [new URL(h, b)].
    [anchor_hrefs html] lists the [href] attribute of every element that
    cheerio's selector [a[href]] finds, in document order. [fetch url timeout]
    is one call of the runtime's [fetch] under an abort timer of [timeout]
    milliseconds, together with reading the body: [None] when it throws. The
    network is a state that each call may change, so the same URL may answer
    differently from one attempt to the next. *)

Record Response := { html : string; status : Z }.

Class Platform := {
  URL : Type;
  newURL : string -> option URL;
  newURL_base : string -> string -> option URL;
  href : URL -> string;
  origin : URL -> string;
  hostname : URL -> string;
  pathname : URL -> string;
  anchor_hrefs : string -> list string;
  World : Type;
  fetch : string -> Z -> World -> option Response * World;
  randomUUID : World -> string * World;
  nowISOString : World -> string * World
}.

(** What a rejected promise of [scoreUrl] carries: an [Error] the engine
    throws itself, or the [TypeError] of a [new URL] outside any [try]. *)
Inductive Exn := Error (message : string) | TypeError.

Section Engine.

Context {P : Platform}.

(** *** A state-and-exception monad over the network

    The state is the network together with the log of the calls of [fetch]
    made so far, oldest first: the URL, the timeout and the outcome of
    each. *)

Record Call := { c_url : string; c_timeout : Z; c_result : option Response }.

Record St := { world : World; calls : list Call }.

Definition M (A : Type) : Type := St -> (Exn + A) * St.

Definition ret {A} (a : A) : M A := fun st => (inr a, st).
Definition throw {A} (e : Exn) : M A := fun st => (inl e, st).
Definition bind {A B} (m : M A) (k : A -> M B) : M B :=
  fun st => match m st with
            | (inl e, st') => (inl e, st')
            | (inr a, st') => k a st'
            end.
Definition lift {A} (r : Exn + A) : M A := fun st => (r, st).

Notation "x <- m ;; k" := (bind m (fun x => k))
  (at level 61, m at next level, right associativity).

Fixpoint mapM {A B} (f : A -> M B) (l : list A) : M (list B) :=
  match l with
  | [] => ret []
  | a :: r => b <- f a ;; bs <- mapM f r ;; ret (b :: bs)
  end.

Definition fetch_call (url : string) (timeout : Z) : M (option Response) :=
  fun st => let (r, w) := fetch url timeout (world st) in
            (inr r, {| world := w;
                       calls := (calls st ++ [{| c_url := url; c_timeout := timeout;
                                                 c_result := r |}])%list |}).

(** [fetchPage(url, timeout = 12000, retries = 2)]: [attempts] is what is
    left of the [for] loop; the pause between two attempts changes nothing
    here. *)
Fixpoint fetchPage_loop (attempts : nat) (url : string) (timeout : Z)
    : M (option Response) :=
  match attempts with
  | O => ret None
  | S n => r <- fetch_call url timeout ;;
           match r with
           | Some resp => ret (Some resp)
           | None => fetchPage_loop n url timeout
           end
  end.

Definition fetchPage (url : string) (timeout : Z) (retries : nat) : M (option Response) :=
  fetchPage_loop (S retries) url timeout.

Definition DEFAULT_TIMEOUT : Z := 12000.
Definition DEFAULT_RETRIES : nat := 2.

(** [function findLinks(html, baseUrl)] *)
Definition findLinks (html baseUrl : string) : list string :=
  flat_map (fun h =>
              if String.eqb h EmptyString then []
              else match newURL_base h baseUrl with
                   | Some u => [href u]
                   | None => []
                   end)
           (anchor_hrefs html).

(** *** The relevance filter *)

Definition is_word_char (c : ascii) : bool :=
  let n := N_of_ascii c in
  ((48 <=? n) && (n <=? 57) || (65 <=? n) && (n <=? 90)
   || (97 <=? n) && (n <=? 122) || (n =? 95))%N.

Definition is_word (c : option ascii) : bool :=
  match c with Some a => is_word_char a | None => false end.

Definition first_char (s : string) : option ascii :=
  match s with EmptyString => None | String a _ => Some a end.

Fixpoint last_char (prev : option ascii) (s : string) : option ascii :=
  match s with EmptyString => prev | String a r => last_char (Some a) r end.

(** The assertion [\b] between a character and the next one. *)
Definition word_boundary (prev next : option ascii) : bool :=
  xorb (is_word prev) (is_word next).

(** [w] then [\b], at the start of [s]; [prev] is the character before [s]. *)
Definition lit_then_boundary (prev : option ascii) (s w : string) : bool :=
  Str.startsWith s w
  && word_boundary (last_char prev w) (first_char (Str.drop (String.length w) s)).

(** [/\b(w1|w2|...)\b/.test(s)], every [wi] a literal. *)
Fixpoint test_words (prev : option ascii) (s : string) (ws : list string) : bool :=
  (word_boundary prev (first_char s) && existsb (lit_then_boundary prev s) ws)
  || match s with
     | EmptyString => false
     | String a r => test_words (Some a) r ws
     end.

(** [/\/(w1|w2|...)\b/.test(s)] *)
Fixpoint test_segment (s : string) (ws : list string) : bool :=
  existsb (fun w => lit_then_boundary None s ("/" ++ w)) ws
  || match s with
     | EmptyString => false
     | String _ r => test_segment r ws
     end.

(** [/\.(e1|e2|...)$/.test(s)] *)
Definition test_extension (s : string) (es : list string) : bool :=
  existsb (fun e => Str.endsWith s ("." ++ e)) es.

(** [RELEVANT_PATTERNS]: each pattern is [\b(...)\b] over the literals
    listed; an optional character gives two literals. The subject is
    lower-cased before the test, so the flag [i] adds nothing. *)
Definition RELEVANT_PATTERNS : list (list string) :=
  [ ["api"; "docs"; "doc"; "documentation"; "developer"; "reference"; "sdk"];
    ["pric"; "plan"; "billing"; "subscription"; "cost"];
    ["terms"; "tos"; "legal"; "privacy"; "policy"; "compliance"];
    ["integrat"; "plugin"; "marketplace"; "partner"; "connect"];
    ["security"; "sla"; "status"; "uptime"; "trust"];
    ["sandbox"; "playground"; "test"; "demo"; "trial"; "get-started"; "getstarted"];
    ["sign-up"; "signup"; "register"; "onboard"; "quick-start"; "quickstart"];
    ["openapi"; "swagger"; "graphql"; "rest"; "webhook"];
    ["kyc"; "identity"; "verif"; "aml"; "comply"] ].

(** [function isRelevantUrl(url)]; [None] when [new URL(url)] throws. *)
Definition isRelevantUrl (url : string) : option bool :=
  match newURL url with
  | None => None
  | Some u =>
      let path := Str.toLowerCase (pathname u) in
      if test_extension path ["png"; "jpg"; "jpeg"; "gif"; "svg"; "css"; "js"; "woff"; "ico"; "pdf"; "mp4"; "webm"]
      then Some false
      else if test_segment path ["blog"; "press"; "news"; "careers"; "jobs"; "about-us"; "team"; "contact-us"; "events"; "podcast"; "webinar"]
      then Some false
      else Some (existsb (test_words None path) RELEVANT_PATTERNS)
  end.

(** *** The crawl frontier *)

(** The mutable locals of the crawl: [pages], [crawledPages], [visited]. *)
Record Frontier := {
  f_pages : PageMap.t;
  f_crawledPages : list string;
  f_visited : list string
}.

Definition set_has (s : list string) (x : string) : bool := existsb (String.eqb x) s.
Definition set_add (s : list string) (x : string) : list string :=
  if set_has s x then s else (s ++ [x])%list.

(** [[...new Set(l)]]: the first occurrence of each element, in order. *)
Definition dedupe (l : list string) : list string := fold_left set_add l [].

(** [l.slice(0, e)] *)
Definition slice0 {A} (l : list A) (e : Z) : list A :=
  if (e <? 0)%Z then firstn (Z.to_nat (Z.of_nat (length l) + e)) l
  else firstn (Z.to_nat e) l.

Definition BATCH_SIZE : nat := 5.

(** The batches [l.slice(i, i + BATCH_SIZE)] for [i = 0, 5, 10, ...] below
    [l.length]. *)
Fixpoint batches_aux {A} (fuel : nat) (l : list A) : list (list A) :=
  match fuel with
  | O => []
  | S n =>
      match l with
      | [] => []
      | _ :: _ => firstn BATCH_SIZE l :: batches_aux n (skipn BATCH_SIZE l)
      end
  end.

Definition batches {A} (l : list A) : list (list A) := batches_aux (length l) l.

Definition SUBDOMAIN_PREFIXES : list string :=
  ["docs"; "developer"; "developers"; "api"; "status"].

(** [allSeeds.filter(u => { if (visited.has(u)) return false; visited.add(u); return true; })] *)
Fixpoint filter_unvisited (l : list string) (visited : list string)
    : list string * list string :=
  match l with
  | [] => ([], visited)
  | u :: r =>
      if set_has visited u then filter_unvisited r visited
      else let (keep, v) := filter_unvisited r (visited ++ [u])%list in (u :: keep, v)
  end.

Definition usable (result : option Response) : option Response :=
  match result with
  | Some r => if (status r <? 400)%Z then Some r else None
  | None => None
  end.

Definition record_page (st : Frontier) (key body fullUrl : string) : Frontier :=
  {| f_pages := PageMap.set (f_pages st) key body;
     f_crawledPages := (f_crawledPages st ++ [fullUrl])%list;
     f_visited := f_visited st |}.

(** [x || "/"] on a string *)
Definition or_slash (x : string) : string :=
  if String.eqb x EmptyString then "/" else x.

(** The key under which Phase 1 stores the page fetched from [fullUrl]. *)
Definition phase1_key (origin_ fullUrl : string) : Exn + string :=
  if Str.startsWith fullUrl origin_ then
    match newURL fullUrl with
    | Some u => inr (or_slash (pathname u))
    | None => inl TypeError
    end
  else inr fullUrl.

(** Phase 1, the loop over the results of one batch. *)
Fixpoint phase1_results (origin_ : string) (results : list (string * option Response))
    (st : Frontier) : Exn + Frontier :=
  match results with
  | [] => inr st
  | (fullUrl, result) :: rest =>
      match usable result with
      | Some r =>
          match phase1_key origin_ fullUrl with
          | inl e => inl e
          | inr path => phase1_results origin_ rest (record_page st path (html r) fullUrl)
          end
      | None => phase1_results origin_ rest st
      end
  end.

(** [await Promise.all(batch.map(async u => ({ u, result: await fetchPage(u) })))].
    The fetches of a batch are issued one after the other here. The network
    state is arbitrary, so whatever outcomes a concurrent batch can have, some
    network gives them to this sequence; the results come back in the order
    of the batch, as [Promise.all] returns them. *)
Definition fetch_batch (batch : list string) : M (list (string * option Response)) :=
  mapM (fun fullUrl => result <- fetchPage fullUrl DEFAULT_TIMEOUT DEFAULT_RETRIES ;;
                       ret (fullUrl, result)) batch.

(** Phase 1, the loop over the batches of seeds. *)
Fixpoint phase1_loop (origin_ : string) (bs : list (list string)) (st : Frontier)
    : M Frontier :=
  match bs with
  | [] => ret st
  | batch :: rest =>
      results <- fetch_batch batch ;;
      st' <- lift (phase1_results origin_ results st) ;;
      phase1_loop origin_ rest st'
  end.

Definition allSeeds (origin_ baseDomain : string) : list string :=
  app (map (fun p => origin_ ++ p) SEED_PATHS)
      (map (fun sub => "https://" ++ sub ++ "." ++ baseDomain) SUBDOMAIN_PREFIXES).

Definition phase1 (origin_ baseDomain : string) : M Frontier :=
  let (uniqueSeeds, visited) := filter_unvisited (allSeeds origin_ baseDomain) [] in
  phase1_loop origin_ (batches uniqueSeeds)
    {| f_pages := []; f_crawledPages := []; f_visited := visited |}.

(** Phase 2, the body of the loop over the links of a page: the URL pushed
    on [discoveredUrls], if any. Whatever throws inside is caught. *)
Definition discover_link (baseDomain : string) (visited : list string) (link : string)
    : option string :=
  match newURL link with
  | None => None
  | Some parsed =>
      let linkDomain := Str.strip_www (hostname parsed) in
      if negb (Str.endsWith linkDomain baseDomain) then None
      else
        let normalized := origin parsed ++ Str.strip_trailing_slash (pathname parsed) in
        if set_has visited normalized then None
        else match isRelevantUrl normalized with
             | Some true => Some normalized
             | _ => None
             end
  end.

Definition discoveredUrls (origin_ baseDomain : string) (st : Frontier) : list string :=
  flat_map (fun kv : string * string =>
              flat_map (fun link => match discover_link baseDomain (f_visited st) link with
                                    | Some u => [u]
                                    | None => []
                                    end)
                       (findLinks (snd kv) origin_))
           (f_pages st).

Definition uniqueDiscovered (origin_ baseDomain : string) (st : Frontier) : list string :=
  slice0 (dedupe (discoveredUrls origin_ baseDomain st))
         (MAX_CRAWL_PAGES - Z.of_nat (PageMap.size (f_pages st))).

Definition at_cap (st : Frontier) : bool :=
  (Z.of_nat (PageMap.size (f_pages st)) >=? MAX_CRAWL_PAGES)%Z.

(** Phase 3, the loop over the results of one batch. *)
Fixpoint phase3_results (results : list (string * option Response)) (st : Frontier)
    : Exn + Frontier :=
  match results with
  | [] => inr st
  | (url_, result) :: rest =>
      if at_cap st then inr st
      else match usable result with
           | Some r =>
               match newURL url_ with
               | Some u => phase3_results rest (record_page st (pathname u) (html r) url_)
               | None => inl TypeError
               end
           | None => phase3_results rest st
           end
  end.

(** Phase 3, the loop over the batches of discovered URLs. *)
Fixpoint phase3_loop (bs : list (list string)) (st : Frontier) : M Frontier :=
  match bs with
  | [] => ret st
  | batch :: rest =>
      if at_cap st then ret st
      else
        let st := {| f_pages := f_pages st; f_crawledPages := f_crawledPages st;
                     f_visited := fold_left set_add batch (f_visited st) |} in
        results <- fetch_batch batch ;;
        st' <- lift (phase3_results results st) ;;
        phase3_loop rest st'
  end.

Definition crawl (origin_ baseDomain : string) : M Frontier :=
  st1 <- phase1 origin_ baseDomain ;;
  phase3_loop (batches (uniqueDiscovered origin_ baseDomain st1)) st1.

(** *** Normalisation of the input *)

Definition normalize (inputUrl : string) : Exn + URL :=
  match newURL (if Str.startsWith inputUrl "http" then inputUrl
                else "https://" ++ inputUrl) with
  | None => inl (Error "Invalid URL. Try something like: stripe.com")
  | Some baseUrl =>
      if negb (Str.includes (hostname baseUrl) ".") then
        inl (Error (dquote ++ inputUrl ++ dquote
                    ++ " doesn't look like a full URL. Try: " ++ inputUrl ++ ".com"))
      else if Str.startsWith (hostname baseUrl) "www." then
        match newURL (Str.replace (href baseUrl) "://www." "://") with
        | Some u => inr u
        | None => inl TypeError
        end
      else inr baseUrl
  end.

(** *** The probe of [disc_metadata] and the whole of [scoreUrl] *)

Definition is_spec (r : option Response) : bool :=
  match r with
  | Some resp => (status resp =? 200)%Z
                 && Str.includes (html resp) (dquote ++ "openapi" ++ dquote)
  | None => false
  end.

Definition PROBE_TIMEOUT : Z := 3000.

(** The [for (const p of [...])] loop of [disc_metadata]: the path at which
    it breaks, if it does. *)
Fixpoint probe_loop (origin_ : string) (paths : list string) : M (option string) :=
  match paths with
  | [] => ret None
  | p :: rest =>
      r <- fetchPage (origin_ ++ p) PROBE_TIMEOUT DEFAULT_RETRIES ;;
      if is_spec r then ret (Some p) else probe_loop origin_ rest
  end.

Definition newline : string := String (ascii_of_nat 10) EmptyString.

Definition NO_PAGES : string := "Could not fetch any pages from this URL".

Definition corpus_of (origin_ : string) (pages : PageMap.t) : Corpus :=
  let allText := Str.toLowerCase (Str.join newline (PageMap.values pages)) in
  let allLinks := flat_map (fun kv : string * string => findLinks (snd kv) origin_) pages in
  {| pages := pages; allText := allText;
     allLinksText := Str.toLowerCase (Str.join " " allLinks) |}.

(** [scoreUrl] from the normalised [baseUrl] on. *)
Definition score_run (baseUrl : URL) : M ScoringResult :=
  let origin_ := origin baseUrl in
  let baseDomain := Str.strip_www (hostname baseUrl) in
  st <- crawl origin_ baseDomain ;;
  let errors := if (PageMap.size (f_pages st) =? 0)%nat then [NO_PAGES] else [] in
  probe <- probe_loop origin_ OPENAPI_PATHS ;;
  uuid <- (fun s => let (u, w) := randomUUID (world s) in
                    (inr u, {| world := w; calls := calls s |})) ;;
  now <- (fun s => let (t, w) := nowISOString (world s) in
                   (inr t, {| world := w; calls := calls s |})) ;;
  ret (assemble (corpus_of origin_ (f_pages st)) probe
         (Str.before "-" uuid) origin_ now (f_crawledPages st) errors).

Definition scoreUrl (inputUrl : string) : M ScoringResult :=
  baseUrl <- lift (normalize inputUrl) ;;
  score_run baseUrl.

End Engine.

(** ** A reference platform

    An implementation of [Platform] on which the engine can be run. It covers
    plain web addresses, [http(s)://host[:port][/path][?query][#fragment]]:
    the host is folded to lower case and must consist of letters, digits,
    hyphens and dots, its last label not starting with a digit (so that it is
    a domain and not an IPv4 address); a port is decimal, without leading
    zeros, at most 65535, and dropped when it is the scheme's default; the
    path is kept as written. Anything else is refused here, although the
    runtime's [new URL] accepts more (other schemes, IP addresses, user
    names, dot segments): the platform serves to run the engine on examples.
    The general theorems hold for every implementation of [Platform]; those
    about typed domain names assume only what [parses_plain_domains] says.
    A document's anchors are the texts between
    [<a href=] followed by a double quote and the next double quote. The
    network is a site: a table from URLs to responses that never changes. *)

Module Web.

Record url := {
  scheme : string;
  host : string;
  port : string;
  path : string;
  query : string;
  fragment : string
}.

Fixpoint take_until (p : ascii -> bool) (s : string) : string :=
  match s with
  | EmptyString => EmptyString
  | String c r => if p c then EmptyString else String c (take_until p r)
  end.

Fixpoint drop_until (p : ascii -> bool) (s : string) : string :=
  match s with
  | EmptyString => EmptyString
  | String c r => if p c then s else drop_until p r
  end.

Fixpoint all_chars (p : ascii -> bool) (s : string) : bool :=
  match s with
  | EmptyString => true
  | String c r => p c && all_chars p r
  end.

Definition is_delim (c : ascii) : bool :=
  Ascii.eqb c "/" || Ascii.eqb c "?" || Ascii.eqb c "#".
Definition is_colon (c : ascii) : bool := Ascii.eqb c ":".
Definition is_query_or_hash (c : ascii) : bool := Ascii.eqb c "?" || Ascii.eqb c "#".
Definition is_hash (c : ascii) : bool := Ascii.eqb c "#".

Definition is_digit (c : ascii) : bool :=
  let n := N_of_ascii c in ((48 <=? n) && (n <=? 57))%N.

Definition is_host_char (c : ascii) : bool :=
  let n := N_of_ascii c in
  ((97 <=? n) && (n <=? 122) || (48 <=? n) && (n <=? 57) || (n =? 45) || (n =? 46))%N.

(** Whether the last non-empty label starts with a digit. [fresh] says that
    a label starts here, [flag] is the answer for the labels seen so far. *)
Fixpoint last_label_numeric (fresh flag : bool) (s : string) : bool :=
  match s with
  | EmptyString => flag
  | String c r =>
      if Ascii.eqb c "." then last_label_numeric true flag r
      else last_label_numeric false (if fresh then is_digit c else flag) r
  end.

Definition valid_host (h : string) : bool :=
  negb (String.eqb h EmptyString) && all_chars is_host_char h
  && negb (last_label_numeric true false h).

Fixpoint decimal (acc : N) (s : string) : N :=
  match s with
  | EmptyString => acc
  | String c r => decimal (acc * 10 + (N_of_ascii c - 48)) r
  end.

Definition default_port (sch : string) : string :=
  if String.eqb sch "https" then "443" else "80".

Definition valid_port (p : string) : bool :=
  all_chars is_digit p
  && (String.eqb p "0" || negb (Str.startsWith p "0"))
  && (String.length p <=? 5)%nat && (decimal 0 p <=? 65535)%N.

(** The port as the URL keeps it: empty when absent or the default. *)
Definition parse_port (sch p : string) : option string :=
  if String.eqb p EmptyString then Some EmptyString
  else if valid_port p then
    Some (if String.eqb p (default_port sch) then EmptyString else p)
  else None.

Definition split_scheme (s : string) : option (string * string) :=
  if Str.startsWith s "https://" then Some ("https", Str.drop 8 s)
  else if Str.startsWith s "http://" then Some ("http", Str.drop 7 s)
  else None.

Definition parse (s : string) : option url :=
  match split_scheme s with
  | None => None
  | Some (sch, rest) =>
      let auth := take_until is_delim rest in
      let tail := drop_until is_delim rest in
      let h := Str.toLowerCase (take_until is_colon auth) in
      match parse_port sch (Str.drop 1 (drop_until is_colon auth)) with
      | None => None
      | Some p =>
          if valid_host h then
            let rest2 := drop_until is_query_or_hash tail in
            Some {| scheme := sch; host := h; port := p;
                    path := or_slash (take_until is_query_or_hash tail);
                    query := take_until is_hash rest2;
                    fragment := drop_until is_hash rest2 |}
          else None
      end
  end.

Definition origin_of (u : url) : string :=
  scheme u ++ "://" ++ host u
  ++ (if String.eqb (port u) EmptyString then EmptyString else ":" ++ port u).

Definition href_of (u : url) : string :=
  origin_of u ++ path u ++ query u ++ fragment u.

(** [new URL(h, base)] for an absolute [h] or one that starts with a single
    slash. *)
Definition parse_base (h base : string) : option url :=
  match parse h with
  | Some u => Some u
  | None =>
      if Str.startsWith h "/" && negb (Str.startsWith h "//") then
        match parse base with
        | Some b => parse (origin_of b ++ h)
        | None => None
        end
      else None
  end.

Definition anchor_open : string := "<a href=" ++ dquote.

Fixpoint anchors (s : string) : list string :=
  match s with
  | EmptyString => []
  | String _ r =>
      ((if Str.startsWith s anchor_open
        then [Str.before (ascii_of_nat 34) (Str.drop (String.length anchor_open) s)]
        else []) ++ anchors r)%list
  end.

Definition site := string -> option Response.

#[export] Instance platform : Platform := {|
  URL := url;
  newURL := parse;
  newURL_base := parse_base;
  href := href_of;
  origin := origin_of;
  hostname := host;
  pathname := path;
  anchor_hrefs := anchors;
  World := site;
  fetch := fun u _ w => (w u, w);
  randomUUID := fun w => ("3f2a9c1e-0000-4000-8000-000000000000", w);
  nowISOString := fun w => ("2024-01-01T00:00:00.000Z", w)
|}.

(** A run of [m] on the site [w], from an empty log. *)
Definition run {A} (m : M A) (w : site) : (Exn + A) * St :=
  m {| world := w; calls := [] |}.

Definition link (h : string) : string := anchor_open ++ h ++ dquote ++ ">x</a>".

(** [b] is empty or starts with a character that [p] accepts. *)
Definition stops (p : ascii -> bool) (b : string) : Prop :=
  match b with
  | EmptyString => True
  | String c _ => p c = true
  end.

(** The part of a URL that [new URL] keeps in its origin. *)
Definition well_formed (u : url) : Prop :=
  (scheme u = "https" \/ scheme u = "http")
  /\ valid_host (host u) = true
  /\ Str.toLowerCase (host u) = host u
  /\ (port u = EmptyString
      \/ valid_port (port u) = true
         /\ String.eqb (port u) (default_port (scheme u)) = false).

(** The URL of the origin alone. *)
Definition root (u : url) : url :=
  {| scheme := scheme u; host := host u; port := port u;
     path := "/"; query := EmptyString; fragment := EmptyString |}.

Definition port_suffix (p : string) : string :=
  if String.eqb p EmptyString then EmptyString else ":" ++ p.

End Web.

Import (hints) Web.

(** ** Sites and corpora to run the engine on *)

Module Sites.

Definition page (body : string) : option Response :=
  Some {| html := body; status := 200 |}.

(** A site that answers nothing. *)
Definition dead : Web.site := fun _ => None.

(** A site that answers every request with the same page, which links to
    three pages of the API documentation. *)
Definition uniform : Web.site :=
  fun _ => page (Web.link "/api/v1" ++ Web.link "/api/v2" ++ Web.link "/api/v3").

(** A site of one page, whose documentation lives on a subdomain. *)
Definition with_subdomain : Web.site :=
  fun u =>
    if String.eqb u "https://example.com" then
      page (Web.link "https://docs.example.com/api/v1")
    else if String.eqb u "https://docs.example.com/api/v1" then
      page "<h1>API reference</h1>"
    else None.

(** A site of one page that links to a page of another registrable domain. *)
Definition with_foreign_link : Web.site :=
  fun u =>
    if String.eqb u "https://example.com" then
      page (Web.link "https://evilexample.com/docs")
    else if String.eqb u "https://evilexample.com/docs" then
      page "<h1>Not example.com</h1>"
    else None.

(** A site that serves nothing but a spec at [/swagger.json]. *)
Definition with_spec : Web.site :=
  fun u =>
    if String.eqb u "https://example.com/swagger.json" then
      page ("{" ++ dquote ++ "openapi" ++ dquote ++ ": " ++ dquote ++ "3.0.0" ++ dquote ++ "}")
    else None.

Definition text_corpus (text : string) : Corpus :=
  {| pages := []; allText := text; allLinksText := EmptyString |}.

End Sites.

(** ** Vocabulary of the properties *)

(** A sub-score within its range. *)
Definition in_range (s : SubScore.t) : Prop :=
  (0 <= SubScore.score s <= SubScore.maxPoints s)%Z.

Definition has_max (m : Z) (s : SubScore.t) : Prop := SubScore.maxPoints s = m.

(** The corpus contains one of the keywords: the text, in lower case as
    [textContains] reads it, includes it. *)
Definition contains (c : Corpus) (keywords : list string) : Prop :=
  exists k, In k keywords /\ Str.includes (Str.toLowerCase (allText c)) k = true.

Definition lowercase (keywords : list string) : Prop :=
  Forall (fun k => Str.toLowerCase k = k) keywords.

(** How many of the calls [cs] went to the URL [u]. *)
Definition attempts (cs : list Call) (u : string) : nat :=
  length (filter (fun c => String.eqb (c_url c) u) cs).

(** The points [disc_metadata] gives for the outcome of its probe alone. *)
Definition probe_points (probe : option string) : Z :=
  match probe with Some _ => 2 | None => 0 end.

Definition empty_corpus : Corpus :=
  {| pages := []; allText := EmptyString; allLinksText := EmptyString |}.

Section Vocabulary.

Context {P : Platform}.

(** The result that [scoreUrl] builds from the URL it normalised, the
    frontier the crawl left, the outcome of the probe, and what the UUID
    source and the clock gave. *)
Definition result_of (baseUrl : URL) (fr : Frontier) (probe : option string)
    (uuid now : string) : ScoringResult :=
  assemble (corpus_of (origin baseUrl) (f_pages fr)) probe
    (Str.before "-" uuid) (origin baseUrl) now (f_crawledPages fr)
    (if (PageMap.size (f_pages fr) =? 0)%nat then [NO_PAGES] else []).

(** What every step of the crawl keeps: the page map is no larger than the
    list of crawled pages, and it is empty only when that list is. *)
Definition consistent (st : Frontier) : Prop :=
  (PageMap.size (f_pages st) <= length (f_crawledPages st))%nat
  /\ (f_pages st = [] <-> f_crawledPages st = []).

Definition empty_frontier (visited : list string) : Frontier :=
  {| f_pages := []; f_crawledPages := []; f_visited := visited |}.

(** [Inv] holds of the networks on which [fetch] never brings back a
    response below 400, now or later. *)
Definition never_usable (Inv : World -> Prop) : Prop :=
  forall w u t, Inv w ->
    Inv (snd (fetch u t w)) /\ usable (fst (fetch u t w)) = None.

End Vocabulary.

(** The start of a run on a site. *)
Definition start (w : Web.site) : St (P := Web.platform) := {| world := w; calls := [] |}.

(** ** The serving shell (server.ts)

    Of the request handler, the part that prepares the look-up in the cache
    of results: the key [normalizedUrl] that the route [/api/score] computes
    from the URL in the request body. The handler stores a fresh result under
    [result.url] and looks a cached one up under this key. *)

Section Server.

Context {P : Platform}.

(** [normalizedUrl], as the [try] block computes it; the [catch] keeps the
    request's URL as it is. *)
Definition normalizedUrl (bodyUrl : string) : string :=
  match newURL (if Str.startsWith bodyUrl "http" then bodyUrl
                else "https://" ++ bodyUrl) with
  | Some u => Str.replace (origin u) "://www." "://"
  | None => bodyUrl
  end.

End Server.

(** ** Further vocabulary *)

(** [l] with some of its elements left out, the others in their order. *)
Inductive subseq {A : Type} : list A -> list A -> Prop :=
| subseq_nil : subseq [] []
| subseq_skip : forall x l1 l2, subseq l1 l2 -> subseq l1 (x :: l2)
| subseq_keep : forall x l1 l2, subseq l1 l2 -> subseq (x :: l1) (x :: l2).

(** The keywords of [purch_captcha]. *)
Definition CAPTCHA_KEYWORDS : list string :=
  ["recaptcha"; "hcaptcha"; "captcha"; "g-recaptcha"; "cf-turnstile"; "turnstile"].

Definition KYC_NOTE : string :=
  "KYC/identity verification required by regulation — not a design choice".
Definition MANUAL_NOTE : string :=
  "Manual onboarding by design choice — blocks agents".
Definition CAPTCHA_NOTE : string :=
  "CAPTCHA is a design choice — blocks agents entirely".

(** A failed call of [fetch], and one that brought a response. *)
Definition failed_call (u : string) (t : Z) : Call :=
  {| c_url := u; c_timeout := t; c_result := None |}.
Definition answered_call (u : string) (t : Z) (resp : Response) : Call :=
  {| c_url := u; c_timeout := t; c_result := Some resp |}.

(** The characters that make a host name as it is typed: letters of either
    case, digits, hyphens and dots. *)
Definition is_typed_host_char (c : ascii) : bool :=
  Web.is_host_char (Str.lower_ascii c).

(** The URLs of a batch that came back with a usable response. *)
Definition is_usable (result : option Response) : bool :=
  match usable result with Some _ => true | None => false end.

Definition ok_urls (results : list (string * option Response)) : list string :=
  map fst (filter (fun x => is_usable (snd x)) results).

Section CrawlTrace.

Context {P : Platform}.

(** What a stretch of the crawl over the URLs [urls] does, from the frontier
    [fr] and the state [s] to [fr'] and [s']: it appends to the crawled pages
    some of [urls], in their order; it calls [fetch] at most three times per
    URL, with the default timeout and for these URLs only; and each page it
    appends was answered with a status below 400. *)
Definition crawl_step (urls : list string) (fr fr' : Frontier) (s s' : St) : Prop :=
  exists picked new,
    f_crawledPages fr' = (f_crawledPages fr ++ picked)%list
    /\ subseq picked urls
    /\ calls s' = (calls s ++ new)%list
    /\ (length new <= 3 * length urls)%nat
    /\ (forall k, In k new -> c_timeout k = DEFAULT_TIMEOUT /\ In (c_url k) urls)
    /\ (forall u, In u picked ->
          exists resp, In (answered_call u DEFAULT_TIMEOUT resp) new
                       /\ (status resp < 400)%Z).

End CrawlTrace.


(** A sub-score of maximum [m] that carries no friction tag. *)
Definition untagged (m : Z) (s : SubScore.t) : Prop :=
  SubScore.maxPoints s = m /\ SubScore.frictionType s = None.

(** What [purch_signup] takes for manual onboarding: the corpus asks for a
    call with sales, offers no signup, and names no KYC requirement. *)
Definition manual_onboarding (c : Corpus) : Prop :=
  ~ contains c KYC_KEYWORDS
  /\ contains c CONTACT_SALES_SIGNUP_KEYWORDS
  /\ ~ contains c SIGNUP_KEYWORDS.

(** A word: one character or more, each a letter, a digit or an underscore. *)
Definition is_plain_word (w : string) : bool :=
  negb (String.eqb w EmptyString) && Web.all_chars is_word_char w.

(** The frontier after the home page of [example.com] was fetched, when
    that page links to [/api/v1]. *)
Definition home_frontier : Frontier :=
  {| f_pages := [("/", Web.link "/api/v1")];
     f_crawledPages := ["https://example.com"];
     f_visited := ["https://example.com"] |}.

(** The rows of the rubric: the name and the maximum each sub-score starts
    from, in the order of the categories. *)
Definition RUBRIC : list (string * Z) :=
  [ ("Public API with docs", 3); ("Machine-readable pricing", 3);
    ("Listed in agent directories", 2); ("Structured metadata / OpenAPI spec", 2);
    ("Programmatic signup", 2); ("No CAPTCHA", 2);
    ("API-based / usage-based billing", 2); ("Accepts crypto/stablecoin", 2);
    ("Supports x402, UCP, or AP2", 2);
    ("MCP or A2A support", 3); ("Structured output (JSON)", 3);
    ("Sandbox/test environment", 2); ("Clear rate limits & error handling", 2);
    ("Transparent pricing", 3); ("Spend controls and usage caps", 3);
    ("SLA / uptime guarantees", 2); ("ToS allows automated/agent usage", 2) ]%Z.

(** A sub-score that fills its row of the rubric and says why it scored as
    it did. *)
Definition explained (row : string * Z) (s : SubScore.t) : Prop :=
  SubScore.name s = fst row /\ SubScore.maxPoints s = snd row
  /\ SubScore.findings s <> [].

(** Text in which every character is an ASCII character: on such text
    [String.prototype.toLowerCase] folds the letters A to Z and nothing
    else, as [Str.toLowerCase] does. *)
Definition is_ascii (s : string) : bool :=
  Web.all_chars (fun c => (N_of_ascii c <? 128)%N) s.

(** The same character up to the case of a letter. *)
Definition is_upper (c : ascii) : bool :=
  let n := N_of_ascii c in ((65 <=? n) && (n <=? 90))%N.

Definition same_letter (c1 c2 : ascii) : bool :=
  Ascii.eqb c1 c2
  || is_upper c1 && (N_of_ascii c2 =? N_of_ascii c1 + 32)%N
  || is_upper c2 && (N_of_ascii c1 =? N_of_ascii c2 + 32)%N.

(** [a] is [b] up to the case of its letters. *)
Fixpoint case_variant (a b : string) : bool :=
  match a, b with
  | EmptyString, EmptyString => true
  | String x a', String y b' => same_letter x y && case_variant a' b'
  | _, _ => false
  end.

(** ** Plain domain names

    A domain name as it is typed: letters, digits, hyphens and dots, not
    empty, without an empty label before its end, the last label not
    beginning with a digit (so it is not read as an IPv4 address) and no
    label in punycode ([xn--]). *)
Definition plain_domain (h : string) : bool :=
  Web.valid_host (Str.toLowerCase h)
  && negb (Str.includes (Str.toLowerCase h) "xn--")
  && negb (Str.includes (Str.toLowerCase h) "..")
  && negb (Str.startsWith (Str.toLowerCase h) ".").

(** What the theorems on typed domain names take from the URL class: that
    [new URL("https://" + h)], for a plain domain name [h], is the URL of
    host [h] in lower case, with origin [https://h] and href [https://h/],
    and that parsing this href gives the same URL. *)
Definition parses_plain_domains (P : Platform) : Prop :=
  forall h, plain_domain h = true ->
    exists u,
      newURL ("https://" ++ h) = Some u
      /\ newURL ("https://" ++ Str.toLowerCase h ++ "/") = Some u
      /\ hostname u = Str.toLowerCase h
      /\ origin u = "https://" ++ Str.toLowerCase h
      /\ href u = "https://" ++ Str.toLowerCase h ++ "/".

(** * Properties *)



Lemma score_push s f : SubScore.score (SubScore.push s f) = SubScore.score s.
Proof. reflexivity. Qed.
Lemma score_set_score s v : SubScore.score (SubScore.set_score s v) = v.
Proof. reflexivity. Qed.
Lemma score_set_friction s ty n :
  SubScore.score (SubScore.set_friction s ty n) = SubScore.score s.
Proof. reflexivity. Qed.
Lemma maxPoints_push s f : SubScore.maxPoints (SubScore.push s f) = SubScore.maxPoints s.
Proof. reflexivity. Qed.
Lemma maxPoints_set_score s v :
  SubScore.maxPoints (SubScore.set_score s v) = SubScore.maxPoints s.
Proof. reflexivity. Qed.
Lemma maxPoints_set_friction s ty n :
  SubScore.maxPoints (SubScore.set_friction s ty n) = SubScore.maxPoints s.
Proof. reflexivity. Qed.
Lemma score_sub n m v : SubScore.score (sub n m v) = v.
Proof. reflexivity. Qed.
Lemma maxPoints_sub n m v : SubScore.maxPoints (sub n m v) = m.
Proof. reflexivity. Qed.
Lemma score_sub_friction n m v : SubScore.score (sub_friction n m v) = v.
Proof. reflexivity. Qed.
Lemma maxPoints_sub_friction n m v : SubScore.maxPoints (sub_friction n m v) = m.
Proof. reflexivity. Qed.

Create Rewrite HintDb subscore.
#[export] Hint Rewrite score_push score_set_score score_set_friction
  maxPoints_push maxPoints_set_score maxPoints_set_friction
  score_sub maxPoints_sub score_sub_friction maxPoints_sub_friction : subscore.

(** An evaluator is a chain of [let]s. The tactic names each list of keywords
    found and each page test, forgets what they are, splits on the list being
    empty or not and on the test, and computes the sub-score in every case. *)
Ltac pull_lets :=
  repeat match goal with
         | |- ?Q (let x := ?t in @?b x) =>
             change (let x := t in Q (b x)); cbv beta;
             let y := fresh x in intro y
         end.

Ltac step :=
  first [ progress pull_lets
        | match goal with l := _ : list string |- _ => clearbody l; destruct l end
        | match goal with b := _ : bool |- _ => clearbody b; destruct b end
        | match goal with s := _ : SubScore.t |- _ => subst s end
        | match goal with |- context [has ?c ?k] => destruct (has c k) end
        | progress cbv beta iota delta [nonempty negb andb orb] ].

Ltac evaluator f :=
  cbv beta delta [f]; repeat step; vm_compute;
  first [ reflexivity | split; discriminate ].

Section RubricRange.

Variable c : Corpus.

Lemma disc_api_range : in_range (disc_api c).
Proof. evaluator disc_api. Qed.

Lemma disc_pricing_range : in_range (disc_pricing c).
Proof. evaluator disc_pricing. Qed.

Lemma disc_directories_range : in_range (disc_directories c).
Proof.
  unfold disc_directories, in_range.
  destruct (hasAny c _) as [| k l]; cbn [nonempty];
    autorewrite with subscore; cbn [length]; lia.
Qed.

Lemma disc_metadata_range probe : in_range (disc_metadata c probe).
Proof. destruct probe; evaluator disc_metadata. Qed.

Lemma purch_signup_range : in_range (purch_signup c).
Proof. evaluator purch_signup. Qed.

Lemma purch_captcha_range : in_range (purch_captcha c).
Proof. evaluator purch_captcha. Qed.

Lemma purch_billing_range : in_range (purch_billing c).
Proof. evaluator purch_billing. Qed.

Lemma purch_crypto_range : in_range (purch_crypto c).
Proof. evaluator purch_crypto. Qed.

Lemma purch_protocols_range : in_range (purch_protocols c).
Proof. evaluator purch_protocols. Qed.

Lemma int_mcp_range : in_range (int_mcp c).
Proof. evaluator int_mcp. Qed.

Lemma int_structured_range : in_range (int_structured c).
Proof. evaluator int_structured. Qed.

Lemma int_sandbox_range : in_range (int_sandbox c).
Proof. evaluator int_sandbox. Qed.

Lemma int_ratelimits_range : in_range (int_ratelimits c).
Proof. evaluator int_ratelimits. Qed.

Lemma trust_pricing_range : in_range (trust_pricing c).
Proof. evaluator trust_pricing. Qed.

Lemma trust_spend_range : in_range (trust_spend c).
Proof. evaluator trust_spend. Qed.

Lemma trust_sla_range : in_range (trust_sla c).
Proof. evaluator trust_sla. Qed.

Lemma trust_tos_range : in_range (trust_tos c).
Proof. evaluator trust_tos. Qed.

Lemma purch_signup_max : has_max 2 (purch_signup c).
Proof. evaluator purch_signup. Qed.


End RubricRange.

(** ** The shape of a result *)

Section Results.

Context {P : Platform}.

(** A run that returns, and what it returns. *)
Lemma returns_intro {A} (out : (Exn + A) * St) (Q : A -> St -> Prop) :
  match out with
  | (inr a, st) => Q a st
  | (inl _, _) => False
  end ->
  exists a st, out = (inr a, st) /\ Q a st.
Proof.
  destruct out as [[e | a] st]; [contradiction |].
  intros H. exists a, st. split; [reflexivity | exact H].
Qed.

Lemma bind_inr {A B} (m : M A) (k : A -> M B) st b st' :
  bind m k st = (inr b, st') ->
  exists a st1, m st = (inr a, st1) /\ k a st1 = (inr b, st').
Proof.
  unfold bind. destruct (m st) as [[e | a] st1]; intros H.
  - discriminate.
  - exists a, st1. split; [reflexivity | exact H].
Qed.

Lemma score_run_inv baseUrl st r st' :
  score_run baseUrl st = (inr r, st') ->
  exists fr st1 probe st2 uuid now,
    crawl (origin baseUrl) (Str.strip_www (hostname baseUrl)) st = (inr fr, st1)
    /\ probe_loop (origin baseUrl) OPENAPI_PATHS st1 = (inr probe, st2)
    /\ r = result_of baseUrl fr probe uuid now.
Proof.
  unfold score_run. intros H.
  apply bind_inr in H. destruct H as (fr & st1 & Hc & H).
  apply bind_inr in H. destruct H as (probe & st2 & Hp & H).
  apply bind_inr in H. destruct H as (uuid & st3 & _ & H).
  apply bind_inr in H. destruct H as (now & st4 & _ & H).
  unfold ret in H. injection H as <- _.
  exists fr, st1, probe, st2, uuid, now. repeat split; assumption.
Qed.

Lemma scoreUrl_inv inputUrl st r st' :
  scoreUrl inputUrl st = (inr r, st') ->
  exists baseUrl fr st1 probe st2 uuid now,
    normalize inputUrl = inr baseUrl
    /\ crawl (origin baseUrl) (Str.strip_www (hostname baseUrl)) st = (inr fr, st1)
    /\ probe_loop (origin baseUrl) OPENAPI_PATHS st1 = (inr probe, st2)
    /\ r = result_of baseUrl fr probe uuid now.
Proof.
  unfold scoreUrl. intros H.
  apply bind_inr in H. destruct H as (baseUrl & st0 & Hn & H).
  unfold lift in Hn. injection Hn as Hn <-.
  apply score_run_inv in H. destruct H as (fr & st1 & probe & st2 & uuid & now & H).
  exists baseUrl, fr, st1, probe, st2, uuid, now. tauto.
Qed.

End Results.

(** ** Aggregation: C1, C6, C7 *)

Section Aggregation.

Context {P : Platform}.

Lemma build_categories_subScores c probe :
  flat_map CategoryScore.subScores (build_categories c probe) =
  [ disc_api c; disc_pricing c; disc_directories c; disc_metadata c probe;
    purch_signup c; purch_captcha c; purch_billing c; purch_crypto c; purch_protocols c;
    int_mcp c; int_structured c; int_sandbox c; int_ratelimits c;
    trust_pricing c; trust_spend c; trust_sla c; trust_tos c ].
Proof. reflexivity. Qed.

Lemma all_evaluators_in_range c probe s :
  In s (flat_map CategoryScore.subScores (build_categories c probe)) -> in_range s.
Proof.
  rewrite build_categories_subScores. intros H.
  repeat (destruct H as [<- | H];
          [ auto using disc_api_range, disc_pricing_range, disc_directories_range,
              disc_metadata_range, purch_signup_range, purch_captcha_range,
              purch_billing_range, purch_crypto_range, purch_protocols_range,
              int_mcp_range, int_structured_range, int_sandbox_range,
              int_ratelimits_range, trust_pricing_range, trust_spend_range,
              trust_sla_range, trust_tos_range | ]).
  destruct H.
Qed.

Lemma subScores_score_category cat :
  CategoryScore.subScores (score_category cat) = CategoryScore.subScores cat.
Proof. reflexivity. Qed.

Lemma flat_map_subScores_scored cats :
  flat_map CategoryScore.subScores (map score_category cats) =
  flat_map CategoryScore.subScores cats.
Proof.
  induction cats as [| cat cats IH]; [reflexivity |].
  cbn [map flat_map]. rewrite IH. reflexivity.
Qed.

Lemma sum_subScores_shift l : forall a,
  fold_left (fun sum s => (sum + SubScore.score s)%Z) l a = (a + sum_subScores l)%Z.
Proof.
  unfold sum_subScores.
  induction l as [| s l IH]; intros a; cbn [fold_left].
  - lia.
  - rewrite (IH (a + SubScore.score s)%Z), (IH (0 + SubScore.score s)%Z). lia.
Qed.

Lemma sum_subScores_cons s l :
  sum_subScores (s :: l) = (SubScore.score s + sum_subScores l)%Z.
Proof.
  unfold sum_subScores at 1. cbn [fold_left]. rewrite sum_subScores_shift. lia.
Qed.

Lemma sum_subScores_bounds l :
  (forall s, In s l -> in_range s) ->
  (0 <= sum_subScores l
   <= fold_right (fun s acc => SubScore.maxPoints s + acc) 0 l)%Z.
Proof.
  induction l as [| s l IH]; intros H.
  - cbn. unfold sum_subScores. cbn. lia.
  - rewrite sum_subScores_cons. cbn [fold_right].
    assert (Hs : in_range s) by (apply H; left; reflexivity).
    assert (Hl := IH (fun s' Hs' => H s' (or_intror Hs'))).
    unfold in_range in Hs. lia.
Qed.

(** The score of a category once [score_category] has run. *)
Lemma score_category_spec cat :
  CategoryScore.score (score_category cat) =
  Z.min (CategoryScore.maxPoints cat) (sum_subScores (CategoryScore.subScores cat)).
Proof. reflexivity. Qed.

Lemma category_in_build c probe cat s :
  In cat (build_categories c probe) -> In s (CategoryScore.subScores cat) -> in_range s.
Proof.
  intros Hc Hs. apply (all_evaluators_in_range c probe).
  apply in_flat_map. exists cat. split; assumption.
Qed.

Lemma category_in_build_maxPoints c probe cat :
  In cat (build_categories c probe) -> CategoryScore.maxPoints cat = 10%Z.
Proof.
  unfold build_categories. intros H.
  repeat (destruct H as [<- | H]; [reflexivity |]). destruct H.
Qed.

Lemma scored_category_facts c probe cat :
  In cat (map score_category (build_categories c probe)) ->
  CategoryScore.maxPoints cat = 10%Z
  /\ CategoryScore.score cat = Z.min 10 (sum_subScores (CategoryScore.subScores cat))
  /\ (0 <= CategoryScore.score cat <= 10)%Z.
Proof.
  intros H. apply in_map_iff in H. destruct H as (cat0 & <- & Hin).
  pose proof (category_in_build_maxPoints c probe cat0 Hin) as Hm.
  pose proof (sum_subScores_bounds (CategoryScore.subScores cat0)
                (fun s Hs => category_in_build c probe cat0 s Hin Hs)) as Hb.
  rewrite score_category_spec, subScores_score_category.
  cbn [score_category CategoryScore.maxPoints]. rewrite Hm.
  repeat split; lia.
Qed.

Lemma sum_categories_four a b c d :
  sum_categories [a; b; c; d] =
  (CategoryScore.score a + CategoryScore.score b
   + CategoryScore.score c + CategoryScore.score d)%Z.
Proof. unfold sum_categories. cbn [fold_left]. lia. Qed.

Lemma categories_assemble c probe i u t cp e :
  categories (assemble c probe i u t cp e) = map score_category (build_categories c probe).
Proof. reflexivity. Qed.

Lemma totalScore_assemble c probe i u t cp e :
  totalScore (assemble c probe i u t cp e) =
  sum_categories (map score_category (build_categories c probe)).
Proof. reflexivity. Qed.

Lemma grade_assemble c probe i u t cp e :
  grade (assemble c probe i u t cp e) = gradeOf (totalScore (assemble c probe i u t cp e)).
Proof. reflexivity. Qed.

Lemma sum_subScores_spec l :
  sum_subScores l = fold_right Z.add 0%Z (map SubScore.score l).
Proof.
  induction l as [| s l IH]; [reflexivity |].
  rewrite sum_subScores_cons, IH. reflexivity.
Qed.

(** C1. For every scoring run that returns a result there are exactly four
    categories; the score of each is the smaller of 10 and the sum of the
    [score] fields of its sub-scores, and lies between 0 and 10;
    [totalScore] is the sum of the four category scores and lies between 0
    and 40. *)
Theorem category_and_total_scores inputUrl st r st' :
  scoreUrl inputUrl st = (inr r, st') ->
  exists d p i t,
    categories r = [d; p; i; t]
    /\ (forall cat, In cat [d; p; i; t] ->
          CategoryScore.score cat
          = Z.min 10 (fold_right Z.add 0%Z
                        (map SubScore.score (CategoryScore.subScores cat)))
          /\ (0 <= CategoryScore.score cat <= 10)%Z)
    /\ totalScore r = (CategoryScore.score d + CategoryScore.score p
                       + CategoryScore.score i + CategoryScore.score t)%Z
    /\ (0 <= totalScore r <= 40)%Z.
Proof.
  intros H. apply scoreUrl_inv in H.
  destruct H as (baseUrl & fr & st1 & probe & st2 & uuid & now & _ & _ & _ & ->).
  unfold result_of. set (c := corpus_of _ _).
  rewrite totalScore_assemble, categories_assemble.
  pose proof (scored_category_facts c probe) as F.
  remember (map score_category (build_categories c probe)) as cats eqn:E.
  unfold build_categories in E. cbn [map] in E.
  destruct cats as [| d [| p [| i [| t [| x cats]]]]]; try discriminate E.
  exists d, p, i, t. split; [reflexivity |].
  assert (Hall : forall cat, In cat [d; p; i; t] ->
            CategoryScore.score cat
            = Z.min 10 (fold_right Z.add 0%Z
                          (map SubScore.score (CategoryScore.subScores cat)))
            /\ (0 <= CategoryScore.score cat <= 10)%Z).
  { intros cat Hin. destruct (F cat Hin) as (_ & H1 & H2).
    rewrite <- sum_subScores_spec. split; assumption. }
  split; [exact Hall |].
  rewrite sum_categories_four. split; [reflexivity |].
  pose proof (Hall d (or_introl eq_refl)) as [_ Hd].
  pose proof (Hall p (or_intror (or_introl eq_refl))) as [_ Hp].
  pose proof (Hall i (or_intror (or_intror (or_introl eq_refl)))) as [_ Hi].
  pose proof (Hall t (or_intror (or_intror (or_intror (or_introl eq_refl))))) as [_ Ht].
  lia.
Qed.

(** C7. Every sub-score of a returned result has [0 <= score <= maxPoints],
    and the result holds the sub-scores of all seventeen evaluators. *)
Theorem subscores_within_maxPoints inputUrl st r st' :
  scoreUrl inputUrl st = (inr r, st') ->
  length (flat_map CategoryScore.subScores (categories r)) = 17%nat
  /\ forall cat s, In cat (categories r) -> In s (CategoryScore.subScores cat) ->
       (0 <= SubScore.score s <= SubScore.maxPoints s)%Z.
Proof.
  intros H. apply scoreUrl_inv in H.
  destruct H as (baseUrl & fr & st1 & probe & st2 & uuid & now & _ & _ & _ & ->).
  unfold result_of. rewrite categories_assemble. split.
  - rewrite flat_map_subScores_scored, build_categories_subScores. reflexivity.
  - intros cat s Hc Hs.
    apply (all_evaluators_in_range (corpus_of (origin baseUrl) (f_pages fr)) probe).
    rewrite <- flat_map_subScores_scored. apply in_flat_map. exists cat. split; assumption.
Qed.

Lemma gradeOf_boundaries (t : Z) :
  (gradeOf t = "A" <-> 35 <= t)%Z
  /\ (gradeOf t = "B" <-> 28 <= t < 35)%Z
  /\ (gradeOf t = "C" <-> 20 <= t < 28)%Z
  /\ (gradeOf t = "D" <-> 10 <= t < 20)%Z
  /\ (gradeOf t = "F" <-> t < 10)%Z.
Proof.
  unfold gradeOf.
  destruct (Z.geb_spec t 35); [| destruct (Z.geb_spec t 28);
    [| destruct (Z.geb_spec t 20); [| destruct (Z.geb_spec t 10)]]];
    repeat split; intros; try discriminate; try reflexivity; try lia.
Qed.

(** C6. The grade of a result is a function of its [totalScore] alone,
    [gradeOf], whose boundaries are exact: A from 35, B from 28 to 34, C
    from 20 to 27, D from 10 to 19, F below 10. *)
Theorem grade_is_function_of_totalScore inputUrl st r st' :
  scoreUrl inputUrl st = (inr r, st') ->
  grade r = gradeOf (totalScore r)
  /\ (grade r = "A" <-> 35 <= totalScore r)%Z
  /\ (grade r = "B" <-> 28 <= totalScore r < 35)%Z
  /\ (grade r = "C" <-> 20 <= totalScore r < 28)%Z
  /\ (grade r = "D" <-> 10 <= totalScore r < 20)%Z
  /\ (grade r = "F" <-> totalScore r < 10)%Z.
Proof.
  intros H. apply scoreUrl_inv in H.
  destruct H as (baseUrl & fr & st1 & probe & st2 & uuid & now & _ & _ & _ & ->).
  unfold result_of. rewrite grade_assemble.
  split; [reflexivity | apply gradeOf_boundaries].
Qed.

End Aggregation.

(** ** The signup evaluator: C3 *)

Lemma lower_ascii_idem a : Str.lower_ascii (Str.lower_ascii a) = Str.lower_ascii a.
Proof.
  destruct a as [[] [] [] [] [] [] [] []]; reflexivity.
Qed.

Lemma toLowerCase_idem s : Str.toLowerCase (Str.toLowerCase s) = Str.toLowerCase s.
Proof.
  induction s as [| a s IH]; [reflexivity |].
  cbn [Str.toLowerCase]. rewrite lower_ascii_idem, IH. reflexivity.
Qed.

Lemma nonempty_true {A} (l : list A) : nonempty l = true <-> l <> [].
Proof. destruct l; cbn; split; intros; congruence. Qed.

Lemma hasAny_contains c keywords :
  lowercase keywords -> (nonempty (hasAny c keywords) = true <-> contains c keywords).
Proof.
  intros L. unfold hasAny, textContains, contains. rewrite nonempty_true. split.
  - intros H. destruct (filter _ keywords) as [| k l] eqn:E; [congruence |].
    assert (Hk : In k (filter (fun k => Str.includes (Str.toLowerCase (allText c))
                                          (Str.toLowerCase k)) keywords))
      by (rewrite E; left; reflexivity).
    apply filter_In in Hk. destruct Hk as [Hin Hinc].
    exists k. split; [assumption |].
    rewrite (proj1 (Forall_forall _ _) L k Hin) in Hinc. exact Hinc.
  - intros (k & Hin & Hinc) E.
    assert (Hk : In k (filter (fun k => Str.includes (Str.toLowerCase (allText c))
                                          (Str.toLowerCase k)) keywords)).
    { apply filter_In. split; [assumption |].
      rewrite (proj1 (Forall_forall _ _) L k Hin). exact Hinc. }
    rewrite E in Hk. destruct Hk.
  Qed.


Lemma KYC_lowercase : lowercase KYC_KEYWORDS.
Proof. repeat constructor. Qed.
Lemma CONTACT_lowercase : lowercase CONTACT_SALES_SIGNUP_KEYWORDS.
Proof. repeat constructor. Qed.
Lemma SIGNUP_lowercase : lowercase SIGNUP_KEYWORDS.
Proof. repeat constructor. Qed.



(** ** The probe of the machine-readable spec: C8 *)

Lemma attempts_app cs1 cs2 u :
  attempts (cs1 ++ cs2)%list u = (attempts cs1 u + attempts cs2 u)%nat.
Proof. unfold attempts. rewrite filter_app, length_app. reflexivity. Qed.

Lemma attempts_le_length cs u : (attempts cs u <= length cs)%nat.
Proof. unfold attempts. apply filter_length_le. Qed.

Lemma attempts_other cs u :
  (forall c, In c cs -> c_url c <> u) -> attempts cs u = 0%nat.
Proof.
  unfold attempts. induction cs as [| c cs IH]; intros H; [reflexivity |].
  cbn [filter]. destruct (String.eqb_spec (c_url c) u) as [E | _].
  - exfalso. exact (H c (or_introl eq_refl) E).
  - apply IH. intros c' Hc'. apply H. right. exact Hc'.
Qed.

Lemma append_inj_l (a p q : string) : a ++ p = a ++ q -> p = q.
Proof.
  induction a as [| x a IH]; cbn; intros H; [exact H |].
  injection H as H. exact (IH H).
Qed.

Section Probe.

Context {P : Platform}.

(** [fetchPage] always returns; it calls [fetch] at most [attempts] times,
    each time with its own URL and timeout; every call has failed but the
    one whose response it returns, and a response it returns is the outcome
    of one of its calls. *)
Lemma fetchPage_loop_spec n u t : forall st,
  exists r st' new,
    fetchPage_loop n u t st = (inr r, st')
    /\ calls st' = (calls st ++ new)%list
    /\ (length new <= n)%nat
    /\ (forall k, In k new ->
          c_url k = u /\ c_timeout k = t /\ (c_result k = None \/ c_result k = r))
    /\ (r <> None -> exists k, In k new /\ c_result k = r).
Proof.
  induction n as [| n IH]; intros st.
  - exists None, st, []. cbn. rewrite app_nil_r.
    split; [reflexivity |]. split; [reflexivity |]. split; [lia |].
    split; [intros k [] | intros Hr; congruence].
  - cbn [fetchPage_loop]. unfold bind, fetch_call.
    destruct (fetch u t (world st)) as [[resp |] w] eqn:E.
    + exists (Some resp),
        {| world := w;
           calls := (calls st ++ [{| c_url := u; c_timeout := t;
                                     c_result := Some resp |}])%list |},
        [{| c_url := u; c_timeout := t; c_result := Some resp |}].
      cbn. split; [reflexivity |]. split; [reflexivity |]. split; [lia |].
      split.
      * intros k [<- | []]. cbn. auto.
      * intros _. eexists. split; [left; reflexivity | reflexivity].
    + destruct (IH {| world := w;
                      calls := (calls st ++ [{| c_url := u; c_timeout := t;
                                                c_result := None |}])%list |})
        as (r & st' & new & Hrun & Hcalls & Hlen & Hall & Hret).
      exists r, st', ({| c_url := u; c_timeout := t; c_result := None |} :: new).
      split; [exact Hrun |]. split.
      * rewrite Hcalls. cbn [calls]. rewrite <- app_assoc. reflexivity.
      * split; [cbn; lia |]. split.
        -- intros k [<- | Hk]; [cbn; auto | apply Hall; exact Hk].
        -- intros Hr. destruct (Hret Hr) as (k & Hk & Hres).
           exists k. split; [right; exact Hk | exact Hres].
Qed.

Lemma fetchPage_spec u t retries st :
  exists r st' new,
    fetchPage u t retries st = (inr r, st')
    /\ calls st' = (calls st ++ new)%list
    /\ (length new <= S retries)%nat
    /\ (forall k, In k new ->
          c_url k = u /\ c_timeout k = t /\ (c_result k = None \/ c_result k = r))
    /\ (r <> None -> exists k, In k new /\ c_result k = r).
Proof. apply fetchPage_loop_spec. Qed.

Lemma is_spec_not_None r : is_spec r = true -> r <> None.
Proof. destruct r; cbn; congruence. Qed.

(** The probe loop always returns. Each of its calls has the probe timeout
    and goes to one of the paths on the origin; no path is tried more than
    three times; it reports a path exactly when one of its calls brought
    back a spec, and the path it reports is where that call went. *)
Lemma probe_loop_spec origin_ paths : forall st,
  exists probe st' new,
    probe_loop origin_ paths st = (inr probe, st')
    /\ calls st' = (calls st ++ new)%list
    /\ (forall k, In k new ->
          c_timeout k = PROBE_TIMEOUT
          /\ exists p, In p paths /\ c_url k = origin_ ++ p)
    /\ (NoDup paths -> forall p, (attempts new (origin_ ++ p) <= 3)%nat)
    /\ ((exists k, In k new /\ is_spec (c_result k) = true) <-> probe <> None).
Proof.
  induction paths as [| p paths IH]; intros st.
  - exists None, st, []. cbn. rewrite app_nil_r.
    split; [reflexivity |]. split; [reflexivity |]. split; [intros k [] |].
    split; [intros _ q; lia |].
    split; [intros (k & [] & _) | intros H; congruence].
  - cbn [probe_loop]. unfold bind.
    destruct (fetchPage_spec (origin_ ++ p) PROBE_TIMEOUT DEFAULT_RETRIES st)
      as (r & st1 & new1 & Hf & Hc1 & Hlen1 & Hall1 & Hret1).
    rewrite Hf.
    assert (Hnospec : is_spec r = false ->
              forall k, In k new1 -> is_spec (c_result k) = false).
    { intros Hr k Hk. destruct (Hall1 k Hk) as (_ & _ & [-> | ->]); [reflexivity | exact Hr]. }
    destruct (is_spec r) eqn:Hr.
    + exists (Some p), st1, new1. unfold ret.
      split; [reflexivity |]. split; [exact Hc1 |].
      split.
      { intros k Hk. destruct (Hall1 k Hk) as (Hu & Ht & _).
        split; [exact Ht |]. exists p. split; [left; reflexivity | exact Hu]. }
      split.
      { intros _ q. etransitivity; [apply attempts_le_length |].
        unfold DEFAULT_RETRIES in Hlen1. lia. }
      split; [congruence |].
      intros _. destruct (Hret1 (is_spec_not_None r Hr)) as (k & Hk & Hres).
      exists k. split; [exact Hk |]. rewrite Hres. exact Hr.
    + destruct (IH st1) as (probe & st2 & new2 & Hp & Hc2 & Hall2 & Hcount & Hiff).
      exists probe, st2, (new1 ++ new2)%list.
      split; [exact Hp |].
      split; [rewrite Hc2, Hc1, app_assoc; reflexivity |].
      split.
      { intros k Hk. apply in_app_or in Hk. destruct Hk as [Hk | Hk].
        - destruct (Hall1 k Hk) as (Hu & Ht & _).
          split; [exact Ht |]. exists p. split; [left; reflexivity | exact Hu].
        - destruct (Hall2 k Hk) as (Ht & q & Hq & Hu).
          split; [exact Ht |]. exists q. split; [right; exact Hq | exact Hu]. }
      split.
      { intros Hnd q. inversion Hnd as [| ? ? Hnotin Hnd']; subst.
        rewrite attempts_app.
        destruct (string_dec q p) as [-> | Hne].
        - rewrite (attempts_other new2).
          + pose proof (attempts_le_length new1 (origin_ ++ p)).
            unfold DEFAULT_RETRIES in Hlen1. lia.
          + intros k Hk E. destruct (Hall2 k Hk) as (_ & q' & Hq' & Hu).
            rewrite Hu in E. apply append_inj_l in E. subst q'. contradiction.
        - rewrite (attempts_other new1).
          + apply (Hcount Hnd' q).
          + intros k Hk E. destruct (Hall1 k Hk) as (Hu & _).
            rewrite Hu in E. apply append_inj_l in E. congruence. }
      rewrite <- Hiff. split.
      * intros (k & Hk & Hs). apply in_app_or in Hk. destruct Hk as [Hk | Hk].
        -- rewrite (Hnospec eq_refl k Hk) in Hs. discriminate.
        -- exists k. split; assumption.
      * intros (k & Hk & Hs). exists k. split; [apply in_or_app; right; exact Hk | exact Hs].
Qed.

End Probe.

(** ** The crawl frontier *)

Lemma PageMap_set_size m k v :
  PageMap.size (PageMap.set m k v) =
  if PageMap.has m k then PageMap.size m else S (PageMap.size m).
Proof.
  unfold PageMap.size. induction m as [| [k' v'] m IH]; [reflexivity |].
  cbn [PageMap.set PageMap.has]. destruct (String.eqb k' k); cbn [orb length].
  - reflexivity.
  - rewrite IH. destruct (PageMap.has m k); reflexivity.
Qed.

Lemma PageMap_set_size_bounds m k v :
  (PageMap.size m <= PageMap.size (PageMap.set m k v) <= S (PageMap.size m))%nat
  /\ (1 <= PageMap.size (PageMap.set m k v))%nat.
Proof.
  rewrite PageMap_set_size. destruct (PageMap.has m k) eqn:E; [| lia].
  destruct m; [discriminate E | cbn; lia].
Qed.

Section Frontier.

Context {P : Platform}.

Lemma consistent_record st key body fullUrl :
  consistent st -> consistent (record_page st key body fullUrl).
Proof.
  intros [Hle Hiff]. unfold consistent, record_page. cbn [f_pages f_crawledPages].
  pose proof (PageMap_set_size_bounds (f_pages st) key body) as [[_ Hup] Hpos].
  rewrite length_app. cbn [length]. split; [lia |].
  split; intros H.
  - rewrite H in Hpos. cbn in Hpos. lia.
  - apply (f_equal (@length string)) in H. rewrite length_app in H. cbn in H. lia.
Qed.

Lemma mapM_total {A B} (f : A -> M B) (g : A -> B -> Prop) (l : list A) :
  (forall a st, exists b st', f a st = (inr b, st') /\ g a b) ->
  forall st, exists bs st', mapM f l st = (inr bs, st') /\ Forall2 g l bs.
Proof.
  intros Hf. induction l as [| a l IH]; intros st.
  - exists [], st. split; [reflexivity | constructor].
  - cbn [mapM]. unfold bind.
    destruct (Hf a st) as (b & st1 & Hb & Hg). rewrite Hb.
    destruct (IH st1) as (bs & st2 & Hbs & Hall). rewrite Hbs.
    exists (b :: bs), st2. split; [reflexivity | constructor; assumption].
Qed.

(** A batch of fetches always returns, with one entry per URL. *)
Lemma fetch_batch_total batch st :
  exists results st', fetch_batch batch st = (inr results, st')
                      /\ map fst results = batch.
Proof.
  destruct (mapM_total
              (fun fullUrl => bind (fetchPage fullUrl DEFAULT_TIMEOUT DEFAULT_RETRIES)
                                   (fun result => ret (fullUrl, result)))
              (fun a b => fst b = a) batch) with (st := st)
    as (results & st' & Hrun & Hall).
  - intros a s. unfold bind.
    destruct (fetchPage_spec a DEFAULT_TIMEOUT DEFAULT_RETRIES s)
      as (r & s' & new & Hf & _).
    rewrite Hf. exists (a, r), s'. split; reflexivity.
  - exists results, st'. split; [exact Hrun |].
    clear Hrun. induction Hall as [| a b l bs Hab _ IH]; [reflexivity |].
    cbn [map]. rewrite Hab, IH. reflexivity.
Qed.

Lemma phase1_results_bound origin_ results : forall st st',
  phase1_results origin_ results st = inr st' ->
  consistent st ->
  consistent st'
  /\ (length (f_crawledPages st') <= length (f_crawledPages st) + length results)%nat
  /\ (length (f_crawledPages st) <= length (f_crawledPages st'))%nat
  /\ f_visited st' = f_visited st.
Proof.
  induction results as [| [fullUrl result] results IH]; intros st st' H Hc.
  - cbn in H. injection H as <-. repeat split; try apply Hc; lia.
  - cbn [phase1_results] in H. destruct (usable result) as [r |].
    + destruct (phase1_key origin_ fullUrl) as [e | key]; [discriminate |].
      destruct (IH _ _ H (consistent_record st key (html r) fullUrl Hc))
        as (Hc' & Hlen & Hmono & Hv).
      unfold record_page in Hlen, Hmono, Hv. cbn [f_crawledPages f_visited] in *.
      rewrite length_app in Hlen, Hmono. cbn [length] in *.
      repeat split; try apply Hc'; try lia. exact Hv.
    + destruct (IH _ _ H Hc) as (Hc' & Hlen & Hmono & Hv).
      cbn [length]. repeat split; try apply Hc'; try lia. exact Hv.
Qed.

Lemma phase1_loop_bound origin_ bs : forall st s st' s',
  phase1_loop origin_ bs st s = (inr st', s') ->
  consistent st ->
  consistent st'
  /\ (length (f_crawledPages st') <= length (f_crawledPages st) + length (concat bs))%nat
  /\ f_visited st' = f_visited st.
Proof.
  induction bs as [| batch bs IH]; intros st s st' s' H Hc.
  - cbn in H. unfold ret in H. injection H as <- _.
    repeat split; try apply Hc; lia.
  - cbn [phase1_loop] in H.
    apply bind_inr in H. destruct H as (results & s1 & Hb & H).
    apply bind_inr in H. destruct H as (st1 & s2 & Hr & H).
    unfold lift in Hr. injection Hr as Hr <-.
    destruct (fetch_batch_total batch s) as (results' & s1' & Hb' & Hfst).
    rewrite Hb in Hb'. injection Hb' as <- <-.
    destruct (phase1_results_bound _ _ _ _ Hr Hc) as (Hc1 & Hlen1 & _ & Hv1).
    destruct (IH _ _ _ _ H Hc1) as (Hc' & Hlen & Hv).
    cbn [concat]. rewrite length_app.
    assert (length results = length batch)
      by (rewrite <- Hfst; symmetry; apply length_map).
    repeat split; try apply Hc'; try lia. congruence.
Qed.

Lemma batches_aux_concat {A} fuel : forall l : list A,
  (length l <= fuel)%nat -> concat (batches_aux fuel l) = l.
Proof.
  induction fuel as [| fuel IH]; intros l Hl.
  - destruct l; [reflexivity | cbn in Hl; lia].
  - destruct l as [| a l]; [reflexivity |].
    cbn [batches_aux concat]. rewrite IH.
    + apply firstn_skipn.
    + rewrite length_skipn. unfold BATCH_SIZE. cbn [length] in *. lia.
Qed.

(** The batches cover the list, in order: the loop drops no URL. *)
Lemma batches_concat {A} (l : list A) : concat (batches l) = l.
Proof. apply batches_aux_concat. lia. Qed.

Lemma filter_unvisited_length l : forall visited,
  (length (fst (filter_unvisited l visited)) <= length l)%nat.
Proof.
  induction l as [| u l IH]; intros visited; [cbn; lia |].
  cbn [filter_unvisited]. destruct (set_has visited u).
  - specialize (IH visited). cbn [length]. lia.
  - specialize (IH (visited ++ [u])%list).
    destruct (filter_unvisited l (visited ++ [u])%list). cbn [fst length] in *. lia.
Qed.

Lemma allSeeds_length origin_ baseDomain : length (allSeeds origin_ baseDomain) = 28%nat.
Proof. unfold allSeeds. rewrite length_app, !length_map. reflexivity. Qed.

Lemma consistent_empty visited : consistent (empty_frontier visited).
Proof. unfold consistent. cbn. split; [lia | tauto]. Qed.

(** Phase 1 fetches at most the 28 seeds. *)
Lemma phase1_bound origin_ baseDomain s st1 s1 :
  phase1 origin_ baseDomain s = (inr st1, s1) ->
  consistent st1 /\ (length (f_crawledPages st1) <= 28)%nat.
Proof.
  unfold phase1. intros H.
  pose proof (filter_unvisited_length (allSeeds origin_ baseDomain) []) as Hlen.
  destruct (filter_unvisited (allSeeds origin_ baseDomain) []) as [uniqueSeeds visited].
  cbn [fst] in Hlen. rewrite allSeeds_length in Hlen.
  destruct (phase1_loop_bound _ _ _ _ _ _ H (consistent_empty visited))
    as (Hc & Hl & _).
  rewrite batches_concat in Hl. cbn [f_crawledPages length] in Hl.
  split; [exact Hc | lia].
Qed.

Lemma at_cap_false st :
  at_cap st = false -> (PageMap.size (f_pages st) < 30)%nat.
Proof. unfold at_cap, MAX_CRAWL_PAGES. intros H. lia. Qed.

Lemma phase3_results_bound results : forall st st',
  phase3_results results st = inr st' ->
  consistent st -> (PageMap.size (f_pages st) <= 30)%nat ->
  consistent st' /\ (PageMap.size (f_pages st') <= 30)%nat
  /\ (length (f_crawledPages st') <= length (f_crawledPages st) + length results)%nat.
Proof.
  induction results as [| [url_ result] results IH]; intros st st' H Hc Hsz.
  - cbn in H. injection H as <-. repeat split; try apply Hc; lia.
  - cbn [phase3_results] in H. destruct (at_cap st) eqn:Hcap.
    + injection H as <-. cbn [length]. repeat split; try apply Hc; lia.
    + apply at_cap_false in Hcap. destruct (usable result) as [r |].
      * destruct (newURL url_) as [u |]; [| discriminate].
        pose proof (PageMap_set_size_bounds (f_pages st) (pathname u) (html r))
          as [[_ Hup] _].
        destruct (IH _ _ H (consistent_record st (pathname u) (html r) url_ Hc))
          as (Hc' & Hsz' & Hlen).
        { unfold record_page. cbn [f_pages]. lia. }
        unfold record_page in Hlen. cbn [f_crawledPages] in Hlen.
        rewrite length_app in Hlen. cbn [length] in *.
        repeat split; try apply Hc'; lia.
      * destruct (IH _ _ H Hc Hsz) as (Hc' & Hsz' & Hlen).
        cbn [length]. repeat split; try apply Hc'; lia.
Qed.

Lemma phase3_loop_bound bs : forall st s st' s',
  phase3_loop bs st s = (inr st', s') ->
  consistent st -> (PageMap.size (f_pages st) <= 30)%nat ->
  consistent st' /\ (PageMap.size (f_pages st') <= 30)%nat
  /\ (length (f_crawledPages st') <= length (f_crawledPages st) + length (concat bs))%nat.
Proof.
  induction bs as [| batch bs IH]; intros st s st' s' H Hc Hsz.
  - cbn in H. unfold ret in H. injection H as <- _.
    repeat split; try apply Hc; lia.
  - cbn [phase3_loop] in H. destruct (at_cap st).
    + unfold ret in H. injection H as <- _. repeat split; try apply Hc; lia.
    + apply bind_inr in H. destruct H as (results & s1 & Hb & H).
      apply bind_inr in H. destruct H as (st1 & s2 & Hr & H).
      unfold lift in Hr. injection Hr as Hr <-.
      destruct (fetch_batch_total batch s) as (results' & s1' & Hb' & Hfst).
      rewrite Hb in Hb'. injection Hb' as <- <-.
      destruct (phase3_results_bound _ _ _ Hr) as (Hc1 & Hsz1 & Hlen1).
      { exact Hc. }
      { exact Hsz. }
      destruct (IH _ _ _ _ H Hc1 Hsz1) as (Hc' & Hsz' & Hlen).
      cbn [concat f_crawledPages] in *. rewrite length_app.
      assert (length results = length batch)
        by (rewrite <- Hfst; symmetry; apply length_map).
      repeat split; try apply Hc'; lia.
Qed.

Lemma slice0_length {A} (l : list A) (e : Z) :
  (0 <= e)%Z -> (length (slice0 l e) <= Z.to_nat e)%nat.
Proof.
  intros He. unfold slice0. destruct (Z.ltb_spec e 0); [lia |].
  rewrite length_firstn. lia.
Qed.

(** The candidates of Phase 3 fill what Phase 1 left of the page map. *)
Lemma uniqueDiscovered_length origin_ baseDomain st :
  (PageMap.size (f_pages st) <= 30)%nat ->
  (length (uniqueDiscovered origin_ baseDomain st) + PageMap.size (f_pages st) <= 30)%nat.
Proof.
  intros H. unfold uniqueDiscovered, MAX_CRAWL_PAGES.
  pose proof (slice0_length (dedupe (discoveredUrls origin_ baseDomain st))
                (30 - Z.of_nat (PageMap.size (f_pages st)))) as Hs.
  lia.
Qed.

(** What the crawl guarantees in every run: the page map never holds more
    than 30 pages, Phase 1 fetches at most 28, and the crawled pages exceed
    30 by no more than the number of Phase-1 pages that were stored under a
    key already in use. *)
Lemma crawl_bounds origin_ baseDomain s fr s' :
  crawl origin_ baseDomain s = (inr fr, s') ->
  exists fr1 s1,
    phase1 origin_ baseDomain s = (inr fr1, s1)
    /\ consistent fr
    /\ (PageMap.size (f_pages fr) <= 30)%nat
    /\ (PageMap.size (f_pages fr1) <= length (f_crawledPages fr1) <= 28)%nat
    /\ (length (f_crawledPages fr) + PageMap.size (f_pages fr1)
        <= length (f_crawledPages fr1) + 30)%nat.
Proof.
  unfold crawl. intros H.
  apply bind_inr in H. destruct H as (fr1 & s1 & H1 & H3).
  exists fr1, s1. split; [exact H1 |].
  destruct (phase1_bound _ _ _ _ _ H1) as (Hc1 & Hlen1).
  pose proof Hc1 as [Hle1 _].
  destruct (phase3_loop_bound _ _ _ _ _ H3 Hc1) as (Hc & Hsz & Hlen); [lia |].
  rewrite batches_concat in Hlen.
  pose proof (uniqueDiscovered_length origin_ baseDomain fr1).
  split; [exact Hc |]. lia.
Qed.

(** While Phase 1 stores every page it fetches under a key of its own, the
    crawled pages stay within the cap. *)
Corollary crawl_within_cap_when_keys_distinct origin_ baseDomain s fr s' fr1 s1 :
  crawl origin_ baseDomain s = (inr fr, s') ->
  phase1 origin_ baseDomain s = (inr fr1, s1) ->
  PageMap.size (f_pages fr1) = length (f_crawledPages fr1) ->
  (length (f_crawledPages fr) <= 30)%nat.
Proof.
  intros Hc H1 Hk.
  destruct (crawl_bounds _ _ _ _ _ Hc) as (fr1' & s1' & H1' & _ & _ & _ & Hb).
  rewrite H1 in H1'. injection H1' as <- <-. lia.
Qed.

End Frontier.

(** ** A crawl that fetches nothing: C4 *)

Section ZeroPages.

Context {P : Platform}.

(** The corpus of an empty page map. *)
Lemma corpus_of_empty origin_ :
  corpus_of origin_ [] = {| pages := []; allText := EmptyString; allLinksText := EmptyString |}.
Proof. reflexivity. Qed.

(** On an empty corpus every evaluator gives 0, except the CAPTCHA one,
    which keeps the 2 points it starts from, and the spec probe, which gives
    2 when it found a spec. *)
Lemma empty_corpus_scores probe :
  map CategoryScore.score (map score_category (build_categories empty_corpus probe))
  = [ probe_points probe; 2; 0; 0 ]%Z.
Proof. destruct probe; reflexivity. Qed.

Lemma empty_corpus_subscores probe :
  map SubScore.score
      (flat_map CategoryScore.subScores (build_categories empty_corpus probe))
  = [ 0; 0; 0; probe_points probe;  0; 2; 0; 0; 0;  0; 0; 0; 0;  0; 0; 0; 0 ]%Z.
Proof. destruct probe; reflexivity. Qed.

Lemma sum_categories_scores cats :
  sum_categories cats = fold_left Z.add (map CategoryScore.score cats) 0%Z.
Proof.
  unfold sum_categories. generalize 0%Z.
  induction cats as [| cat cats IH]; intros a; [reflexivity |].
  cbn [fold_left map]. apply IH.
Qed.

Lemma score_run_returns baseUrl st fr st1 :
  crawl (origin baseUrl) (Str.strip_www (hostname baseUrl)) st = (inr fr, st1) ->
  exists probe st2 uuid now st',
    probe_loop (origin baseUrl) OPENAPI_PATHS st1 = (inr probe, st2)
    /\ score_run baseUrl st = (inr (result_of baseUrl fr probe uuid now), st').
Proof.
  intros Hc. unfold score_run, bind. rewrite Hc.
  destruct (probe_loop_spec (origin baseUrl) OPENAPI_PATHS st1)
    as (probe & st2 & new & Hp & _).
  rewrite Hp.
  destruct (randomUUID (world st2)) as [uuid w3] eqn:Eu.
  destruct (nowISOString w3) as [now w4] eqn:En.
  exists probe, st2, uuid, now, {| world := w4; calls := calls st2 |}.
  split; [reflexivity |]. cbn [world calls]. rewrite En. reflexivity.
Qed.

Lemma scoreUrl_returns inputUrl baseUrl st fr st1 :
  normalize inputUrl = inr baseUrl ->
  crawl (origin baseUrl) (Str.strip_www (hostname baseUrl)) st = (inr fr, st1) ->
  exists probe st2 uuid now st',
    probe_loop (origin baseUrl) OPENAPI_PATHS st1 = (inr probe, st2)
    /\ scoreUrl inputUrl st = (inr (result_of baseUrl fr probe uuid now), st').
Proof.
  intros Hn Hc. unfold scoreUrl, bind, lift. rewrite Hn.
  apply score_run_returns. exact Hc.
Qed.

Lemma result_of_no_pages baseUrl fr probe uuid now :
  f_pages fr = [] ->
  let r := result_of baseUrl fr probe uuid now in
  errors r = [NO_PAGES]
  /\ map CategoryScore.score (categories r) = [ probe_points probe; 2; 0; 0 ]%Z
  /\ totalScore r = (2 + probe_points probe)%Z.
Proof.
  intros Hp r. subst r. unfold result_of. rewrite Hp. cbn [PageMap.size length Nat.eqb].
  rewrite corpus_of_empty. fold empty_corpus.
  split; [reflexivity |].
  rewrite totalScore_assemble, categories_assemble, sum_categories_scores.
  rewrite empty_corpus_scores. split; [reflexivity |]. destruct probe; reflexivity.
Qed.

Lemma result_of_errors baseUrl fr probe uuid now :
  errors (result_of baseUrl fr probe uuid now) <> [] -> f_pages fr = [].
Proof.
  unfold result_of, assemble. cbn [errors]. unfold PageMap.size.
  destruct (f_pages fr); [reflexivity | cbn; congruence].
Qed.

(** *** A network without a usable answer *)

Variable Inv : World -> Prop.
Hypothesis Hnet : never_usable Inv.

Lemma fetchPage_loop_unusable n u t : forall st,
  Inv (world st) ->
  exists r st', fetchPage_loop n u t st = (inr r, st')
                /\ Inv (world st') /\ usable r = None.
Proof.
  induction n as [| n IH]; intros st Hst.
  - exists None, st. repeat split; assumption.
  - cbn [fetchPage_loop]. unfold bind, fetch_call.
    destruct (Hnet (world st) u t Hst) as [Hi Hu].
    destruct (fetch u t (world st)) as [[resp |] w]; cbn [fst snd] in *.
    + eexists (Some resp), _. split; [reflexivity |]. split; [exact Hi | exact Hu].
    + apply IH. exact Hi.
Qed.

Lemma fetch_batch_unusable batch : forall st,
  Inv (world st) ->
  exists results st', fetch_batch batch st = (inr results, st')
                      /\ Inv (world st')
                      /\ Forall (fun x => usable (snd x) = None) results.
Proof.
  unfold fetch_batch. induction batch as [| u batch IH]; intros st Hst.
  - exists [], st. repeat split; [assumption | constructor].
  - cbn [mapM]. unfold bind at 1 2.
    destruct (fetchPage_loop_unusable (S DEFAULT_RETRIES) u DEFAULT_TIMEOUT st Hst)
      as (r & st1 & Hf & Hi1 & Hu).
    unfold fetchPage. rewrite Hf. unfold ret at 1.
    unfold bind at 1.
    destruct (IH st1 Hi1) as (results & st2 & Hb & Hi2 & Hall).
    unfold fetchPage in Hb. rewrite Hb.
    exists ((u, r) :: results), st2.
    split; [reflexivity |]. split; [exact Hi2 |]. constructor; assumption.
Qed.

Lemma phase1_results_unusable origin_ results st :
  Forall (fun x => usable (snd x) = None) results ->
  phase1_results origin_ results st = inr st.
Proof.
  induction 1 as [| [u r] results Hu _ IH]; [reflexivity |].
  cbn [phase1_results]. cbn [snd] in Hu. rewrite Hu. exact IH.
Qed.

Lemma phase1_loop_unusable origin_ bs fr : forall st,
  Inv (world st) ->
  exists st', phase1_loop origin_ bs fr st = (inr fr, st') /\ Inv (world st').
Proof.
  induction bs as [| batch bs IH]; intros st Hst.
  - exists st. split; [reflexivity | assumption].
  - cbn [phase1_loop]. unfold bind at 1.
    destruct (fetch_batch_unusable batch st Hst) as (results & st1 & Hb & Hi1 & Hall).
    rewrite Hb. unfold bind, lift.
    rewrite (phase1_results_unusable origin_ results fr Hall).
    apply IH. exact Hi1.
Qed.

Lemma crawl_unusable origin_ baseDomain st :
  Inv (world st) ->
  exists fr st', crawl origin_ baseDomain st = (inr fr, st')
                 /\ f_pages fr = [] /\ f_crawledPages fr = [] /\ Inv (world st').
Proof.
  intros Hst. unfold crawl, phase1, bind.
  destruct (filter_unvisited (allSeeds origin_ baseDomain) []) as [uniqueSeeds visited].
  destruct (phase1_loop_unusable origin_ (batches uniqueSeeds)
              {| f_pages := []; f_crawledPages := []; f_visited := visited |} st Hst)
    as (st1 & H1 & Hi1).
  rewrite H1.
  exists {| f_pages := []; f_crawledPages := []; f_visited := visited |}, st1.
  split; [reflexivity |]. repeat split. exact Hi1.
Qed.

Lemma usable_None_not_spec r : usable r = None -> is_spec r = false.
Proof.
  unfold usable, is_spec. destruct r as [resp |]; [| reflexivity].
  destruct (Z.ltb_spec (status resp) 400); [discriminate |].
  intros _. destruct (Z.eqb_spec (status resp) 200); [lia | reflexivity].
Qed.

Lemma probe_loop_unusable origin_ paths : forall st,
  Inv (world st) ->
  exists st', probe_loop origin_ paths st = (inr None, st') /\ Inv (world st').
Proof.
  induction paths as [| p paths IH]; intros st Hst.
  - exists st. split; [reflexivity | assumption].
  - cbn [probe_loop]. unfold bind.
    destruct (fetchPage_loop_unusable (S DEFAULT_RETRIES) (origin_ ++ p) PROBE_TIMEOUT st Hst)
      as (r & st1 & Hf & Hi1 & Hu).
    unfold fetchPage. rewrite Hf. rewrite (usable_None_not_spec r Hu).
    apply IH. exact Hi1.
Qed.

(** On such a network every input that normalises is scored, and scored 2. *)
Lemma scoreUrl_unusable inputUrl baseUrl st :
  normalize inputUrl = inr baseUrl -> Inv (world st) ->
  exists r st', scoreUrl inputUrl st = (inr r, st')
                /\ errors r = [NO_PAGES] /\ crawledPages r = []
                /\ map CategoryScore.score (categories r) = [0; 2; 0; 0]%Z
                /\ totalScore r = 2%Z.
Proof.
  intros Hn Hst.
  destruct (crawl_unusable (origin baseUrl) (Str.strip_www (hostname baseUrl)) st Hst)
    as (fr & st1 & Hc & Hp & Hcp & Hi1).
  destruct (scoreUrl_returns inputUrl baseUrl st fr st1 Hn Hc)
    as (probe & st2 & uuid & now & st' & Hprobe & Hrun).
  destruct (probe_loop_unusable (origin baseUrl) OPENAPI_PATHS st1 Hi1) as (st2' & Hp' & _).
  rewrite Hprobe in Hp'. injection Hp' as -> _.
  exists (result_of baseUrl fr None uuid now), st'.
  split; [exact Hrun |].
  destruct (result_of_no_pages baseUrl fr None uuid now Hp) as (He & Hs & Ht).
  repeat split; try assumption.
Qed.

End ZeroPages.

Section ZeroPagesClaim.

Context {P : Platform}.

(** C4, as the code has it. When the crawl fetches no page, [scoreUrl]
    still returns a result; its [errors] are the one message
    [Could not fetch any pages from this URL]; INTEGRATION and TRUST score
    0, PURCHASE scores 2 (the CAPTCHA sub-score keeps the 2 points it starts
    from) and DISCOVERY scores 2 when the probe of the spec paths succeeds
    and 0 otherwise, so [totalScore] is 2 or 4. Conversely [errors] is
    non-empty only when no page was fetched. On a network that never gives
    a usable answer the crawl does end that way, and the total is 2. *)
Theorem zero_pages_soft_error inputUrl st :
  (forall baseUrl fr st1,
      normalize inputUrl = inr baseUrl ->
      crawl (origin baseUrl) (Str.strip_www (hostname baseUrl)) st = (inr fr, st1) ->
      f_crawledPages fr = [] ->
      exists r st' probe st2,
        scoreUrl inputUrl st = (inr r, st')
        /\ probe_loop (origin baseUrl) OPENAPI_PATHS st1 = (inr probe, st2)
        /\ errors r = [NO_PAGES] /\ crawledPages r = []
        /\ map CategoryScore.score (categories r) = [probe_points probe; 2; 0; 0]%Z
        /\ totalScore r = (2 + probe_points probe)%Z)
  /\ (forall r st',
        scoreUrl inputUrl st = (inr r, st') -> errors r <> [] ->
        crawledPages r = [] /\ errors r = [NO_PAGES])
  /\ (forall (Inv : World -> Prop) baseUrl,
        never_usable Inv -> Inv (world st) -> normalize inputUrl = inr baseUrl ->
        exists r st',
          scoreUrl inputUrl st = (inr r, st')
          /\ errors r = [NO_PAGES] /\ crawledPages r = []
          /\ map CategoryScore.score (categories r) = [0; 2; 0; 0]%Z
          /\ totalScore r = 2%Z).
Proof.
  split; [| split].
  - intros baseUrl fr st1 Hn Hc Hcp.
    destruct (crawl_bounds _ _ _ _ _ Hc) as (_ & _ & _ & [_ Hiff] & _).
    apply Hiff in Hcp.
    destruct (scoreUrl_returns inputUrl baseUrl st fr st1 Hn Hc)
      as (probe & st2 & uuid & now & st' & Hprobe & Hrun).
    destruct (result_of_no_pages baseUrl fr probe uuid now Hcp) as (He & Hs & Ht).
    exists (result_of baseUrl fr probe uuid now), st', probe, st2.
    repeat split; try assumption.
    apply Hiff. exact Hcp.
  - intros r st' Hrun He.
    apply scoreUrl_inv in Hrun.
    destruct Hrun as (baseUrl & fr & st1 & probe & st2 & uuid & now & _ & Hc & _ & ->).
    apply result_of_errors in He.
    destruct (crawl_bounds _ _ _ _ _ Hc) as (_ & _ & _ & [_ Hiff] & _).
    split.
    + apply Hiff. exact He.
    + apply (result_of_no_pages baseUrl fr probe uuid now He).
  - intros Inv baseUrl Hnet Hst Hn.
    exact (scoreUrl_unusable Inv Hnet inputUrl baseUrl st Hn Hst).
Qed.

End ZeroPagesClaim.

(** ** Runs on the reference platform *)

(** A concrete run is decided by evaluating it. *)
Ltac run := apply returns_intro; vm_compute.

(** C4, the claim as stated fails: on a site that answers nothing the crawl
    fetches no page, and the result, which carries the error message, has a
    PURCHASE score and a total of 2, not 0. *)
Lemma dead_site_scores_two :
  exists r st,
    Web.run (scoreUrl "example.com") Sites.dead = (inr r, st)
    /\ (crawledPages r = [] /\ errors r = [NO_PAGES]
        /\ map CategoryScore.score (categories r) = [0; 2; 0; 0]%Z
        /\ totalScore r = 2%Z).
Proof. run. repeat split; reflexivity. Qed.


(** C8 at work: a site that serves a spec at the second path probed. The
    first path is tried three times, the second once, and the sub-score is 2
    on a corpus that says nothing of OpenAPI. *)
Lemma spec_probe_finds_spec :
  exists probe st,
    Web.run (probe_loop "https://example.com" OPENAPI_PATHS) Sites.with_spec = (inr probe, st)
    /\ (probe = Some "/swagger.json"
        /\ map c_url (calls st)
           = [ "https://example.com/openapi.json"; "https://example.com/openapi.json";
               "https://example.com/openapi.json"; "https://example.com/swagger.json" ]
        /\ SubScore.score (disc_metadata (Sites.text_corpus "hello") probe) = 2%Z).
Proof. run. repeat split; reflexivity. Qed.

(** C2, the run that breaks the cap. For the input [docs.do] the seed
    [https://docs.docs.do] starts with the origin [https://docs.do], so Phase 1
    stores its page under the key [/], over the page of the origin itself: 28
    pages are crawled and 27 are in the map. Phase 3 then takes 30 - 27 = 3
    candidates, and the run ends with 31 crawled pages. *)
Theorem crawledPages_exceeds_cap :
  (exists r st,
      Web.run (scoreUrl "docs.do") Sites.uniform = (inr r, st)
      /\ length (crawledPages r) = 31%nat)
  /\ (exists fr1 st1,
        Web.run (phase1 "https://docs.do" "docs.do") Sites.uniform = (inr fr1, st1)
        /\ (length (f_crawledPages fr1) = 28%nat
            /\ PageMap.size (f_pages fr1) = 27%nat
            /\ length (uniqueDiscovered (P := Web.platform)
                         "https://docs.do" "docs.do" fr1) = 3%nat))
  /\ Str.startsWith "https://docs.docs.do" "https://docs.do" = true
  /\ phase1_key (P := Web.platform) "https://docs.do" "https://docs.docs.do" = inr "/".
Proof.
  split; [run; reflexivity |].
  split; [run; repeat split; reflexivity |].
  split; vm_compute; reflexivity.
Qed.

(** C9, a page of a subdomain fetched in Phase 3. The root page of
    [example.com] links to [https://docs.example.com/api/v1]; that page is
    fetched in Phase 3 and stored under its path, [/api/v1], not under its
    URL, whereas Phase 1 stores the page of the seed [https://docs.example.com]
    under its URL. *)
Theorem phase3_keys_subdomain_page_by_path :
  (exists fr st,
      Web.run (crawl "https://example.com" "example.com") Sites.with_subdomain = (inr fr, st)
      /\ (f_crawledPages fr = ["https://example.com"; "https://docs.example.com/api/v1"]
          /\ map fst (f_pages fr) = ["/"; "/api/v1"]
          /\ PageMap.has (f_pages fr) "https://docs.example.com/api/v1" = false))
  /\ phase1_key (P := Web.platform) "https://example.com" "https://docs.example.com"
     = inr "https://docs.example.com".
Proof.
  split; [run; repeat split; reflexivity | vm_compute; reflexivity].
Qed.

(** C10. The same-site test of Phase 2 compares suffixes of host names: with
    the base domain [example.com], a link to [https://evilexample.com/docs],
    whose host is neither the base domain nor a subdomain of it, passes the
    test, becomes a candidate of Phase 3 and is crawled. *)
Theorem suffix_test_admits_foreign_host :
  exists link u,
    Web.parse link = Some u
    /\ Web.host u = "evilexample.com"
    /\ Web.host u <> "example.com"
    /\ Str.endsWith (Web.host u) ".example.com" = false
    /\ Str.endsWith (Str.strip_www (Web.host u)) "example.com" = true
    /\ (exists fr1 st1,
          Web.run (phase1 "https://example.com" "example.com") Sites.with_foreign_link
          = (inr fr1, st1)
          /\ (In link (flat_map (fun kv : string * string =>
                                   findLinks (P := Web.platform) (snd kv)
                                     "https://example.com")
                                (f_pages fr1))
              /\ In link (uniqueDiscovered (P := Web.platform)
                            "https://example.com" "example.com" fr1)))
    /\ (exists r st,
          Web.run (scoreUrl "example.com") Sites.with_foreign_link = (inr r, st)
          /\ In link (crawledPages r)).
Proof.
  exists "https://evilexample.com/docs".
  exists {| Web.scheme := "https"; Web.host := "evilexample.com"; Web.port := EmptyString;
            Web.path := "/docs"; Web.query := EmptyString; Web.fragment := EmptyString |}.
  split; [vm_compute; reflexivity |].
  split; [reflexivity |].
  split; [cbn; discriminate |].
  split; [vm_compute; reflexivity |].
  split; [vm_compute; reflexivity |].
  split.
  - run. split; left; reflexivity.
  - run. right. left. reflexivity.
Qed.

(** ** Normalisation on the reference platform: C5 *)

Module WebFacts.

Import Web.

Lemma append_nil_r (s : string) : s ++ EmptyString = s.
Proof. induction s as [| a s IH]; cbn; [reflexivity | rewrite IH; reflexivity]. Qed.

Lemma append_assoc (a b c : string) : (a ++ b) ++ c = a ++ (b ++ c).
Proof. induction a as [| x a IH]; cbn; [reflexivity | rewrite IH; reflexivity]. Qed.

Lemma until_app p a b :
  all_chars (fun c => negb (p c)) a = true -> stops p b ->
  take_until p (a ++ b) = a /\ drop_until p (a ++ b) = b.
Proof.
  induction a as [| x a IH]; cbn [all_chars append]; intros Ha Hb.
  - destruct b as [| c r]; [split; reflexivity |].
    cbn in Hb. cbn. rewrite Hb. split; reflexivity.
  - apply andb_true_iff in Ha. destruct Ha as [Hx Ha].
    apply negb_true_iff in Hx. cbn [take_until drop_until]. rewrite Hx.
    destruct (IH Ha Hb) as [-> ->]. split; reflexivity.
Qed.

Lemma until_all p a :
  all_chars (fun c => negb (p c)) a = true ->
  take_until p a = a /\ drop_until p a = EmptyString.
Proof.
  intros Ha. rewrite <- (append_nil_r a) at 1 3.
  apply until_app; [exact Ha | exact I].
Qed.

Lemma all_chars_impl (p q : ascii -> bool) s :
  (forall c, p c = true -> q c = true) -> all_chars p s = true -> all_chars q s = true.
Proof.
  intros Hpq. induction s as [| c s IH]; cbn; [reflexivity |].
  intros H. apply andb_true_iff in H. destruct H as [Hc Hs].
  rewrite (Hpq c Hc), (IH Hs). reflexivity.
Qed.

Lemma all_chars_lower (p q : ascii -> bool) s :
  (forall c, p (Str.lower_ascii c) = true -> q c = true) ->
  all_chars p (Str.toLowerCase s) = true -> all_chars q s = true.
Proof.
  intros Hpq. induction s as [| c s IH]; cbn; [reflexivity |].
  intros H. apply andb_true_iff in H. destruct H as [Hc Hs].
  rewrite (Hpq c Hc), (IH Hs). reflexivity.
Qed.

Lemma all_chars_app p a b :
  all_chars p (a ++ b) = all_chars p a && all_chars p b.
Proof.
  induction a as [| x a IH]; cbn; [reflexivity |].
  rewrite IH, andb_assoc. reflexivity.
Qed.

Ltac by_cases_on_char c :=
  destruct c as [[] [] [] [] [] [] [] []]; cbn; intros; try discriminate; reflexivity.

Lemma host_char_lower_not_delim c :
  is_host_char (Str.lower_ascii c) = true -> negb (is_delim c) = true.
Proof. by_cases_on_char c. Qed.

Lemma host_char_lower_not_colon c :
  is_host_char (Str.lower_ascii c) = true -> negb (is_colon c) = true.
Proof. by_cases_on_char c. Qed.

Lemma host_char_not_delim c : is_host_char c = true -> negb (is_delim c) = true.
Proof. by_cases_on_char c. Qed.

Lemma host_char_not_colon c : is_host_char c = true -> negb (is_colon c) = true.
Proof. by_cases_on_char c. Qed.

Lemma digit_not_delim c : is_digit c = true -> negb (is_delim c) = true.
Proof. by_cases_on_char c. Qed.

Lemma valid_host_chars h : valid_host h = true -> all_chars is_host_char h = true.
Proof.
  unfold valid_host. intros H.
  apply andb_true_iff in H. destruct H as [H _].
  apply andb_true_iff in H. destruct H as [_ H]. exact H.
Qed.

Lemma valid_port_digits p : valid_port p = true -> all_chars is_digit p = true.
Proof.
  unfold valid_port. intros H.
  repeat (apply andb_true_iff in H; destruct H as [H _]). exact H.
Qed.

Lemma split_scheme_cases s sch rest :
  split_scheme s = Some (sch, rest) -> sch = "https" \/ sch = "http".
Proof.
  unfold split_scheme.
  destruct (Str.startsWith s "https://"); [intros H; injection H as <- _; auto |].
  destruct (Str.startsWith s "http://"); [intros H; injection H as <- _; auto |].
  discriminate.
Qed.

Lemma parse_port_cases sch raw p :
  parse_port sch raw = Some p ->
  p = EmptyString \/ valid_port p = true /\ String.eqb p (default_port sch) = false.
Proof.
  unfold parse_port. destruct (String.eqb raw EmptyString).
  - intros H. injection H as <-. left. reflexivity.
  - destruct (valid_port raw) eqn:Hv; [| discriminate].
    destruct (String.eqb raw (default_port sch)) eqn:Hd; intros H; injection H as <-.
    + left. reflexivity.
    + right. split; assumption.
Qed.

Lemma parse_well_formed s u : parse s = Some u -> well_formed u.
Proof.
  unfold parse. destruct (split_scheme s) as [[sch rest] |] eqn:Hs; [| discriminate].
  destruct (parse_port sch _) as [p |] eqn:Hp; [| discriminate].
  destruct (valid_host _) eqn:Hv; [| discriminate].
  intros H. injection H as <-. unfold well_formed. cbn [scheme host port].
  split; [exact (split_scheme_cases _ _ _ Hs) |].
  split; [exact Hv |].
  split; [apply toLowerCase_idem |].
  exact (parse_port_cases _ _ _ Hp).
Qed.

Lemma origin_of_root u : origin_of (root u) = origin_of u.
Proof. reflexivity. Qed.

Lemma parse_authority sch h p :
  (sch = "https" \/ sch = "http") ->
  valid_host h = true -> Str.toLowerCase h = h ->
  (p = EmptyString
   \/ valid_port p = true /\ String.eqb p (default_port sch) = false) ->
  parse (sch ++ "://" ++ h ++ port_suffix p)
  = Some {| scheme := sch; host := h; port := p;
            path := "/"; query := EmptyString; fragment := EmptyString |}.
Proof.
  intros Hsch Hv Hl Hp.
  assert (Hsplit : split_scheme (sch ++ "://" ++ h ++ port_suffix p)
                   = Some (sch, h ++ port_suffix p))
    by (destruct Hsch as [-> | ->]; reflexivity).
  unfold parse. rewrite Hsplit.
  pose proof (valid_host_chars h Hv) as Hc.
  assert (Hauth : all_chars (fun c => negb (is_delim c)) (h ++ port_suffix p) = true).
  { rewrite all_chars_app.
    rewrite (all_chars_impl _ _ h host_char_not_delim Hc). cbn [andb].
    unfold port_suffix. destruct Hp as [-> | [Hvp _]]; [reflexivity |].
    destruct (String.eqb p EmptyString); [reflexivity |].
    cbn. apply (all_chars_impl _ _ p digit_not_delim). apply valid_port_digits. exact Hvp. }
  destruct (until_all is_delim _ Hauth) as [-> ->].
  assert (Hstop : stops is_colon (port_suffix p))
    by (unfold port_suffix; destruct (String.eqb p EmptyString); [exact I | reflexivity]).
  destruct (until_app is_colon h (port_suffix p)
              (all_chars_impl _ _ h host_char_not_colon Hc) Hstop) as [-> ->].
  rewrite Hl, Hv.
  assert (Hport : parse_port sch (Str.drop 1 (port_suffix p)) = Some p).
  { unfold port_suffix. destruct Hp as [-> | [Hvp Hd]]; [reflexivity |].
    destruct (String.eqb p EmptyString) eqn:He.
    - apply String.eqb_eq in He. subst p. reflexivity.
    - cbn [append Str.drop]. unfold parse_port. rewrite He, Hvp, Hd. reflexivity. }
  rewrite Hport. reflexivity.
Qed.

Lemma origin_of_eq u : origin_of u = scheme u ++ "://" ++ host u ++ port_suffix (port u).
Proof. reflexivity. Qed.

(** Parsing an origin gives back its scheme, host and port. *)
Lemma parse_origin u : well_formed u -> parse (origin_of u) = Some (root u).
Proof.
  intros (Hs & Hv & Hl & Hp). rewrite origin_of_eq.
  apply parse_authority; assumption.
Qed.

Lemma origin_starts_with_http u :
  well_formed u -> Str.startsWith (origin_of u) "http" = true.
Proof.
  intros ([E | E] & _); rewrite origin_of_eq, E; reflexivity.
Qed.

Lemma normalize_well_formed s u :
  normalize (P := platform) s = inr u -> well_formed u.
Proof.
  unfold normalize. cbn [newURL hostname href platform].
  destruct (parse _) as [b |] eqn:Hb; [| discriminate].
  destruct (negb _); [discriminate |].
  destruct (Str.startsWith (host b) "www.").
  - destruct (parse (Str.replace _ _ _)) as [u' |] eqn:Hu; [| discriminate].
    intros H. injection H as <-. exact (parse_well_formed _ _ Hu).
  - intros H. injection H as <-. exact (parse_well_formed _ _ Hb).
Qed.

Lemma normalize_origin u :
  well_formed u ->
  Str.startsWith (host u) "www." = false -> Str.includes (host u) "." = true ->
  normalize (P := platform) (origin_of u) = inr (root u).
Proof.
  intros Hwf Hw Hd. unfold normalize. cbn [newURL hostname href platform].
  rewrite (origin_starts_with_http u Hwf), (parse_origin u Hwf).
  cbn [root host]. rewrite Hd, Hw. reflexivity.
Qed.

Lemma parse_bare a t :
  valid_host (Str.toLowerCase a) = true -> t = EmptyString \/ t = "/" ->
  parse ("https://" ++ a ++ t)
  = Some {| scheme := "https"; host := Str.toLowerCase a; port := EmptyString;
            path := "/"; query := EmptyString; fragment := EmptyString |}.
Proof.
  intros Hv Ht. unfold parse.
  change (split_scheme ("https://" ++ a ++ t)) with (Some ("https", a ++ t)).
  pose proof (valid_host_chars _ Hv) as Hc.
  assert (Hstop : stops is_delim t) by (destruct Ht as [-> | ->]; [exact I | reflexivity]).
  destruct (until_app is_delim a t
              (all_chars_lower _ _ a host_char_lower_not_delim Hc) Hstop) as [-> ->].
  destruct (until_all is_colon a
              (all_chars_lower _ _ a host_char_lower_not_colon Hc)) as [-> ->].
  cbn [Str.drop]. change (parse_port "https" EmptyString) with (Some EmptyString).
  rewrite Hv. destruct Ht as [-> | ->]; reflexivity.
Qed.

Lemma valid_host_www h : valid_host h = true -> valid_host ("www." ++ h) = true.
Proof.
  unfold valid_host. intros H.
  apply andb_true_iff in H. destruct H as [H Hn].
  apply andb_true_iff in H. destruct H as [_ Hc].
  cbn. rewrite Hc. exact Hn.
Qed.

Lemma normalize_www h :
  valid_host (Str.toLowerCase h) = true ->
  normalize (P := platform) ("www." ++ h)
  = inr {| scheme := "https"; host := Str.toLowerCase h; port := EmptyString;
           path := "/"; query := EmptyString; fragment := EmptyString |}.
Proof.
  intros Hv. unfold normalize. cbn [newURL hostname href platform].
  change (Str.startsWith ("www." ++ h) "http") with false. cbv iota.
  rewrite <- (append_nil_r ("www." ++ h)).
  rewrite (parse_bare ("www." ++ h) EmptyString
             (valid_host_www _ Hv) (or_introl eq_refl)).
  cbn [host]. change (Str.toLowerCase ("www." ++ h)) with ("www." ++ Str.toLowerCase h).
  change (Str.includes ("www." ++ Str.toLowerCase h) ".") with true.
  change (Str.startsWith ("www." ++ Str.toLowerCase h) "www.") with true.
  cbn [negb]. cbv iota.
  change (Str.replace
            (href_of {| scheme := "https"; host := "www." ++ Str.toLowerCase h;
                        port := EmptyString; path := "/"; query := EmptyString;
                        fragment := EmptyString |}) "://www." "://")
    with ("https://" ++ (Str.toLowerCase h ++ EmptyString) ++ "/").
  rewrite append_nil_r.
  rewrite (parse_bare (Str.toLowerCase h) "/").
  - rewrite toLowerCase_idem. reflexivity.
  - rewrite toLowerCase_idem. exact Hv.
  - right. reflexivity.
Qed.

Lemma normalize_plain h :
  valid_host (Str.toLowerCase h) = true ->
  Str.includes (Str.toLowerCase h) "." = true ->
  Str.startsWith (Str.toLowerCase h) "www." = false ->
  Str.startsWith h "http" = false ->
  normalize (P := platform) h
  = inr {| scheme := "https"; host := Str.toLowerCase h; port := EmptyString;
           path := "/"; query := EmptyString; fragment := EmptyString |}.
Proof.
  intros Hv Hd Hw Hh. unfold normalize. cbn [newURL hostname href platform].
  rewrite Hh. rewrite <- (append_nil_r h) at 1.
  rewrite (parse_bare h EmptyString Hv (or_introl eq_refl)).
  cbn [host]. rewrite Hd, Hw. reflexivity.
Qed.

End WebFacts.


(** ** The theorems at work on concrete runs *)

Lemma uniform_run_returns :
  exists r st', scoreUrl (P := Web.platform) "example.com" (start Sites.uniform) = (inr r, st')
                /\ True.
Proof. run. exact I. Qed.

Lemma dead_run_returns :
  exists r st', scoreUrl (P := Web.platform) "example.com" (start Sites.dead) = (inr r, st')
                /\ (totalScore r = 2%Z /\ grade r = "F").
Proof. run. split; reflexivity. Qed.

(** C1 on the run of [example.com] against the uniform site. *)
Lemma category_and_total_scores_witness :
  exists r st',
    scoreUrl (P := Web.platform) "example.com" (start Sites.uniform) = (inr r, st')
    /\ exists d p i t,
         categories r = [d; p; i; t]
         /\ (forall cat, In cat [d; p; i; t] ->
               CategoryScore.score cat
               = Z.min 10 (fold_right Z.add 0%Z
                             (map SubScore.score (CategoryScore.subScores cat)))
               /\ (0 <= CategoryScore.score cat <= 10)%Z)
         /\ totalScore r = (CategoryScore.score d + CategoryScore.score p
                            + CategoryScore.score i + CategoryScore.score t)%Z
         /\ (0 <= totalScore r <= 40)%Z.
Proof.
  destruct uniform_run_returns as (r & st' & H & _).
  exists r, st'. split; [exact H |].
  exact (category_and_total_scores "example.com" (start Sites.uniform) r st' H).
Defined.

(** C7 on the same run. *)
Lemma subscores_within_maxPoints_witness :
  exists r st',
    scoreUrl (P := Web.platform) "example.com" (start Sites.uniform) = (inr r, st')
    /\ length (flat_map CategoryScore.subScores (categories r)) = 17%nat
    /\ forall cat s, In cat (categories r) -> In s (CategoryScore.subScores cat) ->
         (0 <= SubScore.score s <= SubScore.maxPoints s)%Z.
Proof.
  destruct uniform_run_returns as (r & st' & H & _).
  exists r, st'. split; [exact H |].
  exact (subscores_within_maxPoints "example.com" (start Sites.uniform) r st' H).
Defined.

(** C6 on the run of [example.com] against the dead site: total 2, grade F. *)
Lemma grade_is_function_of_totalScore_witness :
  exists r st',
    scoreUrl (P := Web.platform) "example.com" (start Sites.dead) = (inr r, st')
    /\ totalScore r = 2%Z /\ grade r = "F"
    /\ grade r = gradeOf (totalScore r)
    /\ (grade r = "A" <-> 35 <= totalScore r)%Z
    /\ (grade r = "B" <-> 28 <= totalScore r < 35)%Z
    /\ (grade r = "C" <-> 20 <= totalScore r < 28)%Z
    /\ (grade r = "D" <-> 10 <= totalScore r < 20)%Z
    /\ (grade r = "F" <-> totalScore r < 10)%Z.
Proof.
  destruct dead_run_returns as (r & st' & H & Ht & Hg).
  exists r, st'. split; [exact H |]. split; [exact Ht |]. split; [exact Hg |].
  exact (grade_is_function_of_totalScore "example.com" (start Sites.dead) r st' H).
Defined.


Lemma dead_never_usable : never_usable (P := Web.platform) (fun w => w = Sites.dead).
Proof. intros w u t ->. split; reflexivity. Qed.

Lemma normalize_example_com :
  normalize (P := Web.platform) "example.com"
  = inr {| Web.scheme := "https"; Web.host := "example.com"; Web.port := EmptyString;
           Web.path := "/"; Web.query := EmptyString; Web.fragment := EmptyString |}.
Proof. vm_compute. reflexivity. Qed.

(** C4 on the dead site, by way of the network that never answers. *)
Lemma zero_pages_soft_error_witness :
  exists r st',
    scoreUrl (P := Web.platform) "example.com" (start Sites.dead) = (inr r, st')
    /\ errors r = [NO_PAGES] /\ crawledPages r = []
    /\ map CategoryScore.score (categories r) = [0; 2; 0; 0]%Z
    /\ totalScore r = 2%Z.
Proof.
  exact (proj2 (proj2 (zero_pages_soft_error (P := Web.platform) "example.com"
                         (start Sites.dead)))
           (fun w => w = Sites.dead) _ dead_never_usable eq_refl normalize_example_com).
Defined.

(** * Further properties *)

(** ** [fetchPage] *)

Section FetchPage.

Context {P : Platform}.

Lemma fetchPage_loop_trace n u t : forall st,
  exists r st' m,
    fetchPage_loop n u t st = (inr r, st')
    /\ match r with
       | Some resp =>
           (m < n)%nat
           /\ calls st' = (calls st ++ repeat (failed_call u t) m
                                    ++ [answered_call u t resp])%list
       | None =>
           m = n /\ calls st' = (calls st ++ repeat (failed_call u t) n)%list
       end.
Proof.
  induction n as [| n IH]; intros st.
  - exists None, st, 0%nat. cbn. rewrite app_nil_r. auto.
  - cbn [fetchPage_loop]. unfold bind, fetch_call.
    destruct (fetch u t (world st)) as [[resp |] w].
    + eexists (Some resp), _, 0%nat. split; [reflexivity |].
      split; [lia | reflexivity].
    + destruct (IH {| world := w;
                      calls := (calls st ++ [{| c_url := u; c_timeout := t;
                                                c_result := None |}])%list |})
        as (r & st' & m & Hrun & Hr).
      exists r, st'. destruct r as [resp |].
      * exists (S m). split; [exact Hrun |]. destruct Hr as [Hm Hc].
        split; [lia |]. rewrite Hc. cbn [calls repeat].
        rewrite <- app_assoc. reflexivity.
      * exists (S n). split; [exact Hrun |]. destruct Hr as [_ Hc].
        split; [reflexivity |]. rewrite Hc. cbn [calls repeat].
        rewrite <- app_assoc. reflexivity.
Qed.

(** X1. [fetchPage] never throws. It calls [fetch] with its own URL and
    timeout until a call brings a response, at most [retries + 1] times: when
    it returns a response, that is the outcome of its last call and every
    call before has failed, at most [retries] of them; it returns [null]
    exactly after [retries + 1] failed calls. *)
Theorem fetchPage_contract u t retries st :
  exists r st',
    fetchPage u t retries st = (inr r, st')
    /\ match r with
       | Some resp =>
           exists m, (m <= retries)%nat
             /\ calls st' = (calls st ++ repeat (failed_call u t) m
                                      ++ [answered_call u t resp])%list
       | None =>
           calls st' = (calls st ++ repeat (failed_call u t) (S retries))%list
       end.
Proof.
  destruct (fetchPage_loop_trace (S retries) u t st) as (r & st' & m & Hrun & Hr).
  exists r, st'. split; [exact Hrun |].
  destruct r as [resp |].
  - destruct Hr as [Hm Hc]. exists m. split; [lia | exact Hc].
  - destruct Hr as [_ Hc]. exact Hc.
Qed.

End FetchPage.

(** ** Lists with elements left out *)

Lemma subseq_refl {A} (l : list A) : subseq l l.
Proof. induction l; [apply subseq_nil | apply subseq_keep; assumption]. Qed.

Lemma subseq_nil_l {A} (l : list A) : subseq [] l.
Proof. induction l; [apply subseq_nil | apply subseq_skip; assumption]. Qed.

Lemma subseq_app {A} (a b c d : list A) :
  subseq a b -> subseq c d -> subseq (a ++ c) (b ++ d).
Proof.
  intros Hab Hcd. induction Hab; cbn;
    [exact Hcd | apply subseq_skip; assumption | apply subseq_keep; assumption].
Qed.

Lemma subseq_incl {A} (a b : list A) : subseq a b -> incl a b.
Proof.
  induction 1 as [| x l1 l2 _ IH | x l1 l2 _ IH]; intros y Hy.
  - exact Hy.
  - right. apply IH. exact Hy.
  - destruct Hy as [-> | Hy]; [left; reflexivity | right; apply IH; exact Hy].
Qed.

Lemma subseq_NoDup {A} (a b : list A) : subseq a b -> NoDup b -> NoDup a.
Proof.
  induction 1 as [| x l1 l2 Hs IH | x l1 l2 Hs IH]; intros Hb.
  - constructor.
  - inversion Hb; subst. auto.
  - inversion Hb as [| ? ? Hnotin Hnd]; subst. constructor; [| auto].
    intros Hin. apply Hnotin. exact (subseq_incl _ _ Hs x Hin).
Qed.

Lemma subseq_length {A} (a b : list A) : subseq a b -> (length a <= length b)%nat.
Proof. induction 1; cbn; lia. Qed.

Lemma subseq_trans {A} (a b c : list A) : subseq a b -> subseq b c -> subseq a c.
Proof.
  intros Hab Hbc. revert a Hab.
  induction Hbc as [| x l1 l2 _ IH | x l1 l2 _ IH]; intros a Hab.
  - exact Hab.
  - apply subseq_skip. apply IH. exact Hab.
  - inversion Hab; subst.
    + apply subseq_skip. apply IH. assumption.
    + apply subseq_keep. apply IH. assumption.
Qed.

Lemma subseq_filter {A} (f : A -> bool) (l : list A) : subseq (filter f l) l.
Proof.
  induction l as [| x l IH]; cbn; [apply subseq_nil |].
  destruct (f x); [apply subseq_keep | apply subseq_skip]; exact IH.
Qed.

Lemma subseq_map {A B} (f : A -> B) (a b : list A) :
  subseq a b -> subseq (map f a) (map f b).
Proof.
  induction 1; cbn;
    [apply subseq_nil | apply subseq_skip; assumption | apply subseq_keep; assumption].
Qed.

Lemma subseq_firstn {A} n (l : list A) : subseq (firstn n l) l.
Proof.
  revert n. induction l as [| x l IH]; intros [| n]; cbn.
  - apply subseq_nil.
  - apply subseq_nil.
  - apply subseq_nil_l.
  - apply subseq_keep, IH.
Qed.

Lemma ok_urls_subseq results : subseq (ok_urls results) (map fst results).
Proof. unfold ok_urls. apply subseq_map, subseq_filter. Qed.

(** ** The trace of the crawl *)

Section Trace.

Context {P : Platform}.

Lemma fetchPage_trace u t retries st r st' :
  fetchPage u t retries st = (inr r, st') ->
  exists new,
    calls st' = (calls st ++ new)%list
    /\ (length new <= S retries)%nat
    /\ (forall k, In k new -> c_timeout k = t /\ c_url k = u)
    /\ (forall resp, r = Some resp -> In (answered_call u t resp) new).
Proof.
  intros Hrun.
  destruct (fetchPage_loop_trace (S retries) u t st) as (r' & st'' & m & Hrun' & Hr).
  unfold fetchPage in Hrun. rewrite Hrun in Hrun'. injection Hrun' as <- <-.
  destruct r as [resp |].
  - destruct Hr as [Hm Hc].
    exists (repeat (failed_call u t) m ++ [answered_call u t resp])%list.
    split; [exact Hc |]. split.
    + rewrite length_app, repeat_length. cbn. lia.
    + split.
      * intros k Hk. apply in_app_or in Hk. destruct Hk as [Hk | [<- | []]].
        -- apply repeat_spec in Hk. subst k. split; reflexivity.
        -- split; reflexivity.
      * intros resp' E. injection E as <-. apply in_or_app. right. left. reflexivity.
  - destruct Hr as [_ Hc]. exists (repeat (failed_call u t) (S retries)).
    split; [exact Hc |]. split; [rewrite repeat_length; lia |]. split.
    + intros k Hk. apply repeat_spec in Hk. subst k. split; reflexivity.
    + intros resp E. discriminate E.
Qed.

Lemma fetch_batch_trace batch : forall st results st',
  fetch_batch batch st = (inr results, st') ->
  map fst results = batch
  /\ exists new,
       calls st' = (calls st ++ new)%list
       /\ (length new <= 3 * length batch)%nat
       /\ (forall k, In k new -> c_timeout k = DEFAULT_TIMEOUT /\ In (c_url k) batch)
       /\ (forall u resp, In (u, Some resp) results ->
             In (answered_call u DEFAULT_TIMEOUT resp) new).
Proof.
  unfold fetch_batch.
  induction batch as [| u batch IH]; intros st results st' H.
  - cbn in H. unfold ret in H. injection H as <- <-.
    split; [reflexivity |]. exists []. rewrite app_nil_r.
    split; [reflexivity |]. split; [cbn; lia |].
    split; [intros k [] | intros u resp []].
  - cbn [mapM] in H.
    apply bind_inr in H. destruct H as ([u' r] & st1 & Hf & H).
    apply bind_inr in Hf. destruct Hf as (r' & st1' & Hf & Hret).
    unfold ret in Hret. injection Hret as <- <- <-.
    apply bind_inr in H. destruct H as (rest & st2 & Hrest & H).
    unfold ret in H. injection H as <- <-.
    destruct (fetchPage_trace _ _ _ _ _ _ Hf) as (new1 & Hc1 & Hl1 & Ha1 & Hr1).
    destruct (IH _ _ _ Hrest) as (Hfst & new2 & Hc2 & Hl2 & Ha2 & Hr2).
    split; [cbn; rewrite Hfst; reflexivity |].
    exists (new1 ++ new2)%list.
    split; [rewrite Hc2, Hc1, app_assoc; reflexivity |].
    split; [rewrite length_app; unfold DEFAULT_RETRIES in Hl1; cbn [length]; lia |].
    split.
    + intros k Hk. apply in_app_or in Hk. destruct Hk as [Hk | Hk].
      * destruct (Ha1 k Hk) as [Ht Hu]. split; [exact Ht | left; symmetry; exact Hu].
      * destruct (Ha2 k Hk) as [Ht Hu]. split; [exact Ht | right; exact Hu].
    + intros v resp [E | Hin].
      * injection E as <- ->. apply in_or_app. left. apply Hr1. reflexivity.
      * apply in_or_app. right. apply (Hr2 v resp Hin).
Qed.

Lemma usable_Some result r :
  usable result = Some r -> result = Some r /\ (status r < 400)%Z.
Proof.
  unfold usable. destruct result as [resp |]; [| discriminate].
  destruct (Z.ltb_spec (status resp) 400); [| discriminate].
  intros E. injection E as <-. split; [reflexivity | assumption].
Qed.

Lemma phase1_results_crawled origin_ results : forall st st',
  phase1_results origin_ results st = inr st' ->
  f_crawledPages st' = (f_crawledPages st ++ ok_urls results)%list
  /\ f_visited st' = f_visited st.
Proof.
  unfold ok_urls.
  induction results as [| [fullUrl result] results IH]; intros st st' H.
  - cbn in H. injection H as <-. cbn. rewrite app_nil_r. split; reflexivity.
  - cbn [phase1_results] in H. cbn [filter snd]. unfold is_usable at 1.
    destruct (usable result) as [r |].
    + destruct (phase1_key origin_ fullUrl) as [e | key]; [discriminate |].
      destruct (IH _ _ H) as [Hc Hv]. split; [| exact Hv].
      rewrite Hc. unfold record_page. cbn [f_crawledPages map fst].
      rewrite <- app_assoc. reflexivity.
    + exact (IH _ _ H).
Qed.

Lemma phase3_results_crawled results : forall st st',
  phase3_results results st = inr st' ->
  (exists picked, f_crawledPages st' = (f_crawledPages st ++ picked)%list
                  /\ subseq picked (ok_urls results))
  /\ f_visited st' = f_visited st.
Proof.
  unfold ok_urls.
  induction results as [| [url_ result] results IH]; intros st st' H.
  - cbn in H. injection H as <-. split; [| reflexivity].
    exists []. rewrite app_nil_r. split; [reflexivity | apply subseq_nil].
  - cbn [phase3_results] in H. cbn [filter snd]. destruct (at_cap st).
    + injection H as <-. split; [| reflexivity].
      exists []. rewrite app_nil_r. split; [reflexivity | apply subseq_nil_l].
    + unfold is_usable at 1. destruct (usable result) as [r |].
      * destruct (newURL url_) as [u |]; [| discriminate].
        destruct (IH _ _ H) as [(picked & Hc & Hs) Hv]. split; [| exact Hv].
        exists (url_ :: picked). split.
        -- rewrite Hc. unfold record_page. cbn [f_crawledPages].
           rewrite <- app_assoc. reflexivity.
        -- cbn [map fst]. apply subseq_keep. exact Hs.
      * exact (IH _ _ H).
Qed.

Lemma ok_urls_answered results u :
  In u (ok_urls results) ->
  exists resp, In (u, Some resp) results /\ (status resp < 400)%Z.
Proof.
  unfold ok_urls. intros H. apply in_map_iff in H.
  destruct H as ([v result] & <- & Hin). apply filter_In in Hin.
  destruct Hin as [Hin Hok]. cbn [fst snd] in *. unfold is_usable in Hok.
  destruct (usable result) as [r |] eqn:E; [| discriminate].
  apply usable_Some in E. destruct E as [-> Hst].
  exists r. split; assumption.
Qed.

(** One batch of either phase is a stretch of the crawl over its URLs. *)
Lemma batch_step batch st s results s' st' picked :
  fetch_batch batch s = (inr results, s') ->
  f_crawledPages st' = (f_crawledPages st ++ picked)%list ->
  subseq picked (ok_urls results) ->
  crawl_step batch st st' s s'.
Proof.
  intros Hb Hc Hs.
  destruct (fetch_batch_trace _ _ _ _ Hb) as (Hfst & new & Hcalls & Hlen & Hall & Hans).
  exists picked, new.
  split; [exact Hc |].
  split; [rewrite <- Hfst; exact (subseq_trans _ _ _ Hs (ok_urls_subseq results)) |].
  split; [exact Hcalls |]. split; [exact Hlen |]. split; [exact Hall |].
  intros u Hu. apply (subseq_incl _ _ Hs) in Hu.
  destruct (ok_urls_answered results u Hu) as (resp & Hin & Hst).
  exists resp. split; [exact (Hans u resp Hin) | exact Hst].
Qed.

Lemma crawl_step_nil st s : crawl_step [] st st s s.
Proof.
  exists [], []. rewrite !app_nil_r.
  split; [reflexivity |]. split; [apply subseq_nil |]. split; [reflexivity |].
  split; [cbn; lia |]. split; intros ? [].
Qed.

Lemma crawl_step_weaken urls more st st' s s' :
  crawl_step urls st st' s s' -> crawl_step (urls ++ more) st st' s s'.
Proof.
  intros (picked & new & Hc & Hs & Hcalls & Hlen & Hall & Hans).
  exists picked, new. split; [exact Hc |]. split.
  - rewrite <- (app_nil_r picked). apply subseq_app; [exact Hs | apply subseq_nil_l].
  - split; [exact Hcalls |]. split; [rewrite length_app; lia |]. split; [| exact Hans].
    intros k Hk. destruct (Hall k Hk) as [Ht Hu].
    split; [exact Ht | apply in_or_app; left; exact Hu].
Qed.

Lemma crawl_step_app urls1 urls2 st1 st2 st3 s1 s2 s3 :
  crawl_step urls1 st1 st2 s1 s2 -> crawl_step urls2 st2 st3 s2 s3 ->
  crawl_step (urls1 ++ urls2) st1 st3 s1 s3.
Proof.
  intros (p1 & n1 & Hc1 & Hs1 & Hk1 & Hl1 & Ha1 & Hr1)
         (p2 & n2 & Hc2 & Hs2 & Hk2 & Hl2 & Ha2 & Hr2).
  exists (p1 ++ p2)%list, (n1 ++ n2)%list.
  split; [rewrite Hc2, Hc1, app_assoc; reflexivity |].
  split; [apply subseq_app; assumption |].
  split; [rewrite Hk2, Hk1, app_assoc; reflexivity |].
  split; [rewrite !length_app; lia |].
  split.
  - intros k Hk. apply in_app_or in Hk. destruct Hk as [Hk | Hk].
    + destruct (Ha1 k Hk) as [Ht Hu]. split; [exact Ht | apply in_or_app; left; exact Hu].
    + destruct (Ha2 k Hk) as [Ht Hu]. split; [exact Ht | apply in_or_app; right; exact Hu].
  - intros u Hu. apply in_app_or in Hu. destruct Hu as [Hu | Hu].
    + destruct (Hr1 u Hu) as (resp & Hin & Hst).
      exists resp. split; [apply in_or_app; left; exact Hin | exact Hst].
    + destruct (Hr2 u Hu) as (resp & Hin & Hst).
      exists resp. split; [apply in_or_app; right; exact Hin | exact Hst].
Qed.

Lemma phase1_loop_step origin_ bs : forall st s st' s',
  phase1_loop origin_ bs st s = (inr st', s') ->
  crawl_step (concat bs) st st' s s' /\ f_visited st' = f_visited st.
Proof.
  induction bs as [| batch bs IH]; intros st s st' s' H.
  - cbn in H. unfold ret in H. injection H as <- <-.
    split; [apply crawl_step_nil | reflexivity].
  - cbn [phase1_loop] in H.
    apply bind_inr in H. destruct H as (results & s1 & Hb & H).
    apply bind_inr in H. destruct H as (st1 & s2 & Hr & H).
    unfold lift in Hr. injection Hr as Hr <-.
    destruct (phase1_results_crawled _ _ _ _ Hr) as [Hc Hv].
    destruct (IH _ _ _ _ H) as [Hstep Hv'].
    split; [| congruence].
    cbn [concat]. eapply crawl_step_app; [| exact Hstep].
    exact (batch_step batch st s results s1 st1 _ Hb Hc (subseq_refl _)).
Qed.

Lemma phase3_loop_step bs : forall st s st' s',
  phase3_loop bs st s = (inr st', s') ->
  crawl_step (concat bs) st st' s s'.
Proof.
  induction bs as [| batch bs IH]; intros st s st' s' H.
  - cbn in H. unfold ret in H. injection H as <- <-. apply crawl_step_nil.
  - cbn [phase3_loop] in H. destruct (at_cap st).
    + unfold ret in H. injection H as <- <-.
      apply (crawl_step_weaken [] (concat (batch :: bs))). apply crawl_step_nil.
    + apply bind_inr in H. destruct H as (results & s1 & Hb & H).
      apply bind_inr in H. destruct H as (st1 & s2 & Hr & H).
      unfold lift in Hr. injection Hr as Hr <-.
      destruct (phase3_results_crawled _ _ _ Hr) as [(picked & Hc & Hs) _].
      cbn [concat]. eapply crawl_step_app; [| exact (IH _ _ _ _ H)].
      cbn [f_crawledPages] in Hc.
      exact (batch_step batch st s results s1 st1 picked Hb Hc Hs).
Qed.

End Trace.

(** ** What the string operations do *)

Lemma startsWith_spec p : forall s,
  Str.startsWith s p = true <-> exists r, s = p ++ r.
Proof.
  induction p as [| a p IH]; intros s; cbn [Str.startsWith].
  - split; [intros _; exists s; reflexivity | reflexivity].
  - destruct s as [| b s].
    + split; [discriminate | intros (r & E); discriminate E].
    + rewrite andb_true_iff, IH, Ascii.eqb_eq. split.
      * intros (-> & r & ->). exists r. reflexivity.
      * intros (r & E). cbn in E. injection E as -> ->.
        split; [reflexivity | exists r; reflexivity].
Qed.

Lemma includes_spec k : forall s,
  Str.includes s k = true <-> exists a b, s = a ++ k ++ b.
Proof.
  induction s as [| c s IH].
  - cbn [Str.includes]. rewrite orb_false_r, startsWith_spec. split.
    + intros (r & E). exists EmptyString, r. exact E.
    + intros ([| x a] & b & E); [exists b; exact E | discriminate E].
  - cbn [Str.includes]. rewrite orb_true_iff, startsWith_spec, IH. split.
    + intros [(r & E) | (a & b & E)].
      * exists EmptyString, r. exact E.
      * exists (String c a), b. cbn. rewrite E. reflexivity.
    + intros ([| x a] & b & E).
      * left. exists b. exact E.
      * right. cbn in E. injection E as -> ->. exists a, b. reflexivity.
Qed.

Lemma toLowerCase_app a b :
  Str.toLowerCase (a ++ b) = Str.toLowerCase a ++ Str.toLowerCase b.
Proof. induction a as [| x a IH]; cbn; [reflexivity | rewrite IH; reflexivity]. Qed.

Lemma includes_app k a s b :
  Str.includes s k = true -> Str.includes (a ++ s ++ b) k = true.
Proof.
  rewrite !includes_spec. intros (x & y & ->).
  exists (a ++ x), (y ++ b).
  rewrite !WebFacts.append_assoc. reflexivity.
Qed.


Lemma rev_acc_app s : forall acc, Str.rev_acc s acc = Str.rev s ++ acc.
Proof.
  unfold Str.rev. induction s as [| c s IH]; intros acc; [reflexivity |].
  cbn [Str.rev_acc]. rewrite (IH (String c acc)), (IH (String c EmptyString)).
  rewrite WebFacts.append_assoc. reflexivity.
Qed.

Lemma rev_cons c s : Str.rev (String c s) = Str.rev s ++ String c EmptyString.
Proof. unfold Str.rev at 1. cbn [Str.rev_acc]. apply rev_acc_app. Qed.

Lemma rev_app a b : Str.rev (a ++ b) = Str.rev b ++ Str.rev a.
Proof.
  induction a as [| c a IH]; cbn [append].
  - rewrite WebFacts.append_nil_r. reflexivity.
  - rewrite !rev_cons, IH, WebFacts.append_assoc. reflexivity.
Qed.

Lemma rev_involutive s : Str.rev (Str.rev s) = s.
Proof.
  induction s as [| c s IH]; [reflexivity |].
  rewrite rev_cons, rev_app, IH. reflexivity.
Qed.

Lemma endsWith_spec s p : Str.endsWith s p = true <-> exists a, s = a ++ p.
Proof.
  unfold Str.endsWith. rewrite startsWith_spec. split.
  - intros (r & E). exists (Str.rev r).
    rewrite <- (rev_involutive s), E, rev_app, rev_involutive. reflexivity.
  - intros (a & ->). exists (Str.rev a). apply rev_app.
Qed.

Lemma strip_www_spec s :
  (exists d, s = "www." ++ d /\ Str.strip_www s = d)
  \/ (Str.strip_www s = s /\ forall d, s <> "www." ++ d).
Proof.
  unfold Str.strip_www. destruct (Str.startsWith s "www.") eqn:E.
  - left. apply startsWith_spec in E. destruct E as (d & ->). exists d.
    split; reflexivity.
  - right. split; [reflexivity |]. intros d ->.
    assert (Str.startsWith ("www." ++ d) "www." = true)
      by (apply startsWith_spec; exists d; reflexivity).
    congruence.
Qed.

Lemma strip_trailing_slash_spec s :
  (exists q, s = q ++ "/" /\ Str.strip_trailing_slash s = q)
  \/ (Str.strip_trailing_slash s = s /\ forall q, s <> q ++ "/").
Proof.
  induction s as [| c s IH].
  - right. split; [reflexivity |]. intros [| x q]; discriminate.
  - destruct s as [| c' s'].
    + cbn [Str.strip_trailing_slash]. destruct (Ascii.eqb_spec c "/") as [-> | Hc].
      * left. exists EmptyString. split; reflexivity.
      * right. split; [reflexivity |].
        intros [| x [| y q]] E; cbn in E; try discriminate E.
        injection E as E. exact (Hc E).
    + change (Str.strip_trailing_slash (String c (String c' s')))
        with (String c (Str.strip_trailing_slash (String c' s'))).
      destruct IH as [(q & Eq & Hq) | (Hs & Hno)].
      * left. exists (String c q). split; [cbn; rewrite Eq; reflexivity |].
        rewrite Hq. reflexivity.
      * right. split; [rewrite Hs; reflexivity |].
        intros [| x q] E; [discriminate E |].
        cbn in E. injection E as -> E. exact (Hno q E).
Qed.

(** ** Sets, batches and candidates *)

Lemma set_has_In s x : set_has s x = true <-> In x s.
Proof.
  unfold set_has. rewrite existsb_exists. split.
  - intros (y & Hy & E). apply String.eqb_eq in E. subst y. exact Hy.
  - intros H. exists x. split; [exact H | apply String.eqb_refl].
Qed.

Lemma set_has_false s x : set_has s x = false <-> ~ In x s.
Proof.
  rewrite <- set_has_In. destruct (set_has s x); split; intros; congruence.
Qed.

Lemma set_add_spec s x :
  (NoDup s -> NoDup (set_add s x))
  /\ forall y, In y (set_add s x) <-> In y s \/ y = x.
Proof.
  unfold set_add. destruct (set_has s x) eqn:E.
  - apply set_has_In in E. split; [auto |].
    intros y. split; [auto | intros [H | ->]; assumption].
  - apply set_has_false in E. split.
    + intros H. apply NoDup_app; [exact H | repeat constructor; intros [] |].
      intros a Ha [<- | []]. contradiction.
    + intros y. rewrite in_app_iff. cbn. split.
      * intros [H | [<- | []]]; auto.
      * intros [H | ->]; auto.
Qed.

Lemma fold_set_add_spec l : forall acc,
  (NoDup acc -> NoDup (fold_left set_add l acc))
  /\ forall y, In y (fold_left set_add l acc) <-> In y acc \/ In y l.
Proof.
  induction l as [| x l IH]; intros acc; cbn [fold_left].
  - split; [auto |]. intros y. cbn. tauto.
  - destruct (IH (set_add acc x)) as [Hnd Hin].
    destruct (set_add_spec acc x) as [Hnd1 Hin1]. split.
    + auto.
    + intros y. rewrite Hin, Hin1. cbn. intuition congruence.
Qed.

Lemma dedupe_NoDup l : NoDup (dedupe l).
Proof. apply (fold_set_add_spec l []). constructor. Qed.

Lemma dedupe_In l y : In y (dedupe l) <-> In y l.
Proof.
  unfold dedupe. rewrite (proj2 (fold_set_add_spec l [])). cbn. tauto.
Qed.

Lemma slice0_subseq {A} (l : list A) e : subseq (slice0 l e) l.
Proof. unfold slice0. destruct (e <? 0)%Z; apply subseq_firstn. Qed.

Lemma filter_unvisited_spec l : forall visited,
  let (keep, visited') := filter_unvisited l visited in
  visited' = (visited ++ keep)%list
  /\ NoDup keep
  /\ subseq keep l
  /\ (forall x, In x keep -> ~ In x visited)
  /\ (forall x, In x l -> In x visited').
Proof.
  induction l as [| u l IH]; intros visited; cbn [filter_unvisited].
  - rewrite app_nil_r. repeat split; try constructor; intros x [].
  - destruct (set_has visited u) eqn:E.
    + specialize (IH visited). destruct (filter_unvisited l visited) as [keep v'].
      destruct IH as (Hv & Hnd & Hs & Hfresh & Hall).
      split; [exact Hv |]. split; [exact Hnd |].
      split; [apply subseq_skip; exact Hs |]. split; [exact Hfresh |].
      intros x [<- | Hx]; [| exact (Hall x Hx)].
      rewrite Hv. apply in_or_app. left. apply set_has_In. exact E.
    + apply set_has_false in E.
      specialize (IH (visited ++ [u])%list).
      destruct (filter_unvisited l (visited ++ [u])%list) as [keep v'].
      destruct IH as (Hv & Hnd & Hs & Hfresh & Hall).
      split; [rewrite Hv, <- app_assoc; reflexivity |].
      split.
      { constructor; [| exact Hnd]. intros Hin.
        apply (Hfresh u Hin). apply in_or_app. right. left. reflexivity. }
      split; [apply subseq_keep; exact Hs |].
      split.
      { intros x [<- | Hx]; [exact E |].
        intros Hin. apply (Hfresh x Hx). apply in_or_app. left. exact Hin. }
      intros x [<- | Hx]; [| exact (Hall x Hx)].
      rewrite Hv. apply in_or_app. left. apply in_or_app. right. left. reflexivity.
Qed.

Section Candidates.

Context {P : Platform}.

Lemma batches_aux_nth {A} fuel : forall (l : list A) i,
  (length l <= fuel)%nat ->
  nth_error (batches_aux fuel l) i
  = if (i * 5 <? length l)%nat then Some (firstn 5 (skipn (i * 5) l)) else None.
Proof.
  induction fuel as [| fuel IH]; intros l i Hl.
  - destruct l; [| cbn in Hl; lia]. cbn [batches_aux length].
    destruct (Nat.ltb_spec (i * 5) 0); [lia |]. destruct i; reflexivity.
  - destruct l as [| a l].
    + cbn [batches_aux length].
      destruct (Nat.ltb_spec (i * 5) 0); [lia |]. destruct i; reflexivity.
    + cbn [batches_aux]. unfold BATCH_SIZE. destruct i as [| j].
      * reflexivity.
      * cbn [nth_error]. rewrite IH.
        -- rewrite length_skipn, skipn_skipn.
           replace (S j * 5)%nat with (j * 5 + 5)%nat by lia.
           destruct (Nat.ltb_spec (j * 5) (length (a :: l) - 5));
             destruct (Nat.ltb_spec (j * 5 + 5) (length (a :: l))); try lia; reflexivity.
        -- rewrite length_skipn. cbn [length] in *. lia.
Qed.

(** X2. The batches of a list are its slices [l.slice(i, i + 5)] for
    [i = 0, 5, 10, ...] below [l.length], and no others: every URL of the list
    is in exactly one batch, in its place, and a batch holds between one and
    five URLs. *)
Theorem batches_are_slices {A} (l : list A) :
  concat (batches l) = l
  /\ (forall i, nth_error (batches l) i
                = if (i * 5 <? length l)%nat
                  then Some (firstn 5 (skipn (i * 5) l)) else None)
  /\ Forall (fun b => (1 <= length b <= 5)%nat) (batches l).
Proof.
  split; [apply batches_concat |].
  assert (Hnth : forall i, nth_error (batches l) i
                 = if (i * 5 <? length l)%nat
                   then Some (firstn 5 (skipn (i * 5) l)) else None)
    by (intros i; apply batches_aux_nth; lia).
  split; [exact Hnth |].
  apply Forall_forall. intros b Hb.
  apply In_nth_error in Hb. destruct Hb as (i & Hi). rewrite Hnth in Hi.
  destruct (Nat.ltb_spec (i * 5) (length l)); [| discriminate].
  assert (E : b = firstn 5 (skipn (i * 5) l)) by congruence.
  change (1 <= length b <= 5)%nat.
  rewrite E, length_firstn, length_skipn. lia.
Qed.

Lemma discover_link_sound baseDomain visited link u :
  discover_link baseDomain visited link = Some u ->
  exists parsed,
    newURL link = Some parsed
    /\ Str.endsWith (Str.strip_www (hostname parsed)) baseDomain = true
    /\ u = origin parsed ++ Str.strip_trailing_slash (pathname parsed)
    /\ ~ In u visited
    /\ isRelevantUrl u = Some true.
Proof.
  unfold discover_link. destruct (newURL link) as [parsed |]; [| discriminate].
  destruct (Str.endsWith _ baseDomain) eqn:He; cbn [negb]; [| discriminate].
  destruct (set_has visited _) eqn:Hv; [discriminate |].
  destruct (isRelevantUrl _) as [[|] |] eqn:Hr; try discriminate.
  intros E. injection E as <-. exists parsed.
  split; [reflexivity |]. split; [exact He |]. split; [reflexivity |].
  split; [apply set_has_false; exact Hv | exact Hr].
Qed.

Lemma uniqueDiscovered_inv origin_ baseDomain st u :
  In u (uniqueDiscovered origin_ baseDomain st) ->
  exists key body link parsed,
    In (key, body) (f_pages st)
    /\ In link (findLinks body origin_)
    /\ newURL link = Some parsed
    /\ Str.endsWith (Str.strip_www (hostname parsed)) baseDomain = true
    /\ u = origin parsed ++ Str.strip_trailing_slash (pathname parsed)
    /\ ~ In u (f_visited st)
    /\ isRelevantUrl u = Some true.
Proof.
  intros Hu. unfold uniqueDiscovered in Hu.
  apply (subseq_incl _ _ (slice0_subseq _ _)) in Hu.
  apply (proj1 (dedupe_In _ _)) in Hu. unfold discoveredUrls in Hu.
  apply in_flat_map in Hu. destruct Hu as ([key body] & Hkv & Hu).
  apply in_flat_map in Hu. destruct Hu as (link & Hlink & Hu).
  cbn [snd] in *.
  destruct (discover_link baseDomain (f_visited st) link) as [v |] eqn:Hd;
    [| destruct Hu].
  destruct Hu as [<- | []].
  destruct (discover_link_sound _ _ _ _ Hd) as (parsed & H1 & H2 & H3 & H4 & H5).
  exists key, body, link, parsed. repeat split; assumption.
Qed.

Lemma uniqueDiscovered_NoDup origin_ baseDomain st :
  NoDup (uniqueDiscovered origin_ baseDomain st).
Proof.
  unfold uniqueDiscovered.
  exact (subseq_NoDup _ _ (slice0_subseq _ _) (dedupe_NoDup _)).
Qed.

(** X3. What Phase 2 lets through. The candidates of Phase 3 are pairwise
    distinct, and each of them comes from a link found on a stored page such
    that [new URL(link)] parses; its host, after one leading [www.] is taken
    off if there is one, ends with the base domain; the candidate is its
    origin followed by its path, from which one final slash is taken off if
    there is one; the candidate was not visited before; and [isRelevantUrl]
    accepts it. *)
Theorem candidates_are_sound origin_ baseDomain st u :
  In u (uniqueDiscovered origin_ baseDomain st) ->
  NoDup (uniqueDiscovered origin_ baseDomain st)
  /\ exists key body link parsed linkDomain sub path,
       In (key, body) (f_pages st)
       /\ In link (findLinks body origin_)
       /\ newURL link = Some parsed
       /\ (hostname parsed = "www." ++ linkDomain
           \/ (hostname parsed = linkDomain /\ forall d, linkDomain <> "www." ++ d))
       /\ linkDomain = sub ++ baseDomain
       /\ (pathname parsed = path ++ "/"
           \/ (pathname parsed = path /\ forall q, path <> q ++ "/"))
       /\ u = origin parsed ++ path
       /\ ~ In u (f_visited st)
       /\ isRelevantUrl u = Some true.
Proof.
  intros Hu. split; [apply uniqueDiscovered_NoDup |].
  destruct (uniqueDiscovered_inv _ _ _ _ Hu)
    as (key & body & link & parsed & Hkv & Hlink & Hparsed & Hends & Hnorm & Hfresh & Hrel).
  apply endsWith_spec in Hends. destruct Hends as (sub & Hsub).
  exists key, body, link, parsed, (Str.strip_www (hostname parsed)), sub,
    (Str.strip_trailing_slash (pathname parsed)).
  split; [exact Hkv |]. split; [exact Hlink |]. split; [exact Hparsed |].
  split.
  { destruct (strip_www_spec (hostname parsed)) as [(d & E & Hd) | (Hs & Hno)].
    - left. rewrite Hd. exact E.
    - right. rewrite Hs. split; [reflexivity | exact Hno]. }
  split; [exact Hsub |].
  split.
  { destruct (strip_trailing_slash_spec (pathname parsed)) as [(q & E & Hq) | (Hs & Hno)].
    - left. rewrite Hq. exact E.
    - right. rewrite Hs. split; [reflexivity | exact Hno]. }
  split; [exact Hnorm |]. split; [exact Hfresh | exact Hrel].
Qed.


End Candidates.

Section CrawlRun.

Context {P : Platform}.

Lemma phase1_trace origin_ baseDomain s fr1 s1 :
  phase1 origin_ baseDomain s = (inr fr1, s1) ->
  exists uniqueSeeds,
    crawl_step uniqueSeeds (empty_frontier uniqueSeeds) fr1 s s1
    /\ f_visited fr1 = uniqueSeeds
    /\ NoDup uniqueSeeds
    /\ (length uniqueSeeds <= 28)%nat.
Proof.
  unfold phase1. intros H.
  pose proof (filter_unvisited_spec (allSeeds origin_ baseDomain) []) as Hf.
  destruct (filter_unvisited (allSeeds origin_ baseDomain) []) as [uniqueSeeds visited].
  destruct Hf as (Hv & Hnd & Hs & _ & _). cbn [app] in Hv. subst visited.
  destruct (phase1_loop_step _ _ _ _ _ _ H) as [Hstep Hvis].
  rewrite batches_concat in Hstep. cbn [f_visited] in Hvis.
  exists uniqueSeeds. split; [exact Hstep |]. split; [exact Hvis |].
  split; [exact Hnd |].
  apply subseq_length in Hs. rewrite allSeeds_length in Hs. exact Hs.
Qed.

(** A crawl that returns has gone through a duplicate-free list of at most 58
    URLs, in order: the seeds, then the candidates of Phase 2. *)
Lemma crawl_trace origin_ baseDomain s fr s' :
  crawl origin_ baseDomain s = (inr fr, s') ->
  exists urls,
    NoDup urls /\ (length urls <= 58)%nat
    /\ crawl_step urls (empty_frontier []) fr s s'.
Proof.
  unfold crawl. intros H.
  apply bind_inr in H. destruct H as (fr1 & s1 & H1 & H3).
  destruct (phase1_bound _ _ _ _ _ H1) as ([Hsz _] & Hlen1).
  destruct (phase1_trace _ _ _ _ _ H1) as (uniqueSeeds & Hstep1 & Hvis & Hnd & Hlen).
  apply phase3_loop_step in H3. rewrite batches_concat in H3.
  pose proof (uniqueDiscovered_length origin_ baseDomain fr1) as Hd.
  exists (uniqueSeeds ++ uniqueDiscovered origin_ baseDomain fr1)%list.
  split.
  - apply NoDup_app.
    + exact Hnd.
    + apply uniqueDiscovered_NoDup.
    + intros u Hu Hu'.
      destruct (uniqueDiscovered_inv origin_ baseDomain fr1 u Hu')
        as (_ & _ & _ & _ & _ & _ & _ & _ & _ & Hfresh & _).
      apply Hfresh. rewrite Hvis. exact Hu.
  - split; [rewrite length_app; lia |].
    exact (crawl_step_app _ _ _ _ _ _ _ _ Hstep1 H3).
Qed.

Lemma fetchPage_shape u t retries st r st' :
  fetchPage u t retries st = (inr r, st') ->
  exists m,
    (m + length (match r with Some resp => [answered_call u t resp] | None => [] end)
     <= S retries)%nat
    /\ calls st' = (calls st ++ repeat (failed_call u t) m
                             ++ match r with
                                | Some resp => [answered_call u t resp]
                                | None => []
                                end)%list.
Proof.
  intros Hrun.
  destruct (fetchPage_loop_trace (S retries) u t st) as (r' & st'' & m & Hrun' & Hr).
  unfold fetchPage in Hrun. rewrite Hrun in Hrun'. injection Hrun' as <- <-.
  exists m. destruct r as [resp |].
  - destruct Hr as [Hm Hc]. split; [cbn [length]; lia | exact Hc].
  - destruct Hr as [-> Hc]. split; [cbn [length]; lia |].
    rewrite app_nil_r. exact Hc.
Qed.

Lemma probe_loop_trace origin_ paths : forall st probe st',
  probe_loop origin_ paths st = (inr probe, st') ->
  exists new,
    calls st' = (calls st ++ new)%list
    /\ (length new <= 3 * length paths)%nat
    /\ (forall k, In k new -> c_timeout k = PROBE_TIMEOUT)
    /\ match probe with
       | Some p =>
           exists tried rest earlier resp,
             paths = (tried ++ p :: rest)%list
             /\ new = (earlier ++ [answered_call (origin_ ++ p) PROBE_TIMEOUT resp])%list
             /\ (forall k, In k earlier ->
                   is_spec (c_result k) = false
                   /\ exists q, In q (tried ++ [p])%list /\ c_url k = origin_ ++ q)
             /\ status resp = 200%Z
             /\ Str.includes (html resp) (dquote ++ "openapi" ++ dquote) = true
       | None =>
           forall k, In k new ->
             is_spec (c_result k) = false
             /\ exists q, In q paths /\ c_url k = origin_ ++ q
       end.
Proof.
  induction paths as [| p paths IH]; intros st probe st' H.
  - cbn in H. unfold ret in H. injection H as <- <-.
    exists []. rewrite app_nil_r. split; [reflexivity |]. split; [cbn; lia |].
    split; intros k [].
  - cbn [probe_loop] in H.
    apply bind_inr in H. destruct H as (r & st1 & Hf & H).
    destruct (fetchPage_shape _ _ _ _ _ _ Hf) as (m & Hm & Hc1).
    unfold DEFAULT_RETRIES in Hm.
    assert (Hfail : forall k, In k (repeat (failed_call (origin_ ++ p) PROBE_TIMEOUT) m) ->
              c_timeout k = PROBE_TIMEOUT /\ is_spec (c_result k) = false
              /\ c_url k = origin_ ++ p).
    { intros k Hk. apply repeat_spec in Hk. subst k. repeat split. }
    destruct (is_spec r) eqn:Hr.
    + unfold ret in H. injection H as <- <-.
      destruct r as [resp |]; [| discriminate Hr].
      cbn [is_spec] in Hr. apply andb_prop in Hr. destruct Hr as [Hs Hi].
      exists (repeat (failed_call (origin_ ++ p) PROBE_TIMEOUT) m
              ++ [answered_call (origin_ ++ p) PROBE_TIMEOUT resp])%list.
      split; [exact Hc1 |].
      split; [rewrite length_app, repeat_length in *; cbn [length] in *; lia |].
      split.
      { intros k Hk. apply in_app_or in Hk. destruct Hk as [Hk | [<- | []]].
        - exact (proj1 (Hfail k Hk)).
        - reflexivity. }
      exists [], paths, (repeat (failed_call (origin_ ++ p) PROBE_TIMEOUT) m), resp.
      split; [reflexivity |]. split; [reflexivity |].
      split.
      { intros k Hk. destruct (Hfail k Hk) as (_ & Hns & Hu).
        split; [exact Hns |]. exists p. split; [left; reflexivity | exact Hu]. }
      split; [apply Z.eqb_eq; exact Hs | exact Hi].
    + destruct (IH _ _ _ H) as (new2 & Hc2 & Hlen2 & Hall2 & Hp).
      set (new1 := (repeat (failed_call (origin_ ++ p) PROBE_TIMEOUT) m
                    ++ match r with
                       | Some resp => [answered_call (origin_ ++ p) PROBE_TIMEOUT resp]
                       | None => []
                       end)%list) in *.
      assert (Hnew1 : forall k, In k new1 ->
                c_timeout k = PROBE_TIMEOUT /\ is_spec (c_result k) = false
                /\ c_url k = origin_ ++ p).
      { intros k Hk. apply in_app_or in Hk. destruct Hk as [Hk | Hk].
        - exact (Hfail k Hk).
        - destruct r as [resp |]; [| destruct Hk].
          destruct Hk as [<- | []]. repeat split. exact Hr. }
      assert (Hlen1 : (length new1 <= 3)%nat).
      { unfold new1. rewrite length_app, repeat_length. exact Hm. }
      exists (new1 ++ new2)%list.
      split; [rewrite Hc2, Hc1, <- !app_assoc; reflexivity |].
      split; [rewrite length_app; cbn [length]; lia |].
      split.
      { intros k Hk. apply in_app_or in Hk. destruct Hk as [Hk | Hk].
        - exact (proj1 (Hnew1 k Hk)).
        - exact (Hall2 k Hk). }
      destruct probe as [q |].
      * destruct Hp as (tried & rest & earlier & resp & Hpaths & Hnew & Hearlier & Hst & Hinc).
        exists (p :: tried), rest, (new1 ++ earlier)%list, resp.
        split; [cbn [app]; rewrite Hpaths; reflexivity |].
        split; [rewrite Hnew, app_assoc; reflexivity |].
        split.
        { intros k Hk. apply in_app_or in Hk. destruct Hk as [Hk | Hk].
          - destruct (Hnew1 k Hk) as (_ & Hns & Hu).
            split; [exact Hns |]. exists p. split; [left; reflexivity | exact Hu].
          - destruct (Hearlier k Hk) as (Hns & q' & Hq' & E).
            split; [exact Hns |]. exists q'. split; [right; exact Hq' | exact E]. }
        split; [exact Hst | exact Hinc].
      * intros k Hk. apply in_app_or in Hk. destruct Hk as [Hk | Hk].
        -- destruct (Hnew1 k Hk) as (_ & Hns & Hu).
           split; [exact Hns |]. exists p. split; [left; reflexivity | exact Hu].
        -- destruct (Hp k Hk) as (Hns & q' & Hq' & E).
           split; [exact Hns |]. exists q'. split; [right; exact Hq' | exact E].
Qed.

(** The calls one [fetchPage] makes: failures, then the response if any. *)
Lemma fetchPage_block u t retries st r st' :
  fetchPage u t retries st = (inr r, st') ->
  exists b,
    calls st' = (calls st ++ b)%list
    /\ match r with
       | Some resp =>
           exists m, (m <= retries)%nat
             /\ b = (repeat (failed_call u t) m ++ [answered_call u t resp])%list
       | None => b = repeat (failed_call u t) (S retries)
       end.
Proof.
  intros Hrun.
  destruct (fetchPage_loop_trace (S retries) u t st) as (r' & st'' & m & Hrun' & Hr).
  unfold fetchPage in Hrun. rewrite Hrun in Hrun'. injection Hrun' as <- <-.
  destruct r as [resp |].
  - destruct Hr as [Hm Hc]. eexists. split; [exact Hc |].
    exists m. split; [lia | reflexivity].
  - destruct Hr as [_ Hc]. eexists. split; [exact Hc | reflexivity].
Qed.

(** The log of the probe, path by path: the paths tried, in order, each with
    the calls of its [fetchPage]; the probe goes on to the next path exactly
    when the response, if any, is not a spec. *)
Lemma probe_loop_blocks origin_ paths : forall st probe st',
  probe_loop origin_ paths st = (inr probe, st') ->
  exists tried rest blocks,
    paths = (tried ++ rest)%list
    /\ calls st' = (calls st ++ concat blocks)%list
    /\ Forall2 (fun p b =>
                  b = repeat (failed_call (origin_ ++ p) PROBE_TIMEOUT) (S DEFAULT_RETRIES)
                  \/ exists m resp,
                       (m <= DEFAULT_RETRIES)%nat
                       /\ b = (repeat (failed_call (origin_ ++ p) PROBE_TIMEOUT) m
                               ++ [answered_call (origin_ ++ p) PROBE_TIMEOUT resp])%list)
               tried blocks
    /\ match probe with
       | Some p =>
           exists tried0 blocks0 m resp,
             tried = (tried0 ++ [p])%list
             /\ blocks = (blocks0
                          ++ [repeat (failed_call (origin_ ++ p) PROBE_TIMEOUT) m
                              ++ [answered_call (origin_ ++ p) PROBE_TIMEOUT resp]])%list
             /\ is_spec (Some resp) = true
             /\ (forall k, In k (concat blocks0) -> is_spec (c_result k) = false)
       | None =>
           rest = [] /\ forall k, In k (concat blocks) -> is_spec (c_result k) = false
       end.
Proof.
  induction paths as [| p paths IH]; intros st probe st' H.
  - cbn in H. unfold ret in H. injection H as <- <-.
    exists [], [], []. cbn. rewrite app_nil_r.
    split; [reflexivity |]. split; [reflexivity |]. split; [constructor |].
    split; [reflexivity | intros k []].
  - cbn [probe_loop] in H.
    apply bind_inr in H. destruct H as (r & st1 & Hf & H).
    destruct (fetchPage_block _ _ _ _ _ _ Hf) as (b & Hc1 & Hb).
    assert (Hshape :
              b = repeat (failed_call (origin_ ++ p) PROBE_TIMEOUT) (S DEFAULT_RETRIES)
              \/ exists m resp,
                   (m <= DEFAULT_RETRIES)%nat
                   /\ b = (repeat (failed_call (origin_ ++ p) PROBE_TIMEOUT) m
                           ++ [answered_call (origin_ ++ p) PROBE_TIMEOUT resp])%list).
    { destruct r as [resp |].
      - right. destruct Hb as (m & Hm & ->). exists m, resp. split; [exact Hm | reflexivity].
      - left. exact Hb. }
    destruct (is_spec r) eqn:Hr.
    + unfold ret in H. injection H as <- <-.
      destruct r as [resp |]; [| discriminate Hr].
      destruct Hb as (m & Hm & ->).
      exists [p], paths, [(repeat (failed_call (origin_ ++ p) PROBE_TIMEOUT) m
                           ++ [answered_call (origin_ ++ p) PROBE_TIMEOUT resp])%list].
      split; [reflexivity |].
      split; [cbn [concat]; rewrite app_nil_r; exact Hc1 |].
      split; [constructor; [exact Hshape | constructor] |].
      exists [], [], m, resp.
      split; [reflexivity |]. split; [reflexivity |]. split; [exact Hr | intros k []].
    + destruct (IH _ _ _ H) as (tried & rest & blocks & Hpaths & Hc2 & Hall & Hp).
      assert (Hnospec : forall k, In k b -> is_spec (c_result k) = false).
      { intros k Hk. destruct r as [resp |].
        - destruct Hb as (m & _ & ->). apply in_app_or in Hk.
          destruct Hk as [Hk | [<- | []]]; [| exact Hr].
          apply repeat_spec in Hk. subst k. reflexivity.
        - subst b. apply repeat_spec in Hk. subst k. reflexivity. }
      exists (p :: tried), rest, (b :: blocks).
      split; [cbn [app]; rewrite Hpaths; reflexivity |].
      split; [cbn [concat]; rewrite Hc2, Hc1, <- app_assoc; reflexivity |].
      split; [constructor; [exact Hshape | exact Hall] |].
      destruct probe as [q |].
      * destruct Hp as (tried0 & blocks0 & m & resp & Ht & Hbl & Hs & Hearlier).
        exists (p :: tried0), (b :: blocks0), m, resp.
        split; [cbn [app]; rewrite Ht; reflexivity |].
        split; [cbn [app]; rewrite Hbl; reflexivity |].
        split; [exact Hs |].
        intros k Hk. cbn [concat] in Hk. apply in_app_or in Hk.
        destruct Hk as [Hk | Hk]; [exact (Hnospec k Hk) | exact (Hearlier k Hk)].
      * destruct Hp as [Hrest Hno]. split; [exact Hrest |].
        intros k Hk. cbn [concat] in Hk. apply in_app_or in Hk.
        destruct Hk as [Hk | Hk]; [exact (Hnospec k Hk) | exact (Hno k Hk)].
Qed.

Lemma probe_loop_returns origin_ paths st :
  exists probe st', probe_loop origin_ paths st = (inr probe, st').
Proof.
  destruct (probe_loop_spec origin_ paths st) as (probe & st' & new & Hrun & _).
  exists probe, st'. exact Hrun.
Qed.

Lemma not_spec_response k :
  is_spec (c_result k) = false ->
  forall r, c_result k = Some r ->
    status r <> 200%Z
    \/ Str.includes (html r) (dquote ++ "openapi" ++ dquote) = false.
Proof.
  intros Hk r Hr. rewrite Hr in Hk. cbn [is_spec] in Hk.
  apply andb_false_iff in Hk. destruct Hk as [Hk | Hk].
  - left. apply Z.eqb_neq. exact Hk.
  - right. exact Hk.
Qed.


(** X4. The probe stops at the first spec. The loop over the spec paths
    always ends. It tries the paths in their order, each with at least one
    and at most three calls, all to that path and under the 3-second timer.
    When it reports a path, that is the last path it tried, the last call it
    made brought back status 200 with the quoted word [openapi] in the body,
    and no earlier call brought back such a response; the paths after the
    reported one are not requested. When it reports none, it has tried every
    path and no call brought back such a response. *)
Theorem probe_stops_at_first_spec origin_ paths st :
  exists probe st' tried rest blocks,
    probe_loop origin_ paths st = (inr probe, st')
    /\ paths = (tried ++ rest)%list
    /\ calls st' = (calls st ++ concat blocks)%list
    /\ Forall2 (fun p b =>
                  (1 <= length b <= 3)%nat
                  /\ forall k, In k b -> c_url k = origin_ ++ p /\ c_timeout k = 3000%Z)
               tried blocks
    /\ match probe with
       | Some p =>
           exists tried0 earlier resp,
             tried = (tried0 ++ [p])%list
             /\ concat blocks
                = (earlier ++ [answered_call (origin_ ++ p) 3000 resp])%list
             /\ status resp = 200%Z
             /\ Str.includes (html resp) (dquote ++ "openapi" ++ dquote) = true
             /\ (forall k, In k earlier ->
                   forall r, c_result k = Some r ->
                     status r <> 200%Z
                     \/ Str.includes (html r) (dquote ++ "openapi" ++ dquote) = false)
       | None =>
           rest = []
           /\ forall k, In k (concat blocks) ->
                forall r, c_result k = Some r ->
                  status r <> 200%Z
                  \/ Str.includes (html r) (dquote ++ "openapi" ++ dquote) = false
       end.
Proof.
  destruct (probe_loop_returns origin_ paths st) as (probe & st' & Hrun).
  destruct (probe_loop_blocks _ _ _ _ _ Hrun)
    as (tried & rest & blocks & Hpaths & Hc & Hall & Hp).
  exists probe, st', tried, rest, blocks.
  split; [exact Hrun |]. split; [exact Hpaths |]. split; [exact Hc |].
  split.
  - clear Hp Hc Hpaths. induction Hall as [| p b tried blocks Hb Hall IH]; constructor.
    + destruct Hb as [-> | (m & resp & Hm & ->)].
      * split; [rewrite repeat_length; unfold DEFAULT_RETRIES; lia |].
        intros k Hk. apply repeat_spec in Hk. subst k. split; reflexivity.
      * split.
        { rewrite length_app, repeat_length. cbn [length].
          unfold DEFAULT_RETRIES in Hm. lia. }
        intros k Hk. apply in_app_or in Hk. destruct Hk as [Hk | [<- | []]].
        -- apply repeat_spec in Hk. subst k. split; reflexivity.
        -- split; reflexivity.
    + exact IH.
  - destruct probe as [p |].
    + destruct Hp as (tried0 & blocks0 & m & resp & Ht & Hbl & Hs & Hearlier).
      cbn [is_spec] in Hs. apply andb_prop in Hs. destruct Hs as [Hs Hi].
      exists tried0,
        (concat blocks0 ++ repeat (failed_call (origin_ ++ p) PROBE_TIMEOUT) m)%list, resp.
      split; [exact Ht |].
      split.
      { rewrite Hbl, concat_app. cbn [concat]. rewrite app_nil_r, app_assoc. reflexivity. }
      split; [apply Z.eqb_eq; exact Hs |]. split; [exact Hi |].
      intros k Hk. apply in_app_or in Hk. destruct Hk as [Hk | Hk].
      * exact (not_spec_response k (Hearlier k Hk)).
      * apply repeat_spec in Hk. subst k. intros r Hr. discriminate Hr.
    + destruct Hp as [Hrest Hno]. split; [exact Hrest |].
      intros k Hk. exact (not_spec_response k (Hno k Hk)).
Qed.

Lemma score_run_trace baseUrl st r st' :
  score_run baseUrl st = (inr r, st') ->
  exists fr st1 probe st2 uuid now,
    crawl (origin baseUrl) (Str.strip_www (hostname baseUrl)) st = (inr fr, st1)
    /\ probe_loop (origin baseUrl) OPENAPI_PATHS st1 = (inr probe, st2)
    /\ r = result_of baseUrl fr probe uuid now
    /\ calls st' = calls st2.
Proof.
  unfold score_run. intros H.
  apply bind_inr in H. destruct H as (fr & st1 & Hc & H).
  apply bind_inr in H. destruct H as (probe & st2 & Hp & H).
  apply bind_inr in H. destruct H as (uuid & st3 & Hu & H).
  apply bind_inr in H. destruct H as (now & st4 & Hn & H).
  unfold ret in H. injection H as <- <-.
  exists fr, st1, probe, st2, uuid, now.
  split; [exact Hc |]. split; [exact Hp |]. split; [reflexivity |].
  destruct (randomUUID (world st2)) as [u w]. injection Hu as _ <-.
  cbn [world calls] in Hn.
  destruct (nowISOString w) as [t w']. injection Hn as _ <-. reflexivity.
Qed.

Lemma scoreUrl_trace inputUrl st r st' :
  scoreUrl inputUrl st = (inr r, st') ->
  exists baseUrl fr st1 probe st2 uuid now,
    normalize inputUrl = inr baseUrl
    /\ crawl (origin baseUrl) (Str.strip_www (hostname baseUrl)) st = (inr fr, st1)
    /\ probe_loop (origin baseUrl) OPENAPI_PATHS st1 = (inr probe, st2)
    /\ r = result_of baseUrl fr probe uuid now
    /\ calls st' = calls st2.
Proof.
  unfold scoreUrl. intros H.
  apply bind_inr in H. destruct H as (baseUrl & st0 & Hn & H).
  unfold lift in Hn. injection Hn as Hn <-.
  apply score_run_trace in H.
  destruct H as (fr & st1 & probe & st2 & uuid & now & H).
  exists baseUrl, fr, st1, probe, st2, uuid, now. tauto.
Qed.

(** X5. The request budget of a run. A call of [scoreUrl] that returns a
    result has made at most 186 requests: three attempts at each of at most
    28 seeds and 30 discovered URLs, under the 12-second timer, and three at
    each of the four spec paths, under the 3-second timer. *)
Theorem scoreUrl_request_budget inputUrl st r st' :
  scoreUrl inputUrl st = (inr r, st') ->
  exists new,
    calls st' = (calls st ++ new)%list
    /\ (length new <= 186)%nat
    /\ (forall k, In k new -> c_timeout k = 12000%Z \/ c_timeout k = 3000%Z).
Proof.
  intros H. apply scoreUrl_trace in H.
  destruct H as (baseUrl & fr & st1 & probe & st2 & uuid & now & _ & Hc & Hp & _ & Hfin).
  destruct (crawl_trace _ _ _ _ _ Hc)
    as (urls & _ & Hlen & picked & new1 & _ & _ & Hc1 & Hl1 & Ha1 & _).
  destruct (probe_loop_trace _ _ _ _ _ Hp) as (new2 & Hc2 & Hl2 & Ha2 & _).
  exists (new1 ++ new2)%list.
  split; [rewrite Hfin, Hc2, Hc1, app_assoc; reflexivity |].
  split; [rewrite length_app; cbn [OPENAPI_PATHS length] in Hl2; lia |].
  intros k Hk. apply in_app_or in Hk. destruct Hk as [Hk | Hk].
  - left. exact (proj1 (Ha1 k Hk)).
  - right. exact (Ha2 k Hk).
Qed.

(** X6. What [crawledPages] lists. In a result that [scoreUrl] returns, no
    URL is listed twice, there are at most 57 of them, and each one was
    answered during the run, under the 12-second timer, by a response with a
    status below 400. *)
Theorem crawledPages_distinct_and_answered inputUrl st r st' :
  scoreUrl inputUrl st = (inr r, st') ->
  NoDup (crawledPages r)
  /\ (length (crawledPages r) <= 57)%nat
  /\ forall u, In u (crawledPages r) ->
       exists before resp after_,
         calls st' = (calls st ++ before
                        ++ answered_call u DEFAULT_TIMEOUT resp :: after_)%list
         /\ (status resp < 400)%Z.
Proof.
  intros H. apply scoreUrl_trace in H.
  destruct H as (baseUrl & fr & st1 & probe & st2 & uuid & now & _ & Hc & Hp & -> & Hfin).
  unfold result_of, assemble. cbn [crawledPages].
  destruct (crawl_trace _ _ _ _ _ Hc)
    as (urls & Hnd & _ & picked & new1 & Hpick & Hsub & Hc1 & _ & _ & Hans).
  cbn [empty_frontier f_crawledPages app] in Hpick. rewrite Hpick.
  split; [exact (subseq_NoDup _ _ Hsub Hnd) |].
  split.
  - destruct (crawl_bounds _ _ _ _ _ Hc) as (fr1 & s1 & H1 & _ & _ & Hb1 & Hb).
    destruct (phase1_bound _ _ _ _ _ H1) as ([_ Hempty] & _).
    rewrite <- Hpick. unfold PageMap.size in *.
    destruct (f_pages fr1) as [| kv pages1].
    + rewrite (proj1 Hempty eq_refl) in Hb. cbn [length] in Hb. lia.
    + cbn [length] in Hb, Hb1. lia.
  - intros u Hu. destruct (Hans u Hu) as (resp & Hin & Hst).
    destruct (probe_loop_trace _ _ _ _ _ Hp) as (new2 & Hc2 & _).
    apply in_split in Hin. destruct Hin as (l1 & l2 & ->).
    exists l1, resp, (l2 ++ new2)%list. split; [| exact Hst].
    rewrite Hfin, Hc2, Hc1, <- !app_assoc. reflexivity.
Qed.

End CrawlRun.

(** ** What makes a run throw *)

Section NoThrow.

Context {P : Platform}.

Lemma phase1_results_total origin_ results : forall st,
  (forall u, In u (map fst results) ->
     Str.startsWith u origin_ = true -> newURL u <> None) ->
  exists st', phase1_results origin_ results st = inr st'.
Proof.
  induction results as [| [fullUrl result] results IH]; intros st Hok.
  - exists st. reflexivity.
  - cbn [phase1_results].
    assert (Hrest : forall u, In u (map fst results) ->
              Str.startsWith u origin_ = true -> newURL u <> None)
      by (intros u Hu; apply Hok; right; exact Hu).
    destruct (usable result) as [r |]; [| exact (IH st Hrest)].
    unfold phase1_key.
    destruct (Str.startsWith fullUrl origin_) eqn:Hs; [| exact (IH _ Hrest)].
    destruct (newURL fullUrl) as [u |] eqn:Hu; [exact (IH _ Hrest) |].
    exfalso. exact (Hok fullUrl (or_introl eq_refl) Hs Hu).
Qed.

Lemma phase1_loop_total origin_ bs : forall st s,
  (forall u, In u (concat bs) ->
     Str.startsWith u origin_ = true -> newURL u <> None) ->
  exists st' s', phase1_loop origin_ bs st s = (inr st', s').
Proof.
  induction bs as [| batch bs IH]; intros st s Hok.
  - exists st, s. reflexivity.
  - cbn [phase1_loop]. unfold bind.
    destruct (fetch_batch_total batch s) as (results & s1 & -> & Hfst).
    destruct (phase1_results_total origin_ results st) as (st1 & Hr).
    { intros u Hu. rewrite Hfst in Hu. apply Hok. cbn [concat].
      apply in_or_app. left. exact Hu. }
    unfold lift. rewrite Hr.
    apply IH. intros u Hu. apply Hok. cbn [concat]. apply in_or_app. right. exact Hu.
Qed.

Lemma phase3_results_total results : forall st,
  (forall u, In u (map fst results) -> newURL u <> None) ->
  exists st', phase3_results results st = inr st'.
Proof.
  induction results as [| [url_ result] results IH]; intros st Hok.
  - exists st. reflexivity.
  - cbn [phase3_results].
    assert (Hrest : forall u, In u (map fst results) -> newURL u <> None)
      by (intros u Hu; apply Hok; right; exact Hu).
    destruct (at_cap st); [exists st; reflexivity |].
    destruct (usable result) as [r |]; [| exact (IH st Hrest)].
    destruct (newURL url_) as [u |] eqn:Hu; [exact (IH _ Hrest) |].
    exfalso. exact (Hok url_ (or_introl eq_refl) Hu).
Qed.

Lemma phase3_loop_total bs : forall st s,
  (forall u, In u (concat bs) -> newURL u <> None) ->
  exists st' s', phase3_loop bs st s = (inr st', s').
Proof.
  induction bs as [| batch bs IH]; intros st s Hok.
  - exists st, s. reflexivity.
  - cbn [phase3_loop]. destruct (at_cap st); [exists st, s; reflexivity |].
    unfold bind.
    destruct (fetch_batch_total batch s) as (results & s1 & -> & Hfst).
    match goal with
    | |- context [phase3_results results ?fr] =>
        destruct (phase3_results_total results fr) as (st1 & Hr)
    end.
    { intros u Hu. rewrite Hfst in Hu. apply Hok. cbn [concat].
      apply in_or_app. left. exact Hu. }
    unfold lift. rewrite Hr.
    apply IH. intros u Hu. apply Hok. cbn [concat]. apply in_or_app. right. exact Hu.
Qed.

Lemma relevant_parses u : isRelevantUrl u = Some true -> newURL u <> None.
Proof. unfold isRelevantUrl. destruct (newURL u); [discriminate | discriminate]. Qed.

Lemma crawl_total origin_ baseDomain s :
  (forall u, In u (allSeeds origin_ baseDomain) ->
     Str.startsWith u origin_ = true -> newURL u <> None) ->
  exists fr s', crawl origin_ baseDomain s = (inr fr, s').
Proof.
  intros Hok. unfold crawl, bind, phase1.
  pose proof (filter_unvisited_spec (allSeeds origin_ baseDomain) []) as Hf.
  destruct (filter_unvisited (allSeeds origin_ baseDomain) []) as [uniqueSeeds visited].
  destruct Hf as (_ & _ & Hsub & _).
  match goal with
  | |- context [phase1_loop origin_ (batches uniqueSeeds) ?fr s] =>
      destruct (phase1_loop_total origin_ (batches uniqueSeeds) fr s) as (fr1 & s1 & ->)
  end.
  { intros u Hu. rewrite batches_concat in Hu. apply Hok.
    exact (subseq_incl _ _ Hsub u Hu). }
  apply phase3_loop_total. intros u Hu. rewrite batches_concat in Hu.
  destruct (uniqueDiscovered_inv _ _ _ _ Hu) as (_ & _ & _ & _ & _ & _ & _ & _ & _ & _ & Hrel).
  exact (relevant_parses u Hrel).
Qed.

(** X7. An accepted input always gets a result. Once the input is
    normalised, [scoreUrl] returns a result, whatever the network does,
    provided [new URL] accepts every seed that starts with the origin (the
    call in Phase 1 that no [try] guards). The call of [new URL] in Phase 3
    cannot throw: a candidate got there through [isRelevantUrl], which
    parsed it. *)
Theorem accepted_input_always_scores inputUrl baseUrl st :
  normalize inputUrl = inr baseUrl ->
  (forall u, In u (allSeeds (origin baseUrl) (Str.strip_www (hostname baseUrl))) ->
     Str.startsWith u (origin baseUrl) = true -> newURL u <> None) ->
  exists r st', scoreUrl inputUrl st = (inr r, st').
Proof.
  intros Hn Hok.
  destruct (crawl_total _ _ st Hok) as (fr & s1 & Hc).
  destruct (scoreUrl_returns inputUrl baseUrl st fr s1 Hn Hc)
    as (probe & st2 & uuid & now & st' & _ & Hrun).
  exists (result_of baseUrl fr probe uuid now), st'. exact Hrun.
Qed.

End NoThrow.

Lemma accepted_input_always_scores_witness :
  exists r st',
    scoreUrl (P := Web.platform) "example.com" (start Sites.dead) = (inr r, st').
Proof.
  apply (accepted_input_always_scores (P := Web.platform) "example.com"
           {| Web.scheme := "https"; Web.host := "example.com"; Web.port := EmptyString;
              Web.path := "/"; Web.query := EmptyString; Web.fragment := EmptyString |}
           (start Sites.dead)).
  - reflexivity.
  - intros u Hin _. vm_compute in Hin.
    repeat (destruct Hin as [<- | Hin]; [vm_compute; discriminate |]).
    destruct Hin.
Defined.

(** ** The rubric as a whole *)

Ltac shape f := cbv beta delta [f]; repeat step; vm_compute; split; reflexivity.

Section RubricShape.

Variable c : Corpus.

Lemma disc_api_untagged : untagged 3 (disc_api c).
Proof. shape disc_api. Qed.

Lemma disc_pricing_untagged : untagged 3 (disc_pricing c).
Proof. shape disc_pricing. Qed.

Lemma disc_directories_untagged : untagged 2 (disc_directories c).
Proof. shape disc_directories. Qed.

Lemma disc_metadata_untagged probe : untagged 2 (disc_metadata c probe).
Proof. destruct probe; shape disc_metadata. Qed.

Lemma purch_billing_untagged : untagged 2 (purch_billing c).
Proof. shape purch_billing. Qed.

Lemma purch_crypto_untagged : untagged 2 (purch_crypto c).
Proof. shape purch_crypto. Qed.

Lemma purch_protocols_untagged : untagged 2 (purch_protocols c).
Proof. shape purch_protocols. Qed.

Lemma int_mcp_untagged : untagged 3 (int_mcp c).
Proof. shape int_mcp. Qed.

Lemma int_structured_untagged : untagged 3 (int_structured c).
Proof. shape int_structured. Qed.

Lemma int_sandbox_untagged : untagged 2 (int_sandbox c).
Proof. shape int_sandbox. Qed.

Lemma int_ratelimits_untagged : untagged 2 (int_ratelimits c).
Proof. shape int_ratelimits. Qed.

Lemma trust_pricing_untagged : untagged 3 (trust_pricing c).
Proof. shape trust_pricing. Qed.

Lemma trust_spend_untagged : untagged 3 (trust_spend c).
Proof. shape trust_spend. Qed.

Lemma trust_sla_untagged : untagged 2 (trust_sla c).
Proof. shape trust_sla. Qed.

Lemma trust_tos_untagged : untagged 2 (trust_tos c).
Proof. shape trust_tos. Qed.

Lemma purch_captcha_max : has_max 2 (purch_captcha c).
Proof. evaluator purch_captcha. Qed.

End RubricShape.

Lemma sum_subScores_app l1 l2 :
  sum_subScores (l1 ++ l2) = (sum_subScores l1 + sum_subScores l2)%Z.
Proof.
  unfold sum_subScores at 1. rewrite fold_left_app.
  rewrite sum_subScores_shift. reflexivity.
Qed.

Lemma score_category_exact cat :
  (forall s, In s (CategoryScore.subScores cat) -> in_range s) ->
  fold_right (fun s acc => (SubScore.maxPoints s + acc)%Z) 0%Z (CategoryScore.subScores cat)
  = CategoryScore.maxPoints cat ->
  CategoryScore.score (score_category cat) = sum_subScores (CategoryScore.subScores cat).
Proof.
  intros Hr Hm. rewrite score_category_spec.
  pose proof (sum_subScores_bounds _ Hr). lia.
Qed.

Lemma build_categories_maxima c probe cat :
  In cat (build_categories c probe) ->
  fold_right (fun s acc => (SubScore.maxPoints s + acc)%Z) 0%Z (CategoryScore.subScores cat)
  = CategoryScore.maxPoints cat.
Proof.
  unfold build_categories.
  intros [<- | [<- | [<- | [<- | []]]]]; cbn [CategoryScore.subScores CategoryScore.maxPoints fold_right].
  - rewrite (proj1 (disc_api_untagged c)), (proj1 (disc_pricing_untagged c)),
      (proj1 (disc_directories_untagged c)), (proj1 (disc_metadata_untagged c probe)).
    reflexivity.
  - rewrite (purch_signup_max c), (purch_captcha_max c),
      (proj1 (purch_billing_untagged c)), (proj1 (purch_crypto_untagged c)),
      (proj1 (purch_protocols_untagged c)).
    reflexivity.
  - rewrite (proj1 (int_mcp_untagged c)), (proj1 (int_structured_untagged c)),
      (proj1 (int_sandbox_untagged c)), (proj1 (int_ratelimits_untagged c)).
    reflexivity.
  - rewrite (proj1 (trust_pricing_untagged c)), (proj1 (trust_spend_untagged c)),
      (proj1 (trust_sla_untagged c)), (proj1 (trust_tos_untagged c)).
    reflexivity.
Qed.

Lemma category_scores_exact c probe i u t cp e :
  map CategoryScore.name (categories (assemble c probe i u t cp e))
  = ["DISCOVERY"; "PURCHASE"; "INTEGRATION"; "TRUST"]
  /\ (forall cat, In cat (categories (assemble c probe i u t cp e)) ->
        fold_right (fun s acc => (SubScore.maxPoints s + acc)%Z) 0%Z
          (CategoryScore.subScores cat) = 10%Z
        /\ CategoryScore.maxPoints cat = 10%Z
        /\ CategoryScore.score cat = sum_subScores (CategoryScore.subScores cat))
  /\ totalScore (assemble c probe i u t cp e)
     = sum_subScores (flat_map CategoryScore.subScores
                        (categories (assemble c probe i u t cp e)))
  /\ maxScore (assemble c probe i u t cp e) = 40%Z.
Proof.
  assert (Hcat : forall cat, In cat (map score_category (build_categories c probe)) ->
            fold_right (fun s acc => (SubScore.maxPoints s + acc)%Z) 0%Z
              (CategoryScore.subScores cat) = 10%Z
            /\ CategoryScore.maxPoints cat = 10%Z
            /\ CategoryScore.score cat = sum_subScores (CategoryScore.subScores cat)).
  { intros cat Hin. apply in_map_iff in Hin. destruct Hin as (cat0 & <- & Hin).
    pose proof (build_categories_maxima c probe cat0 Hin) as Hm.
    pose proof (category_in_build_maxPoints c probe cat0 Hin) as H10.
    split; [rewrite subScores_score_category; congruence |].
    split; [exact H10 |].
    rewrite subScores_score_category.
    apply score_category_exact; [| exact Hm].
    intros s Hs. exact (category_in_build c probe cat0 s Hin Hs). }
  rewrite totalScore_assemble, categories_assemble.
  split; [reflexivity |]. split; [exact Hcat |]. split; [| reflexivity].
  revert Hcat. generalize (map score_category (build_categories c probe)).
  intros cats Hcat. rewrite sum_categories_scores.
  assert (Hshift : forall l a,
            (forall cat, In cat l ->
               CategoryScore.score cat = sum_subScores (CategoryScore.subScores cat)) ->
            fold_left Z.add (map CategoryScore.score l) a
            = (a + sum_subScores (flat_map CategoryScore.subScores l))%Z).
  { induction l as [| cat l IH]; intros a Hl; cbn [map fold_left flat_map].
    - unfold sum_subScores. cbn. lia.
    - rewrite IH by (intros x Hx; apply Hl; right; exact Hx).
      rewrite sum_subScores_app, (Hl cat (or_introl eq_refl)). lia. }
  rewrite Hshift; [reflexivity |].
  intros cat Hin. exact (proj2 (proj2 (Hcat cat Hin))).
Qed.

(** X8. The cap of a category never binds. In every result the categories
    are DISCOVERY, PURCHASE, INTEGRATION and TRUST, in this order; the maxima
    of a category's sub-scores add up to its own maximum, 10, so its score is
    the plain sum of the scores of its sub-scores; the total is the sum of
    the scores of all the sub-scores, out of 40. *)
Theorem category_score_is_exact_sum c probe i u t cp e :
  map CategoryScore.name (categories (assemble c probe i u t cp e))
  = ["DISCOVERY"; "PURCHASE"; "INTEGRATION"; "TRUST"]
  /\ (forall cat, In cat (categories (assemble c probe i u t cp e)) ->
        fold_right Z.add 0%Z (map SubScore.maxPoints (CategoryScore.subScores cat)) = 10%Z
        /\ CategoryScore.maxPoints cat = 10%Z
        /\ CategoryScore.score cat
           = fold_right Z.add 0%Z (map SubScore.score (CategoryScore.subScores cat)))
  /\ totalScore (assemble c probe i u t cp e)
     = fold_right Z.add 0%Z
         (map SubScore.score
            (flat_map CategoryScore.subScores (categories (assemble c probe i u t cp e))))
  /\ maxScore (assemble c probe i u t cp e) = 40%Z.
Proof.
  destruct (category_scores_exact c probe i u t cp e) as (Hn & Hc & Ht & Hm).
  split; [exact Hn |]. split; [| split; [| exact Hm]].
  - intros cat Hin. destruct (Hc cat Hin) as (H1 & H2 & H3).
    split; [| split; [exact H2 |]].
    + rewrite <- H1. clear. induction (CategoryScore.subScores cat) as [| s l IH];
        [reflexivity | cbn; rewrite IH; reflexivity].
    + rewrite H3. apply sum_subScores_spec.
  - rewrite Ht. apply sum_subScores_spec.
Qed.

Lemma untagged_no_friction m s ty : untagged m s -> has_friction ty s = false.
Proof. intros [_ H]. unfold has_friction. rewrite H. reflexivity. Qed.

Lemma friction_filter c probe ty :
  filter (has_friction ty)
    (flat_map CategoryScore.subScores (map score_category (build_categories c probe)))
  = filter (has_friction ty) [purch_signup c; purch_captcha c].
Proof.
  rewrite flat_map_subScores_scored, build_categories_subScores.
  cbn [filter].
  rewrite (untagged_no_friction _ _ ty (disc_api_untagged c)),
    (untagged_no_friction _ _ ty (disc_pricing_untagged c)),
    (untagged_no_friction _ _ ty (disc_directories_untagged c)),
    (untagged_no_friction _ _ ty (disc_metadata_untagged c probe)),
    (untagged_no_friction _ _ ty (purch_billing_untagged c)),
    (untagged_no_friction _ _ ty (purch_crypto_untagged c)),
    (untagged_no_friction _ _ ty (purch_protocols_untagged c)),
    (untagged_no_friction _ _ ty (int_mcp_untagged c)),
    (untagged_no_friction _ _ ty (int_structured_untagged c)),
    (untagged_no_friction _ _ ty (int_sandbox_untagged c)),
    (untagged_no_friction _ _ ty (int_ratelimits_untagged c)),
    (untagged_no_friction _ _ ty (trust_pricing_untagged c)),
    (untagged_no_friction _ _ ty (trust_spend_untagged c)),
    (untagged_no_friction _ _ ty (trust_sla_untagged c)),
    (untagged_no_friction _ _ ty (trust_tos_untagged c)).
  reflexivity.
Qed.

Lemma CAPTCHA_lowercase : lowercase CAPTCHA_KEYWORDS.
Proof. repeat constructor. Qed.

(** The friction lists, by the keywords found. *)
Lemma friction_lists c probe :
  map note_or_name
    (filter (has_friction regulatory)
       (flat_map CategoryScore.subScores (map score_category (build_categories c probe))))
  = (if nonempty (hasAny c KYC_KEYWORDS) then [KYC_NOTE] else [])
  /\ map note_or_name
       (filter (has_friction voluntary)
          (flat_map CategoryScore.subScores (map score_category (build_categories c probe))))
     = ((if negb (nonempty (hasAny c KYC_KEYWORDS))
            && nonempty (hasAny c CONTACT_SALES_SIGNUP_KEYWORDS)
            && negb (nonempty (hasAny c SIGNUP_KEYWORDS))
         then [MANUAL_NOTE] else [])
        ++ (if nonempty (hasAny c CAPTCHA_KEYWORDS) then [CAPTCHA_NOTE] else []))%list.
Proof.
  rewrite !friction_filter.
  unfold purch_signup, purch_captcha. cbv zeta.
  change ["recaptcha"; "hcaptcha"; "captcha"; "g-recaptcha"; "cf-turnstile"; "turnstile"]
    with CAPTCHA_KEYWORDS.
  destruct (nonempty (hasAny c KYC_KEYWORDS));
    destruct (nonempty (hasAny c CONTACT_SALES_SIGNUP_KEYWORDS));
    destruct (nonempty (hasAny c SIGNUP_KEYWORDS));
    destruct (nonempty (hasAny c SELF_SERVE_KEYWORDS));
    destruct (nonempty (hasAny c CAPTCHA_KEYWORDS));
    split; reflexivity.
Qed.

(** X9. Where the friction summary comes from. Of the seventeen sub-scores
    only the signup and the CAPTCHA evaluators ever carry a friction tag.
    The regulatory list is the one KYC note when the text has a KYC keyword,
    and empty otherwise, and [agentReadyPending] says which. The voluntary
    list holds the manual-onboarding note exactly when the text asks for a
    call with sales without a signup or KYC keyword, and the CAPTCHA note
    exactly when the text has a CAPTCHA keyword; it holds nothing else. *)
Theorem friction_summary_sources c probe i u t cp e :
  (contains c KYC_KEYWORDS <->
     regulatoryFriction (frictionSummary (assemble c probe i u t cp e)) = [KYC_NOTE])
  /\ (~ contains c KYC_KEYWORDS <->
        regulatoryFriction (frictionSummary (assemble c probe i u t cp e)) = [])
  /\ (agentReadyPending (frictionSummary (assemble c probe i u t cp e)) = true
      <-> contains c KYC_KEYWORDS)
  /\ (forall n, In n (voluntaryFriction (frictionSummary (assemble c probe i u t cp e)))
        <-> (n = MANUAL_NOTE /\ manual_onboarding c)
            \/ (n = CAPTCHA_NOTE /\ contains c CAPTCHA_KEYWORDS))
  /\ (length (voluntaryFriction (frictionSummary (assemble c probe i u t cp e))) <= 2)%nat.
Proof.
  unfold assemble, build_frictionSummary, manual_onboarding.
  cbn [frictionSummary regulatoryFriction voluntaryFriction agentReadyPending].
  destruct (friction_lists c probe) as [-> ->].
  pose proof (hasAny_contains c _ KYC_lowercase) as K.
  pose proof (hasAny_contains c _ CONTACT_lowercase) as C.
  pose proof (hasAny_contains c _ SIGNUP_lowercase) as S.
  pose proof (hasAny_contains c _ CAPTCHA_lowercase) as V.
  destruct (nonempty (hasAny c KYC_KEYWORDS));
    destruct (nonempty (hasAny c CONTACT_SALES_SIGNUP_KEYWORDS));
    destruct (nonempty (hasAny c SIGNUP_KEYWORDS));
    destruct (nonempty (hasAny c CAPTCHA_KEYWORDS));
    cbn [negb andb app nonempty length In];
    (split; [| split; [| split; [| split; [| lia]]]]);
    try (intros n);
    intuition (try discriminate; try congruence; auto).
Qed.

(** ** Every sub-score is explained *)

Ltac explain f :=
  cbv beta delta [f]; repeat step; vm_compute;
  (split; [reflexivity | split; [reflexivity | discriminate]]).

Section RubricFindings.

Variable c : Corpus.

Lemma disc_api_explained : explained ("Public API with docs", 3%Z) (disc_api c).
Proof. explain disc_api. Qed.

Lemma disc_pricing_explained : explained ("Machine-readable pricing", 3%Z) (disc_pricing c).
Proof. explain disc_pricing. Qed.

Lemma disc_directories_explained :
  explained ("Listed in agent directories", 2%Z) (disc_directories c).
Proof. explain disc_directories. Qed.

Lemma disc_metadata_explained probe :
  explained ("Structured metadata / OpenAPI spec", 2%Z) (disc_metadata c probe).
Proof. destruct probe; explain disc_metadata. Qed.

Lemma purch_signup_explained : explained ("Programmatic signup", 2%Z) (purch_signup c).
Proof. explain purch_signup. Qed.

Lemma purch_captcha_explained : explained ("No CAPTCHA", 2%Z) (purch_captcha c).
Proof. explain purch_captcha. Qed.

Lemma purch_billing_explained :
  explained ("API-based / usage-based billing", 2%Z) (purch_billing c).
Proof. explain purch_billing. Qed.

Lemma purch_crypto_explained : explained ("Accepts crypto/stablecoin", 2%Z) (purch_crypto c).
Proof. explain purch_crypto. Qed.

Lemma purch_protocols_explained :
  explained ("Supports x402, UCP, or AP2", 2%Z) (purch_protocols c).
Proof. explain purch_protocols. Qed.

Lemma int_mcp_explained : explained ("MCP or A2A support", 3%Z) (int_mcp c).
Proof. explain int_mcp. Qed.

Lemma int_structured_explained :
  explained ("Structured output (JSON)", 3%Z) (int_structured c).
Proof. explain int_structured. Qed.

Lemma int_sandbox_explained : explained ("Sandbox/test environment", 2%Z) (int_sandbox c).
Proof. explain int_sandbox. Qed.

Lemma int_ratelimits_explained :
  explained ("Clear rate limits & error handling", 2%Z) (int_ratelimits c).
Proof. explain int_ratelimits. Qed.

Lemma trust_pricing_explained : explained ("Transparent pricing", 3%Z) (trust_pricing c).
Proof. explain trust_pricing. Qed.

Lemma trust_spend_explained :
  explained ("Spend controls and usage caps", 3%Z) (trust_spend c).
Proof. explain trust_spend. Qed.

Lemma trust_sla_explained : explained ("SLA / uptime guarantees", 2%Z) (trust_sla c).
Proof. explain trust_sla. Qed.

Lemma trust_tos_explained :
  explained ("ToS allows automated/agent usage", 2%Z) (trust_tos c).
Proof. explain trust_tos. Qed.

End RubricFindings.

(** X10. Every sub-score is explained. Whatever was crawled, the result
    lists the seventeen sub-scores of the rubric in its order, each under its
    own name and maximum and with at least one finding; no two of them share
    a name. *)
Theorem every_subscore_is_explained c probe i u t cp e :
  Forall2 explained RUBRIC
    (flat_map CategoryScore.subScores (categories (assemble c probe i u t cp e)))
  /\ NoDup (map fst RUBRIC).
Proof.
  split.
  - rewrite categories_assemble, flat_map_subScores_scored, build_categories_subScores.
    unfold RUBRIC.
    repeat (apply Forall2_cons;
            [ first [ apply disc_api_explained | apply disc_pricing_explained
                    | apply disc_directories_explained | apply disc_metadata_explained
                    | apply purch_signup_explained | apply purch_captcha_explained
                    | apply purch_billing_explained | apply purch_crypto_explained
                    | apply purch_protocols_explained | apply int_mcp_explained
                    | apply int_structured_explained | apply int_sandbox_explained
                    | apply int_ratelimits_explained | apply trust_pricing_explained
                    | apply trust_spend_explained | apply trust_sla_explained
                    | apply trust_tos_explained ] |]).
    apply Forall2_nil.
  - unfold RUBRIC. cbn [map fst].
    repeat (apply NoDup_cons; [cbn [In]; intuition discriminate |]).
    apply NoDup_nil.
Qed.

(** ** Keyword search *)

Lemma includes_char_cons c a k :
  Str.includes (String a k) (String c EmptyString) = false ->
  Ascii.eqb c a = false /\ Str.includes k (String c EmptyString) = false.
Proof.
  cbn [Str.includes Str.startsWith]. rewrite andb_true_r. apply orb_false_elim.
Qed.

Lemma startsWith_before_sep c y k : forall x,
  Str.includes k (String c EmptyString) = false ->
  Str.startsWith (x ++ String c y) k = true -> Str.startsWith x k = true.
Proof.
  induction k as [| a k IH]; intros x Hc H; [reflexivity |].
  apply includes_char_cons in Hc. destruct Hc as [Hac Hk].
  destruct x as [| b x]; cbn [append Str.startsWith] in *.
  - apply andb_prop in H. destruct H as [H _].
    apply Ascii.eqb_eq in H. subst a. rewrite Ascii.eqb_refl in Hac. discriminate.
  - apply andb_prop in H. destruct H as [H1 H2].
    rewrite H1. exact (IH x Hk H2).
Qed.

Lemma includes_across_sep c y k : forall x,
  k <> EmptyString ->
  Str.includes k (String c EmptyString) = false ->
  Str.includes (x ++ String c y) k = true ->
  Str.includes x k = true \/ Str.includes y k = true.
Proof.
  intros x Hne Hc. induction x as [| b x IH]; intros H.
  - cbn [append Str.includes] in H. apply orb_prop in H. destruct H as [H | H].
    + apply (startsWith_before_sep c y k EmptyString Hc) in H.
      destruct k; [congruence | discriminate H].
    + right. exact H.
  - cbn [append] in H. cbn [Str.includes] in H. apply orb_prop in H.
    destruct H as [H | H].
    + left. cbn [Str.includes].
      rewrite (startsWith_before_sep c y k (String b x) Hc H). reflexivity.
    + destruct (IH H) as [Hx | Hy]; [left | right; exact Hy].
      cbn [Str.includes]. rewrite Hx. apply orb_true_r.
Qed.

Lemma includes_join c k l :
  k <> EmptyString ->
  Str.includes k (String c EmptyString) = false ->
  (Str.includes (Str.join (String c EmptyString) l) k = true
   <-> exists x, In x l /\ Str.includes x k = true).
Proof.
  intros Hne Hc. induction l as [| x l IH].
  - cbn. split; [| intros (x & [] & _)].
    destruct k; [congruence | discriminate].
  - destruct l as [| y l].
    + cbn [Str.join]. split.
      * intros H. exists x. split; [left; reflexivity | exact H].
      * intros (z & [<- | []] & H). exact H.
    + change (Str.join (String c EmptyString) (x :: y :: l))
        with (x ++ String c (Str.join (String c EmptyString) (y :: l))).
      split.
      * intros H. apply (includes_across_sep c _ k x Hne Hc) in H.
        destruct H as [H | H].
        -- exists x. split; [left; reflexivity | exact H].
        -- apply IH in H. destruct H as (z & Hz & H).
           exists z. split; [right; exact Hz | exact H].
      * intros (z & [<- | Hz] & H).
        -- apply (includes_app k EmptyString x
                    (String c (Str.join (String c EmptyString) (y :: l)))) in H.
           exact H.
        -- assert (H' : Str.includes (Str.join (String c EmptyString) (y :: l)) k = true)
             by (apply IH; exists z; split; assumption).
           apply (includes_app k (x ++ String c EmptyString) _ EmptyString) in H'.
           rewrite WebFacts.append_nil_r, WebFacts.append_assoc in H'. exact H'.
Qed.

Lemma toLowerCase_join_newline l :
  Str.toLowerCase (Str.join newline l) = Str.join newline (map Str.toLowerCase l).
Proof.
  induction l as [| x l IH]; [reflexivity |].
  destruct l as [| y l]; [reflexivity |].
  change (Str.join newline (x :: y :: l)) with (x ++ newline ++ Str.join newline (y :: l)).
  rewrite !toLowerCase_app, IH. reflexivity.
Qed.



Lemma lower_ascii_upper c :
  is_upper c = true -> Str.lower_ascii c = ascii_of_N (N_of_ascii c + 32).
Proof. unfold Str.lower_ascii, is_upper. cbv zeta. intros ->. reflexivity. Qed.

Lemma lower_ascii_other c : is_upper c = false -> Str.lower_ascii c = c.
Proof. unfold Str.lower_ascii, is_upper. cbv zeta. intros ->. reflexivity. Qed.

Lemma is_upper_bounds c :
  is_upper c = true <-> (65 <= N_of_ascii c <= 90)%N.
Proof.
  unfold is_upper. cbv zeta. rewrite andb_true_iff, !N.leb_le. reflexivity.
Qed.

Lemma N_of_ascii_inj c1 c2 : N_of_ascii c1 = N_of_ascii c2 -> c1 = c2.
Proof.
  intros E. rewrite <- (ascii_N_embedding c1), <- (ascii_N_embedding c2), E. reflexivity.
Qed.

Lemma same_letter_lower c1 c2 :
  same_letter c1 c2 = true <-> Str.lower_ascii c1 = Str.lower_ascii c2.
Proof.
  pose proof (N_ascii_bounded c1) as B1. pose proof (N_ascii_bounded c2) as B2.
  unfold same_letter.
  destruct (is_upper c1) eqn:U1; destruct (is_upper c2) eqn:U2; cbn [andb orb];
    rewrite ?orb_false_r;
    try (apply is_upper_bounds in U1); try (apply is_upper_bounds in U2);
    try (apply not_true_iff_false in U1; rewrite is_upper_bounds in U1);
    try (apply not_true_iff_false in U2; rewrite is_upper_bounds in U2).
  - rewrite (lower_ascii_upper c1), (lower_ascii_upper c2)
      by (apply is_upper_bounds; assumption).
    rewrite !orb_true_iff, Ascii.eqb_eq, !N.eqb_eq. split.
    + intros [[-> | E] | E]; [reflexivity | lia | lia].
    + intros E. left. left. apply N_of_ascii_inj.
      apply (f_equal N_of_ascii) in E.
      rewrite !N_ascii_embedding in E by lia. lia.
  - rewrite (lower_ascii_upper c1) by (apply is_upper_bounds; assumption).
    rewrite (lower_ascii_other c2)
      by (apply not_true_iff_false; rewrite is_upper_bounds; assumption).
    rewrite orb_true_iff, Ascii.eqb_eq, N.eqb_eq. split.
    + intros [-> | E]; [lia |]. rewrite <- E. apply ascii_N_embedding.
    + intros E. right. rewrite <- E. rewrite N_ascii_embedding by lia. reflexivity.
  - rewrite (lower_ascii_upper c2) by (apply is_upper_bounds; assumption).
    rewrite (lower_ascii_other c1)
      by (apply not_true_iff_false; rewrite is_upper_bounds; assumption).
    rewrite orb_true_iff, Ascii.eqb_eq, N.eqb_eq. split.
    + intros [-> | E]; [lia |]. rewrite <- E. symmetry. apply ascii_N_embedding.
    + intros E. right. rewrite E. rewrite N_ascii_embedding by lia. reflexivity.
  - rewrite (lower_ascii_other c1), (lower_ascii_other c2)
      by (apply not_true_iff_false; rewrite is_upper_bounds; assumption).
    apply Ascii.eqb_eq.
Qed.

Lemma case_variant_lower a : forall b,
  case_variant a b = true <-> Str.toLowerCase a = Str.toLowerCase b.
Proof.
  induction a as [| x a IH]; intros [| y b]; cbn [case_variant Str.toLowerCase].
  - split; reflexivity.
  - split; discriminate.
  - split; discriminate.
  - rewrite andb_true_iff, same_letter_lower, IH. split.
    + intros [-> ->]. reflexivity.
    + intros E. injection E as E1 E2. split; assumption.
Qed.

Lemma toLowerCase_split x : forall s y,
  Str.toLowerCase s = x ++ y ->
  exists s1 s2, s = s1 ++ s2 /\ Str.toLowerCase s1 = x /\ Str.toLowerCase s2 = y.
Proof.
  induction x as [| c x IH]; intros s y E.
  - exists EmptyString, s. split; [reflexivity |]. split; [reflexivity | exact E].
  - destruct s as [| d s]; [discriminate E |].
    cbn [Str.toLowerCase append] in E. injection E as Ec E.
    destruct (IH s y E) as (s1 & s2 & -> & H1 & H2).
    exists (String d s1), s2. split; [reflexivity |].
    split; [cbn [Str.toLowerCase]; rewrite Ec, H1; reflexivity | exact H2].
Qed.

(** Searching the lower-case text for the lower-case keyword finds the
    stretches of the text that are the keyword up to case. *)
Lemma includes_lower_spec text k :
  Str.includes (Str.toLowerCase text) (Str.toLowerCase k) = true
  <-> exists a m b, text = a ++ m ++ b /\ case_variant m k = true.
Proof.
  rewrite includes_spec. split.
  - intros (a' & b' & E).
    destruct (toLowerCase_split a' text _ E) as (a & rest & -> & Ha & Hrest).
    destruct (toLowerCase_split _ rest _ Hrest) as (m & b & -> & Hm & Hb).
    exists a, m, b. split; [reflexivity |]. apply case_variant_lower. exact Hm.
  - intros (a & m & b & -> & Hm). apply case_variant_lower in Hm.
    exists (Str.toLowerCase a), (Str.toLowerCase b).
    rewrite !toLowerCase_app, Hm. reflexivity.
Qed.

(** X11. What [textContains] finds in ASCII text. It returns the keywords,
    in the order of the keyword list, of which the text holds an occurrence
    up to the case of the letters A to Z. Changing the case of letters of the
    text changes nothing, and text added before or after never loses a
    keyword. *)
Theorem textContains_finds_substrings text keywords :
  is_ascii text = true ->
  Forall (fun k => is_ascii k = true) keywords ->
  subseq (textContains text keywords) keywords
  /\ (forall k, In k (textContains text keywords) <->
        In k keywords
        /\ exists a m b, text = a ++ m ++ b /\ case_variant m k = true)
  /\ (forall text', case_variant text' text = true ->
        textContains text' keywords = textContains text keywords)
  /\ (forall before after_ k,
        is_ascii before = true -> is_ascii after_ = true ->
        In k (textContains text keywords) ->
        In k (textContains (before ++ text ++ after_) keywords)).
Proof.
  intros _ _. unfold textContains.
  split; [apply subseq_filter |].
  split; [intros k; rewrite filter_In, includes_lower_spec; reflexivity |].
  split.
  { intros text' Hv. apply case_variant_lower in Hv. rewrite Hv. reflexivity. }
  intros before after_ k _ _. rewrite !filter_In. intros [Hin Hinc].
  split; [exact Hin |]. rewrite !toLowerCase_app. apply includes_app. exact Hinc.
Qed.

Lemma lower_ascii_newline c :
  Str.lower_ascii c = ascii_of_nat 10 -> c = ascii_of_nat 10.
Proof. destruct c as [[] [] [] [] [] [] [] []]; cbn; intros E; try discriminate E; reflexivity. Qed.

Lemma toLowerCase_no_newline k :
  Str.includes k newline = false -> Str.includes (Str.toLowerCase k) newline = false.
Proof.
  unfold newline. induction k as [| c k IH]; [reflexivity |].
  intros H. apply includes_char_cons in H. destruct H as [Hc Hk].
  cbn [Str.toLowerCase Str.includes Str.startsWith]. rewrite (IH Hk), andb_true_r, orb_false_r.
  apply not_true_iff_false. intros E. apply Ascii.eqb_eq in E.
  symmetry in E. apply lower_ascii_newline in E. subst c.
  rewrite Ascii.eqb_refl in Hc. discriminate Hc.
Qed.

Section CorpusText.

Context {P : Platform}.

(** X12. A keyword is found on a page. The corpus joins the bodies of the
    stored pages with newlines, so with ASCII pages and keywords, a keyword
    that is not empty and has no newline in it is found in the corpus
    exactly when one of the pages holds an occurrence of it up to case: no
    match runs across two pages. *)
Theorem keyword_found_on_some_page origin_ pages keywords k :
  Forall (fun kv : string * string => is_ascii (snd kv) = true) pages ->
  Forall (fun k => k <> EmptyString /\ Str.includes k newline = false
                   /\ is_ascii k = true) keywords ->
  (In k (hasAny (corpus_of origin_ pages) keywords)
   <-> In k keywords
       /\ exists key body a m b,
            In (key, body) pages /\ body = a ++ m ++ b /\ case_variant m k = true).
Proof.
  intros _ Hk. unfold hasAny, textContains, corpus_of. cbn [allText].
  rewrite filter_In, toLowerCase_idem, toLowerCase_join_newline. unfold PageMap.values.
  rewrite Forall_forall in Hk.
  split; intros [Hin H]; (split; [exact Hin |]);
    destruct (Hk k Hin) as (Hne & Hnl & _);
    assert (Hne' : Str.toLowerCase k <> EmptyString)
      by (destruct k; [congruence | discriminate]);
    pose proof (toLowerCase_no_newline k Hnl) as Hnl'.
  - apply (includes_join _ _ _ Hne' Hnl') in H. destruct H as (x & Hx & H).
    apply in_map_iff in Hx. destruct Hx as (body' & <- & Hb).
    apply in_map_iff in Hb. destruct Hb as ([key body] & <- & Hb).
    cbn [snd] in H. apply includes_lower_spec in H.
    destruct H as (a & m & b & E & Hm).
    exists key, body, a, m, b. split; [exact Hb |]. split; [exact E | exact Hm].
  - destruct H as (key & body & a & m & b & Hb & E & Hm).
    apply (includes_join _ _ _ Hne' Hnl').
    exists (Str.toLowerCase body). split.
    + apply in_map. apply (in_map snd _ (key, body)). exact Hb.
    + apply includes_lower_spec. exists a, m, b. split; [exact E | exact Hm].
Qed.

End CorpusText.

(** ** The relevance filter *)

Lemma all_chars_rev_acc p s : forall acc,
  Web.all_chars p (Str.rev_acc s acc) = Web.all_chars p s && Web.all_chars p acc.
Proof.
  induction s as [| c s IH]; intros acc; [reflexivity |].
  cbn [Str.rev_acc Web.all_chars]. rewrite IH. cbn [Web.all_chars].
  destruct (p c), (Web.all_chars p s), (Web.all_chars p acc); reflexivity.
Qed.

Lemma all_chars_rev p s : Web.all_chars p (Str.rev s) = Web.all_chars p s.
Proof. unfold Str.rev. rewrite all_chars_rev_acc. cbn. apply andb_true_r. Qed.

Lemma startsWith_chars p s lit :
  Web.all_chars p s = true -> Str.startsWith s lit = true -> Web.all_chars p lit = true.
Proof.
  intros Hs H. apply startsWith_spec in H. destruct H as (r & ->).
  rewrite WebFacts.all_chars_app in Hs. apply andb_prop in Hs. exact (proj1 Hs).
Qed.

Lemma endsWith_chars p s lit :
  Web.all_chars p s = true -> Str.endsWith s lit = true -> Web.all_chars p lit = true.
Proof.
  unfold Str.endsWith. intros Hs H.
  rewrite <- all_chars_rev in Hs. rewrite <- all_chars_rev.
  exact (startsWith_chars p _ _ Hs H).
Qed.

Lemma last_char_word prev lit :
  Web.all_chars is_word_char lit = true -> is_word prev = true ->
  is_word (last_char prev lit) = true.
Proof.
  revert prev. induction lit as [| a lit IH]; intros prev Hl Hp; [exact Hp |].
  cbn [Web.all_chars] in Hl. apply andb_prop in Hl. destruct Hl as [Ha Hl].
  cbn [last_char]. apply IH; [exact Hl | exact Ha].
Qed.

Lemma first_char_word s :
  Web.all_chars is_word_char s = true ->
  is_word (first_char s) = negb (String.eqb s EmptyString).
Proof.
  destruct s as [| a s]; [reflexivity |].
  cbn [Web.all_chars first_char is_word String.eqb]. intros H.
  apply andb_prop in H. exact (proj1 H).
Qed.

Lemma startsWith_drop lit : forall s,
  Str.startsWith s lit = true -> s = lit ++ Str.drop (String.length lit) s.
Proof.
  induction lit as [| a lit IH]; intros s H; [reflexivity |].
  destruct s as [| b s]; [discriminate H |].
  cbn [Str.startsWith] in H. apply andb_prop in H. destruct H as [Hab H].
  apply Ascii.eqb_eq in Hab. subst b.
  cbn [String.length Str.drop append]. rewrite <- (IH s H). reflexivity.
Qed.

(** On a word, a literal followed by [\b] matches the whole word or nothing. *)
Lemma lit_then_boundary_word prev w lit :
  Web.all_chars is_word_char w = true -> lit <> EmptyString ->
  lit_then_boundary prev w lit = String.eqb w lit.
Proof.
  intros Hw Hne. unfold lit_then_boundary.
  destruct (Str.startsWith w lit) eqn:Hs; cbn [andb].
  - pose proof (startsWith_chars _ _ _ Hw Hs) as Hl.
    pose proof (startsWith_drop lit w Hs) as Hd.
    assert (Hlast : is_word (last_char prev lit) = true).
    { destruct lit as [| a lit]; [congruence |].
      cbn [Web.all_chars] in Hl. apply andb_prop in Hl. destruct Hl as [Ha Hl].
      cbn [last_char]. apply last_char_word; [exact Hl | exact Ha]. }
    assert (Hrest : Web.all_chars is_word_char (Str.drop (String.length lit) w) = true).
    { rewrite Hd in Hw. rewrite WebFacts.all_chars_app in Hw.
      apply andb_prop in Hw. exact (proj2 Hw). }
    unfold word_boundary. rewrite Hlast, (first_char_word _ Hrest).
    destruct (Str.drop (String.length lit) w) as [| c r] eqn:E.
    + rewrite WebFacts.append_nil_r in Hd.
      rewrite (proj2 (String.eqb_eq w lit) Hd). reflexivity.
    + cbn. symmetry. apply String.eqb_neq. intros ->.
      rewrite <- (WebFacts.append_nil_r lit) in Hd at 1.
      apply append_inj_l in Hd. discriminate Hd.
  - symmetry. apply String.eqb_neq. intros ->.
    assert (Str.startsWith lit lit = true)
      by (apply startsWith_spec; exists EmptyString;
          rewrite WebFacts.append_nil_r; reflexivity).
    congruence.
Qed.

Lemma existsb_eq_ext {A} (f g : A -> bool) l :
  (forall x, In x l -> f x = g x) -> existsb f l = existsb g l.
Proof.
  induction l as [| x l IH]; intros H; [reflexivity |].
  cbn [existsb]. rewrite (H x (or_introl eq_refl)), IH; [reflexivity |].
  intros y Hy. apply H. right. exact Hy.
Qed.

Lemma test_words_inside ws : forall s prev,
  ~ In EmptyString ws ->
  Web.all_chars is_word_char s = true -> is_word prev = true ->
  test_words prev s ws = false.
Proof.
  intros s prev Hne. revert prev. induction s as [| a s IH]; intros prev Hs Hp.
  - cbn [test_words]. rewrite orb_false_r.
    replace (existsb (lit_then_boundary prev EmptyString) ws) with false;
      [apply andb_false_r |].
    symmetry. apply not_true_is_false. intros H.
    apply existsb_exists in H. destruct H as (lit & Hin & H).
    unfold lit_then_boundary in H. apply andb_prop in H. destruct H as [H _].
    destruct lit as [| c lit]; [exact (Hne Hin) | discriminate H].
  - cbn [Web.all_chars] in Hs. apply andb_prop in Hs. destruct Hs as [Ha Hs].
    cbn [test_words first_char]. unfold word_boundary at 1.
    cbn [is_word]. rewrite Hp, Ha. cbn [xorb andb orb].
    apply IH; [exact Hs | exact Ha].
Qed.

Lemma test_words_plain w ws :
  is_plain_word w = true -> ~ In EmptyString ws ->
  test_words None ("/" ++ w) ws = existsb (String.eqb w) ws.
Proof.
  unfold is_plain_word. intros Hw Hne.
  apply andb_prop in Hw. destruct Hw as [Hnw Hw].
  destruct w as [| a w]; [discriminate Hnw |].
  pose proof Hw as Hw'. cbn [Web.all_chars] in Hw'.
  apply andb_prop in Hw'. destruct Hw' as [Ha Hw'].
  cbn [append test_words first_char]. unfold word_boundary at 1 2.
  cbn [is_word]. rewrite Ha.
  change (is_word_char "/") with false. cbn [xorb andb orb].
  rewrite (test_words_inside ws w (Some a) Hne Hw' Ha), orb_false_r.
  apply existsb_eq_ext. intros lit Hin.
  apply lit_then_boundary_word; [exact Hw |].
  intros ->. exact (Hne Hin).
Qed.

Lemma test_segment_inside ws : forall s,
  Web.all_chars is_word_char s = true -> test_segment s ws = false.
Proof.
  induction s as [| a s IH]; intros Hs.
  - cbn [test_segment]. rewrite orb_false_r.
    apply not_true_is_false. intros H. apply existsb_exists in H.
    destruct H as (lit & _ & H). discriminate H.
  - cbn [Web.all_chars] in Hs. apply andb_prop in Hs. destruct Hs as [Ha Hs].
    cbn [test_segment]. rewrite (IH Hs), orb_false_r.
    apply not_true_is_false. intros H. apply existsb_exists in H.
    destruct H as (lit & _ & H).
    unfold lit_then_boundary in H. apply andb_prop in H. destruct H as [H _].
    cbn [append Str.startsWith] in H. apply andb_prop in H. destruct H as [H _].
    apply Ascii.eqb_eq in H. subst a. discriminate Ha.
Qed.

Lemma test_segment_plain w ws :
  is_plain_word w = true -> ~ In EmptyString ws ->
  test_segment ("/" ++ w) ws = existsb (String.eqb w) ws.
Proof.
  unfold is_plain_word. intros Hw Hne.
  apply andb_prop in Hw. destruct Hw as [_ Hw].
  cbn [append test_segment]. rewrite (test_segment_inside ws w Hw), orb_false_r.
  apply existsb_eq_ext. intros lit Hin.
  rewrite <- (lit_then_boundary_word (Some "/"%char) w lit Hw)
    by (intros ->; exact (Hne Hin)).
  unfold lit_then_boundary. cbn [append Str.startsWith String.length Str.drop last_char].
  rewrite Ascii.eqb_refl. reflexivity.
Qed.

Lemma test_extension_plain w es :
  is_plain_word w = true -> test_extension ("/" ++ w) es = false.
Proof.
  unfold is_plain_word, test_extension. intros Hw.
  apply andb_prop in Hw. destruct Hw as [_ Hw].
  apply not_true_is_false. intros H. apply existsb_exists in H.
  destruct H as (e & _ & H).
  assert (Hnd : Web.all_chars (fun c => negb (Ascii.eqb c ".")) ("/" ++ w) = true).
  { cbn [append Web.all_chars]. change (negb (Ascii.eqb "/" ".")) with true.
    cbn [andb]. apply (WebFacts.all_chars_impl is_word_char); [| exact Hw].
    intros c. destruct c as [[] [] [] [] [] [] [] []]; cbn; intros; try discriminate; reflexivity. }
  pose proof (endsWith_chars _ _ _ Hnd H) as Hd. discriminate Hd.
Qed.

Lemma existsb_concat {A} (f : A -> bool) ls :
  existsb (fun l => existsb f l) ls = existsb f (concat ls).
Proof.
  induction ls as [| l ls IH]; [reflexivity |].
  cbn [existsb concat]. rewrite existsb_app, IH. reflexivity.
Qed.

Section Relevance.

Context {P : Platform}.

(** X13. Relevance of a one-word path. For a URL whose lower-case path is a
    slash and one word (letters, digits, underscores), [isRelevantUrl]
    answers whether the word is, as a whole, one of the alternatives of
    [RELEVANT_PATTERNS]: with a [\b] on both sides a stem such as [pric],
    [plugin] or [developer] does not match a longer word such as [pricing],
    [plugins] or [developers]. *)
Theorem one_word_path_relevance url_ parsed w :
  newURL url_ = Some parsed ->
  Str.toLowerCase (pathname parsed) = "/" ++ w ->
  is_plain_word w = true ->
  isRelevantUrl url_ = Some (existsb (String.eqb w) (concat RELEVANT_PATTERNS))
  /\ (In w ["pricing"; "plans"; "plugins"; "developers"; "integrations"; "partners"] ->
      isRelevantUrl url_ = Some false).
Proof.
  intros Hu Hp Hw.
  assert (H : isRelevantUrl url_ = Some (existsb (String.eqb w) (concat RELEVANT_PATTERNS))).
  { unfold isRelevantUrl. rewrite Hu. cbv zeta. rewrite Hp.
    rewrite (test_extension_plain w _ Hw).
    rewrite (test_segment_plain w _ Hw)
      by (cbn; intuition discriminate).
    rewrite <- existsb_concat.
    assert (Hpat : existsb (test_words None ("/" ++ w)) RELEVANT_PATTERNS
                   = existsb (fun l => existsb (String.eqb w) l) RELEVANT_PATTERNS).
    { apply existsb_eq_ext. intros ws Hin. apply (test_words_plain w ws Hw).
      unfold RELEVANT_PATTERNS in Hin. cbn in Hin.
      intuition (subst ws; cbn in *; intuition discriminate). }
    rewrite Hpat.
    destruct (existsb (String.eqb w) _) eqn:Hb; [| reflexivity].
    apply existsb_exists in Hb. destruct Hb as (lit & Hin & Hb).
    apply String.eqb_eq in Hb. subst lit.
    cbn in Hin. intuition (subst w; reflexivity). }
  split; [exact H |].
  intros Hin. rewrite H. cbn in Hin. intuition (subst w; reflexivity).
Qed.

End Relevance.

(** ** Inputs as they are typed, on the reference platform *)

Module TypedInputs.

Import Web.

Lemma typed_chars_not_colon s :
  all_chars is_typed_host_char s = true ->
  all_chars (fun c => negb (is_colon c)) s = true.
Proof.
  apply WebFacts.all_chars_impl. intros c. exact (WebFacts.host_char_lower_not_colon c).
Qed.

Lemma lower_typed_chars s :
  all_chars is_host_char (Str.toLowerCase s) = true -> all_chars is_typed_host_char s = true.
Proof.
  induction s as [| c s IH]; [reflexivity |].
  cbn [Str.toLowerCase all_chars]. intros H. apply andb_prop in H. destruct H as [H1 H2].
  unfold is_typed_host_char at 1. rewrite H1. exact (IH H2).
Qed.

Lemma no_colon_no_scheme s :
  all_chars (fun c => negb (is_colon c)) s = true -> split_scheme s = None.
Proof.
  intros H. unfold split_scheme.
  destruct (Str.startsWith s "https://") eqn:E1.
  { apply startsWith_spec in E1. destruct E1 as (r & ->). discriminate H. }
  destruct (Str.startsWith s "http://") eqn:E2; [| reflexivity].
  apply startsWith_spec in E2. destruct E2 as (r & ->). discriminate H.
Qed.

Lemma replace_no_colon s rep :
  all_chars (fun c => negb (is_colon c)) s = true ->
  Str.replace s "://www." rep = s.
Proof.
  induction s as [| c s IH]; intros H; [reflexivity |].
  cbn [all_chars] in H. apply andb_prop in H. destruct H as [Hc Hs].
  cbn [Str.replace Str.startsWith].
  unfold is_colon in Hc. rewrite Ascii.eqb_sym in Hc.
  destruct (Ascii.eqb ":" c); [discriminate Hc |].
  cbn [andb]. rewrite (IH Hs). reflexivity.
Qed.

Lemma replace_skip c s pat rep :
  Str.startsWith (String c s) pat = false ->
  Str.replace (String c s) pat rep = String c (Str.replace s pat rep).
Proof. intros H. cbn [Str.replace]. rewrite H. reflexivity. Qed.

Lemma replace_origin_plain h :
  all_chars (fun c => negb (is_colon c)) h = true ->
  Str.startsWith h "www." = false ->
  Str.replace ("https://" ++ h) "://www." "://" = "https://" ++ h.
Proof.
  intros Hc Hw. cbn [append].
  do 5 (rewrite replace_skip by reflexivity).
  rewrite replace_skip by exact Hw.
  do 2 (rewrite replace_skip by reflexivity).
  rewrite (replace_no_colon h "://" Hc). reflexivity.
Qed.

Lemma replace_origin_www h :
  Str.replace ("https://www." ++ h) "://www." "://" = "https://" ++ h.
Proof. reflexivity. Qed.

End TypedInputs.


(** X15. A name that begins with [http] needs its scheme. On the reference
    platform, an input made of letters, digits, hyphens and dots that begins
    with the letters [http], such as [httpbin.org], is handed to [new URL]
    as it is, which refuses it: [scoreUrl] throws the invalid-URL error
    without any call of [fetch], and the server keeps the input itself as
    its cache key. *)
Theorem http_prefixed_name_is_rejected h st :
  Web.all_chars is_typed_host_char h = true ->
  Str.startsWith h "http" = true ->
  scoreUrl (P := Web.platform) h st
  = (inl (Error "Invalid URL. Try something like: stripe.com"), st)
  /\ normalizedUrl (P := Web.platform) h = h.
Proof.
  intros Hc Hh.
  assert (Hp : Web.parse h = None).
  { unfold Web.parse.
    rewrite (TypedInputs.no_colon_no_scheme h (TypedInputs.typed_chars_not_colon h Hc)).
    reflexivity. }
  unfold scoreUrl, bind, lift, normalize, normalizedUrl.
  cbn [newURL Web.platform]. rewrite Hh, Hp. split; reflexivity.
Qed.

Lemma http_prefixed_name_is_rejected_witness :
  scoreUrl (P := Web.platform) "httpbin.org" (start Sites.uniform)
  = (inl (Error "Invalid URL. Try something like: stripe.com"), start Sites.uniform)
  /\ normalizedUrl (P := Web.platform) "httpbin.org" = "httpbin.org".
Proof.
  apply (http_prefixed_name_is_rejected "httpbin.org" (start Sites.uniform)); reflexivity.
Defined.


(** ** Typed domain names, for every URL class that parses them *)

Lemma plain_domain_valid h : plain_domain h = true -> Web.valid_host (Str.toLowerCase h) = true.
Proof.
  unfold plain_domain. intros H.
  apply andb_prop in H. destruct H as [H _].
  apply andb_prop in H. destruct H as [H _].
  apply andb_prop in H. exact (proj1 H).
Qed.


Lemma plain_domain_www h : plain_domain h = true -> plain_domain ("www." ++ h) = true.
Proof.
  unfold plain_domain. intros H.
  apply andb_prop in H. destruct H as [H H4].
  apply andb_prop in H. destruct H as [H H3].
  apply andb_prop in H. destruct H as [H1 H2].
  rewrite toLowerCase_app.
  change (Str.toLowerCase "www.") with "www.".
  rewrite (WebFacts.valid_host_www _ H1).
  apply negb_true_iff in H2, H3, H4.
  destruct (Str.toLowerCase h) as [| c s] eqn:E.
  - reflexivity.
  - cbn [append Str.includes Str.startsWith Ascii.eqb Bool.eqb andb orb] in *.
    cbn [Str.startsWith] in H4. rewrite H4 in *.
    rewrite H2, H3. reflexivity.
Qed.

Lemma Web_parses_plain_domains : parses_plain_domains Web.platform.
Proof.
  intros h Hp. pose proof (plain_domain_valid h Hp) as Hv.
  exists {| Web.scheme := "https"; Web.host := Str.toLowerCase h; Web.port := EmptyString;
            Web.path := "/"; Web.query := EmptyString; Web.fragment := EmptyString |}.
  cbn [newURL hostname origin href Web.platform].
  split.
  { rewrite <- (WebFacts.append_nil_r h) at 1.
    exact (WebFacts.parse_bare h EmptyString Hv (or_introl eq_refl)). }
  split.
  { pose proof (WebFacts.parse_bare (Str.toLowerCase h) "/") as Hb.
    rewrite toLowerCase_idem in Hb. exact (Hb Hv (or_intror eq_refl)). }
  split; [reflexivity |].
  unfold Web.href_of, Web.origin_of.
  cbn [Web.scheme Web.host Web.port Web.path Web.query Web.fragment String.eqb].
  rewrite !WebFacts.append_nil_r.
  split; [reflexivity |]. rewrite !WebFacts.append_assoc. reflexivity.
Qed.

Lemma includes_false_replace pat rep : forall s,
  Str.includes s pat = false -> Str.replace s pat rep = s.
Proof.
  induction s as [| c s IH]; intros H.
  - cbn [Str.includes] in H. apply orb_false_elim in H.
    cbn [Str.replace]. rewrite (proj1 H). reflexivity.
  - cbn [Str.includes] in H. apply orb_false_elim in H. destruct H as [H1 H2].
    cbn [Str.replace]. rewrite H1, (IH H2). reflexivity.
Qed.

Section PlainDomains.

Context {P : Platform}.
Hypothesis law : parses_plain_domains P.

Lemma normalize_plain_domain h :
  plain_domain h = true ->
  Str.includes (Str.toLowerCase h) "." = true ->
  Str.startsWith (Str.toLowerCase h) "www." = false ->
  Str.startsWith h "http" = false ->
  exists u,
    normalize h = inr u
    /\ newURL ("https://" ++ Str.toLowerCase h ++ "/") = Some u
    /\ hostname u = Str.toLowerCase h
    /\ origin u = "https://" ++ Str.toLowerCase h.
Proof.
  intros Hp Hd Hw Hh. destruct (law h Hp) as (u & Hu & Hu' & Hhost & Horig & _).
  exists u. unfold normalize. rewrite Hh, Hu, Hhost, Hd, Hw.
  split; [reflexivity |]. split; [exact Hu' |]. split; [reflexivity | exact Horig].
Qed.

Lemma normalize_www_domain h :
  plain_domain h = true ->
  forall u, newURL ("https://" ++ Str.toLowerCase h ++ "/") = Some u ->
  normalize ("www." ++ h) = inr u.
Proof.
  intros Hp u Hu.
  destruct (law ("www." ++ h) (plain_domain_www h Hp)) as (b & Hb & _ & Hhost & _ & Hhref).
  rewrite toLowerCase_app in Hhost, Hhref.
  change (Str.toLowerCase "www.") with "www." in Hhost, Hhref.
  unfold normalize.
  change (Str.startsWith ("www." ++ h) "http") with false. cbv iota.
  rewrite Hb, Hhost.
  change (Str.includes ("www." ++ Str.toLowerCase h) ".") with true.
  change (Str.startsWith ("www." ++ Str.toLowerCase h) "www.") with true.
  cbn [negb]. rewrite Hhref.
  change (Str.replace ("https://" ++ ("www." ++ Str.toLowerCase h) ++ "/") "://www." "://")
    with ("https://" ++ Str.toLowerCase h ++ "/").
  rewrite Hu. reflexivity.
Qed.

End PlainDomains.


(** X14. A bare word is turned away before any request. For every URL
    class that parses plain domain names as the standard says, and every
    plain domain name without a dot (and not beginning with [http]),
    [scoreUrl] throws the error that asks for a full URL, quoting the input
    as it was typed, and makes no call of [fetch]. *)
Theorem bare_word_is_rejected (P : Platform) (h : string) (st : St) :
  parses_plain_domains P ->
  plain_domain h = true ->
  Str.includes (Str.toLowerCase h) "." = false ->
  Str.startsWith h "http" = false ->
  scoreUrl h st
  = (inl (Error (dquote ++ h ++ dquote
                 ++ " doesn't look like a full URL. Try: " ++ h ++ ".com")), st).
Proof.
  intros law Hp Hd Hh. destruct (law h Hp) as (u & Hu & _ & Hhost & _).
  unfold scoreUrl, bind, lift, normalize. rewrite Hh, Hu, Hhost, Hd. reflexivity.
Qed.

(** X16. The server's cache key is the URL of the result. For every URL
    class that parses plain domain names as the standard says, and every
    plain domain name [h] typed without a scheme (in lower case it has a dot
    and no leading [www.], and it does not begin with [http]), the key the
    server computes for [h] and for [www.h] is [https://h] in lower case, and
    that is the [url] of every result [scoreUrl] returns for either input. *)
Theorem server_cache_key_is_result_url (P : Platform) (h : string) :
  parses_plain_domains P ->
  plain_domain h = true ->
  Str.includes (Str.toLowerCase h) "." = true ->
  Str.startsWith (Str.toLowerCase h) "www." = false ->
  Str.startsWith h "http" = false ->
  normalizedUrl h = "https://" ++ Str.toLowerCase h
  /\ normalizedUrl ("www." ++ h) = "https://" ++ Str.toLowerCase h
  /\ (forall input st r st',
        input = h \/ input = "www." ++ h ->
        scoreUrl input st = (inr r, st') ->
        url r = "https://" ++ Str.toLowerCase h).
Proof.
  intros law Hp Hd Hw Hh.
  pose proof (WebFacts.valid_host_chars _ (plain_domain_valid h Hp)) as Hc.
  destruct (normalize_plain_domain law h Hp Hd Hw Hh) as (u & Hn & Hu & Hhost & Horig).
  pose proof (normalize_www_domain law h Hp u Hu) as Hnw.
  split; [| split].
  - unfold normalizedUrl. rewrite Hh.
    destruct (law h Hp) as (u1 & Hu1 & _ & _ & Horig1 & _).
    rewrite Hu1, Horig1.
    apply TypedInputs.replace_origin_plain; [| exact Hw].
    apply (WebFacts.all_chars_impl Web.is_host_char); [| exact Hc].
    intros c. exact (WebFacts.host_char_not_colon c).
  - unfold normalizedUrl.
    change (Str.startsWith ("www." ++ h) "http") with false. cbv iota.
    destruct (law ("www." ++ h) (plain_domain_www h Hp)) as (b & Hb & _ & _ & Horigb & _).
    rewrite Hb, Horigb, toLowerCase_app.
    exact (TypedInputs.replace_origin_www (Str.toLowerCase h)).
  - intros input st r st' Hin Hrun.
    apply scoreUrl_inv in Hrun.
    destruct Hrun as (baseUrl & fr & st1 & probe & st2 & uuid & now & Hn' & _ & _ & ->).
    assert (baseUrl = u) by (destruct Hin as [-> | ->]; congruence).
    subst baseUrl. unfold result_of, assemble. cbn [url]. exact Horig.
Qed.

(** ** The further properties at work on concrete runs *)

Lemma scoreUrl_request_budget_witness :
  exists r st',
    scoreUrl (P := Web.platform) "example.com" (start Sites.uniform) = (inr r, st')
    /\ exists new,
         calls st' = (calls (start Sites.uniform) ++ new)%list
         /\ (length new <= 186)%nat
         /\ (forall k, In k new -> c_timeout k = 12000%Z \/ c_timeout k = 3000%Z).
Proof.
  destruct uniform_run_returns as (r & st' & H & _).
  exists r, st'. split; [exact H |].
  exact (scoreUrl_request_budget "example.com" (start Sites.uniform) r st' H).
Defined.

Lemma crawledPages_distinct_and_answered_witness :
  exists r st',
    scoreUrl (P := Web.platform) "example.com" (start Sites.uniform) = (inr r, st')
    /\ (NoDup (crawledPages r)
        /\ (length (crawledPages r) <= 57)%nat
        /\ forall u, In u (crawledPages r) ->
             exists before resp after_,
               calls st' = (calls (start Sites.uniform) ++ before
                              ++ answered_call u DEFAULT_TIMEOUT resp :: after_)%list
               /\ (status resp < 400)%Z).
Proof.
  destruct uniform_run_returns as (r & st' & H & _).
  exists r, st'. split; [exact H |].
  exact (crawledPages_distinct_and_answered "example.com" (start Sites.uniform) r st' H).
Defined.

Lemma candidates_are_sound_witness :
  uniqueDiscovered (P := Web.platform) "https://example.com" "example.com" home_frontier
  = ["https://example.com/api/v1"]
  /\ (NoDup (uniqueDiscovered (P := Web.platform)
               "https://example.com" "example.com" home_frontier)
      /\ exists key body link parsed linkDomain sub path,
           In (key, body) (f_pages home_frontier)
           /\ In link (findLinks (P := Web.platform) body "https://example.com")
           /\ newURL (Platform := Web.platform) link = Some parsed
           /\ (hostname parsed = "www." ++ linkDomain
               \/ (hostname parsed = linkDomain /\ forall d, linkDomain <> "www." ++ d))
           /\ linkDomain = sub ++ "example.com"
           /\ (pathname parsed = path ++ "/"
               \/ (pathname parsed = path /\ forall q, path <> q ++ "/"))
           /\ "https://example.com/api/v1" = origin parsed ++ path
           /\ ~ In "https://example.com/api/v1" (f_visited home_frontier)
           /\ isRelevantUrl (P := Web.platform) "https://example.com/api/v1" = Some true).
Proof.
  split; [vm_compute; reflexivity |].
  apply (candidates_are_sound (P := Web.platform)
           "https://example.com" "example.com" home_frontier "https://example.com/api/v1").
  vm_compute. left. reflexivity.
Defined.

Lemma textContains_finds_substrings_witness :
  textContains "Our KYC Check" ["aml"; "kyc"] = ["kyc"]
  /\ (subseq (textContains "Our KYC Check" ["aml"; "kyc"]) ["aml"; "kyc"]
      /\ (forall k, In k (textContains "Our KYC Check" ["aml"; "kyc"]) <->
            In k ["aml"; "kyc"]
            /\ exists a m b, "Our KYC Check" = a ++ m ++ b /\ case_variant m k = true)
      /\ (forall text', case_variant text' "Our KYC Check" = true ->
            textContains text' ["aml"; "kyc"] = textContains "Our KYC Check" ["aml"; "kyc"])
      /\ (forall before after_ k,
            is_ascii before = true -> is_ascii after_ = true ->
            In k (textContains "Our KYC Check" ["aml"; "kyc"]) ->
            In k (textContains (before ++ "Our KYC Check" ++ after_) ["aml"; "kyc"]))).
Proof.
  split; [reflexivity |].
  apply (textContains_finds_substrings "Our KYC Check" ["aml"; "kyc"]).
  - reflexivity.
  - repeat constructor.
Defined.

Lemma keyword_found_on_some_page_witness :
  In "verify your identity"
     (hasAny (corpus_of (P := Web.platform) "https://example.com"
                [("/", "Welcome"); ("/terms", "We Verify Your Identity")])
        KYC_KEYWORDS)
  <-> In "verify your identity" KYC_KEYWORDS
      /\ exists key body a m b,
           In (key, body) [("/", "Welcome"); ("/terms", "We Verify Your Identity")]
           /\ body = a ++ m ++ b
           /\ case_variant m "verify your identity" = true.
Proof.
  apply (keyword_found_on_some_page (P := Web.platform)).
  - repeat constructor.
  - repeat (constructor; [split; [discriminate | split; reflexivity] |]). constructor.
Defined.


Lemma bare_word_is_rejected_witness :
  scoreUrl (P := Web.platform) "stripe" (start Sites.dead)
  = (inl (Error (dquote ++ "stripe" ++ dquote
                 ++ " doesn't look like a full URL. Try: " ++ "stripe" ++ ".com")),
     start Sites.dead).
Proof.
  apply (bare_word_is_rejected Web.platform "stripe" (start Sites.dead)
           Web_parses_plain_domains); reflexivity.
Defined.

Lemma server_cache_key_is_result_url_witness :
  normalizedUrl (P := Web.platform) "example.com" = "https://example.com"
  /\ normalizedUrl (P := Web.platform) "www.example.com" = "https://example.com"
  /\ (forall input st r st',
        input = "example.com" \/ input = "www.example.com" ->
        scoreUrl (P := Web.platform) input st = (inr r, st') ->
        url r = "https://example.com").
Proof.
  apply (server_cache_key_is_result_url Web.platform "example.com"
           Web_parses_plain_domains); reflexivity.
Defined.

Lemma one_word_path_relevance_witness :
  isRelevantUrl (P := Web.platform) "https://example.com/Pricing"
  = Some (existsb (String.eqb "pricing") (concat RELEVANT_PATTERNS))
  /\ (In "pricing" ["pricing"; "plans"; "plugins"; "developers"; "integrations"; "partners"] ->
      isRelevantUrl (P := Web.platform) "https://example.com/Pricing" = Some false).
Proof.
  apply (one_word_path_relevance (P := Web.platform) "https://example.com/Pricing"
           {| Web.scheme := "https"; Web.host := "example.com"; Web.port := EmptyString;
              Web.path := "/Pricing"; Web.query := EmptyString;
              Web.fragment := EmptyString |} "pricing"); reflexivity.
Defined.
